(** * qbm-rl-steering: the quantum actor-critic trainer and its replay buffer

    A shallow embedding of [src/qbm_rl_steering/core/utils.py] (class
    [ReplayBuffer] and the two generators of the classical networks) and
    [src/qbm_rl_steering/core/qac.py] (class [QuantumActorCritic]).

    Conventions of the embedding.
    - A Python float (and a numpy float32/float64 entry) is an exact rational
      [Qc]: rounding, infinities and NaN are outside the model, and a dtype
      cast is the identity.  The only NaN the modelled code can produce from
      finite data, the mean of an empty array, is written out ([np.mean]).
    - A 1-D numpy array is a [list Qc], a 2-D array the list of its rows.
    - A method that mutates [self] is a function from the object to the
      updated object; a Python exception is the [Raise] branch of [result].
    - Calls into code that is not part of these files (the QBM critic
      [QFunction], the Keras actor, the gym environment, numpy's random
      generator, the [Memory] store) go through the [Capabilities] interface
      or, for numpy's generator, read a tape of the draws still to come. *)

From Stdlib Require Import QArith Qcanon Qcabs.
From stdpp Require Import base numbers list option gmap fin_maps.

(** ** Exceptions and results *)

Inductive exn : Type :=
| IndexError
| ValueError
| KeyError
| ZeroDivisionError.

Inductive result (A : Type) : Type :=
| Ok (a : A)
| Raise (e : exn).
Arguments Ok {A} a.
Arguments Raise {A} e.

Definition result_bind {A B : Type} (m : result A) (f : A → result B) : result B :=
  match m with
  | Ok a => f a
  | Raise e => Raise e
  end.

#[global] Instance result_mbind : MBind result :=
  λ A B f m, result_bind m f.
#[global] Instance result_mret : MRet result := @Ok.

(** ** The parts of numpy the two files use *)

Module np.

(** [np.random]'s global generator, as the tape of raw draws it will hand out
    next: [ints] feeds [randint], [normals] feeds [randn]. *)
Record RandomState : Type := {
  ints : nat → nat;
  normals : nat → Qc
}.

Definition skip_ints (n : nat) (g : RandomState) : RandomState :=
  {| ints := λ i, ints g (n + i)%nat; normals := normals g |}.

Definition skip_normals (n : nat) (g : RandomState) : RandomState :=
  {| ints := ints g; normals := λ i, normals g (n + i)%nat |}.

(** [np.random.randint(low, high, size=n)]: [n] integers of [low, high);
    an empty request returns the empty array, any other request with
    [high <= low] raises ValueError("low >= high"). *)
Definition randint (low high n : nat) (g : RandomState)
  : result (list nat) * RandomState :=
  if decide (n = 0)%nat then (Ok [], g)
  else if decide (low < high)%nat
  then (Ok ((λ i, low + ints g i `mod` (high - low))%nat <$> seq 0 n),
        skip_ints n g)
  else (Raise ValueError, g).

(** [np.random.randn(n)]: [n] standard normal draws. *)
Definition randn (n : nat) (g : RandomState) : list Qc * RandomState :=
  (normals g <$> seq 0 n, skip_normals n g).

(** [a[i] = x] on the first axis. *)
Definition setitem {A : Type} (a : list A) (i : nat) (x : A) : result (list A) :=
  if decide (i < length a)%nat then Ok (<[i := x]> a) else Raise IndexError.

(** [a[i]] on the first axis. *)
Definition getitem {A : Type} (a : list A) (i : nat) : result A :=
  match a !! i with
  | Some x => Ok x
  | None => Raise IndexError
  end.

(** [a[idxs]]: indexing with an integer array. *)
Fixpoint take_idxs {A : Type} (a : list A) (idxs : list nat) : result (list A) :=
  match idxs with
  | [] => Ok []
  | i :: rest =>
      x ← getitem a i;
      xs ← take_idxs a rest;
      Ok (x :: xs)
  end.

(** [r.reshape(-1, 1)] of a 1-D array: one row per entry. *)
Definition reshape_column (r : list Qc) : list (list Qc) := (λ x, [x]) <$> r.

(** [np.maximum] and [np.minimum] on two entries; on a tie the first
    argument is kept, as Python's [max] keeps the first maximal item. *)
Definition maximum (a b : Qc) : Qc := if decide (a < b)%Qc then b else a.
Definition minimum (a b : Qc) : Qc := if decide (b < a)%Qc then b else a.

(** [np.clip(x, lo, hi)] on one entry: [minimum(hi, maximum(x, lo))]. *)
Definition clip1 (x lo hi : Qc) : Qc := minimum hi (maximum x lo).

(** [np.clip] on a 2-D array. *)
Definition clip (a : list (list Qc)) (lo hi : Qc) : list (list Qc) :=
  (λ row : list Qc, (λ x, clip1 x lo hi) <$> row) <$> a.

(** Python's [max] over a 1-D array: ValueError on an empty one. *)
Definition py_max (xs : list Qc) : result Qc :=
  match xs with
  | [] => Raise ValueError
  | x :: rest => Ok (foldl maximum x rest)
  end.

(** [x / y] on Python floats: ZeroDivisionError when [y] is zero. *)
Definition truediv (x y : Qc) : result Qc :=
  if decide (y = 0%Qc) then Raise ZeroDivisionError else Ok (x / y)%Qc.

(** [row += v] for 1-D [row] and [v]: [v] is broadcast to the shape of
    [row] (equal lengths, or a single entry), ValueError otherwise. *)
Definition iadd (row v : list Qc) : result (list Qc) :=
  if decide (length v = length row) then Ok (zip_with Qcplus row v)
  else match v with
       | [x] => Ok ((λ y, y + x)%Qc <$> row)
       | _ => Raise ValueError
       end.

(** [a += v] for a 2-D [a] and a 1-D [v]: every row gets [v].  An array
    without rows is left as it is. *)
Fixpoint iadd_rows (a : list (list Qc)) (v : list Qc) : result (list (list Qc)) :=
  match a with
  | [] => Ok []
  | row :: rest =>
      row' ← iadd row v;
      rest' ← iadd_rows rest v;
      Ok (row' :: rest')
  end.

(** [x - y] for 1-D arrays, with broadcasting of a single entry. *)
Definition sub (x y : list Qc) : result (list Qc) :=
  if decide (length x = length y) then Ok (zip_with Qcminus x y)
  else match x, y with
       | _, [b] => Ok ((λ a, a - b)%Qc <$> x)
       | [a], _ => Ok ((λ b, a - b)%Qc <$> y)
       | _, _ => Raise ValueError
       end.

(** [x + y] for 1-D arrays, with broadcasting of a single entry. *)
Definition add (x y : list Qc) : result (list Qc) :=
  if decide (length x = length y) then Ok (zip_with Qcplus x y)
  else match x, y with
       | _, [b] => Ok ((λ a, a + b)%Qc <$> x)
       | [a], _ => Ok ((λ b, a + b)%Qc <$> y)
       | _, _ => Raise ValueError
       end.

(** [a[:, i] += eps] on a copy of the 2-D array [a]: IndexError when a row
    has no column [i].  (An array without rows keeps no column count here,
    so the model accepts every [i] for it.) *)
Fixpoint iadd_column (a : list (list Qc)) (i : nat) (eps : Qc)
  : result (list (list Qc)) :=
  match a with
  | [] => Ok []
  | row :: rest =>
      x ← getitem row i;
      rest' ← iadd_column rest i eps;
      Ok (<[i := (x + eps)%Qc]> row :: rest')
  end.

(** [a[:, i] = v] for a 2-D [a] with [ncols] columns and a 1-D [v]: [v] has
    one entry per row or is a single entry, which is broadcast. *)
Definition set_column (ncols : nat) (a : list (list Qc)) (i : nat) (v : list Qc)
  : result (list (list Qc)) :=
  if decide (i < ncols)%nat then
    if decide (length v = length a) then Ok (zip_with (λ (row : list Qc) x, <[i := x]> row) a v)
    else match v with
         | [x] => Ok ((λ row : list Qc, <[i := x]> row) <$> a)
         | _ => Raise ValueError
         end
  else Raise IndexError.

(** [a.T] for a 2-D [a] with [ncols] columns. *)
Definition transpose (ncols : nat) (a : list (list Qc)) : list (list Qc) :=
  (λ i, (λ row : list Qc, default 0%Qc (row !! i)) <$> a) <$> seq 0 ncols.

(** [np.zeros((n, m))]. *)
Definition zeros2 (n m : nat) : list (list Qc) := replicate n (replicate m 0%Qc).

(** [a.mean()] of a 1-D array; [None] is the nan numpy gives for an empty
    one. *)
Definition mean (a : list Qc) : option Qc :=
  match a with
  | [] => None
  | _ => Some (foldr Qcplus 0%Qc a / Qc_of_Z (Z.of_nat (length a)))%Qc
  end.

(** [tau * x + (1.0 - tau) * y] on two arrays of one shape; ValueError when
    the shapes differ. *)
Definition blend1 (tau : Qc) (x y : list Qc) : result (list Qc) :=
  if decide (length x = length y)
  then Ok (zip_with (λ a b, tau * a + (1 - tau) * b)%Qc x y)
  else Raise ValueError.

End np.

(** ** utils.py: [ReplayBuffer] *)

Module ReplayBuffer.
Section buffer.
(** A row of [obs1_buf]/[obs2_buf] (a float32 vector of [obs_dim] entries)
    and a row of [acts_buf] ([act_dim] entries), with the rows [np.zeros]
    fills them with. *)
Context {Obs Act : Type}.
Variable zero_obs : Obs.
Variable zero_act : Act.

Record t : Type := {
  obs1_buf : list Obs;
  obs2_buf : list Obs;
  acts_buf : list Act;
  rews_buf : list Qc;
  done_buf : list Qc;
  ptr : nat;
  size : nat;
  max_size : nat
}.

(** What the caller hands to [push]. *)
Record transition : Type := {
  obs : Obs;
  act : Act;
  rew : Qc;
  next_obs : Obs;
  done : bool
}.

(** [done_buf] is a float32 array: a flag is stored as 0.0 or 1.0. *)
Definition float_of_bool (b : bool) : Qc := (if b then 1 else 0)%Qc.

(** [__init__(self, size, obs_dim, act_dim)]. *)
Definition init (size0 : nat) : t :=
  {| obs1_buf := replicate size0 zero_obs;
     obs2_buf := replicate size0 zero_obs;
     acts_buf := replicate size0 zero_act;
     rews_buf := replicate size0 0%Qc;
     done_buf := replicate size0 0%Qc;
     ptr := 0; size := 0; max_size := size0 |}.

(** Python's [a % b] on non-negative ints. *)
Definition py_mod (a b : nat) : result nat :=
  if decide (b = 0)%nat then Raise ZeroDivisionError else Ok (a `mod` b)%nat.

(** [push(self, obs, act, rew, next_obs, done)], for a transition whose
    observations and action are rows as the arrays hold them ([Obs], [Act]),
    with a scalar reward and flag.  A call whose [obs], [act] or [next_obs]
    cannot be broadcast into a row, which numpy refuses with a ValueError,
    has no counterpart here. *)
Definition push (b : t) (x : transition) : result t :=
  o1 ← np.setitem (obs1_buf b) (ptr b) (obs x);
  o2 ← np.setitem (obs2_buf b) (ptr b) (next_obs x);
  ac ← np.setitem (acts_buf b) (ptr b) (act x);
  rw ← np.setitem (rews_buf b) (ptr b) (rew x);
  dn ← np.setitem (done_buf b) (ptr b) (float_of_bool (done x));
  p ← py_mod (ptr b + 1) (max_size b);
  Ok {| obs1_buf := o1; obs2_buf := o2; acts_buf := ac; rews_buf := rw;
        done_buf := dn; ptr := p;
        size := (size b + 1) `min` max_size b;
        max_size := max_size b |}.

(** A run of pushes, oldest first; the first exception ends it. *)
Definition push_all (b : t) (xs : list transition) : result t :=
  foldl (λ r x, b' ← r; push b' x) (Ok b) xs.

(** The five arrays [sample] returns: (s, a, r as a column, s2, d). *)
Definition batch : Type :=
  list Obs * list Act * list (list Qc) * list Obs * list Qc.

(** [sample(self, batch_size)]. *)
Definition sample (b : t) (batch_size : nat) (g : np.RandomState)
  : result batch * np.RandomState :=
  match np.randint 0 (size b) batch_size g with
  | (Raise e, g') => (Raise e, g')
  | (Ok idxs, g') =>
      (s ← np.take_idxs (obs1_buf b) idxs;
       s2 ← np.take_idxs (obs2_buf b) idxs;
       a ← np.take_idxs (acts_buf b) idxs;
       r ← np.take_idxs (rews_buf b) idxs;
       d ← np.take_idxs (done_buf b) idxs;
       Ok (s, a, np.reshape_column r, s2, d), g')
  end.

(** *** Vocabulary of the statements *)

(** [buf] holds, for every one of the last [C] pushes, the field [f] of
    that push in the slot of its position. *)
Definition ring_holds {A : Type} (f : transition → A) (C : nat)
    (buf : list A) (ts : list transition) : Prop :=
  length buf = C ∧
  ∀ k x, ts !! k = Some x → (length ts ≤ k + C)%nat →
         buf !! (k `mod` C)%nat = Some (f x).

(** The state of a buffer of capacity [C] after the pushes [ts]. *)
Record pushed (C : nat) (ts : list transition) (b : t) : Prop := {
  pushed_obs1 : ring_holds obs C (obs1_buf b) ts;
  pushed_obs2 : ring_holds next_obs C (obs2_buf b) ts;
  pushed_acts : ring_holds act C (acts_buf b) ts;
  pushed_rews : ring_holds rew C (rews_buf b) ts;
  pushed_done :
    ring_holds (λ x, float_of_bool (done x)) C
               (done_buf b) ts;
  pushed_ptr : ptr b = (length ts `mod` C)%nat;
  pushed_size : size b = (length ts `min` C)%nat;
  pushed_max_size : max_size b = C
}.

End buffer.
End ReplayBuffer.


(** ** utils.py: the generators of the classical networks *)

(** The part of Keras' functional API the two generators use.  A symbolic
    tensor is the expression that built it. *)
Module keras.

Inductive activation : Type := relu | linear | tanh.

#[warnings="-register-all"]
Inductive tensor : Type :=
| Input (shape : nat)
| Dense (units : nat) (act : activation) (x : tensor)
| concatenate (xs : list tensor).

(** [tf.keras.Model(inputs, outputs)]. *)
Record Model : Type := {
  inputs : list tensor;
  outputs : tensor
}.

End keras.

(** [l[:-1]] on a Python list. *)
Definition all_but_last {A : Type} (l : list A) : list A :=
  take (length l - 1) l.

(** [l[-1]] on a Python list: IndexError on an empty one. *)
Definition last_item {A : Type} (l : list A) : result A :=
  match last l with
  | Some x => Ok x
  | None => Raise IndexError
  end.

(** [generate_classical_critic(n_dims_state_space, n_dims_action_space,
    hidden_layers)]. *)
Definition generate_classical_critic (n_dims_state_space n_dims_action_space : nat)
    (hidden_layers : list nat) : result keras.Model :=
  let input_state := keras.Input n_dims_state_space in
  let input_action := keras.Input n_dims_action_space in
  let x := keras.concatenate [input_state; input_action] in
  let x := foldl (λ x j, keras.Dense j keras.relu x) x
                 (all_but_last hidden_layers) in
  units ← last_item hidden_layers;
  let x := keras.Dense units keras.linear x in
  Ok {| keras.inputs := [input_state; input_action]; keras.outputs := x |}.

(** [generate_classical_actor(n_dims_state_space, n_dims_action_space,
    hidden_layers)]. *)
Definition generate_classical_actor (n_dims_state_space n_dims_action_space : nat)
    (hidden_layers : list nat) : keras.Model :=
  let input_state := keras.Input n_dims_state_space in
  let x := input_state in
  let x := foldl (λ x i, keras.Dense i keras.relu x) x hidden_layers in
  let x := keras.Dense n_dims_action_space keras.tanh x in
  {| keras.inputs := [input_state]; keras.outputs := x |}.

(** *** Vocabulary of the statements *)

(** The stack of [Dense] layers on top of a tensor, from the first applied
    to the last: the width and the activation of each. *)
Fixpoint dense_layers (t : keras.tensor) : list (nat * keras.activation) :=
  match t with
  | keras.Dense units act x => dense_layers x ++ [(units, act)]
  | _ => []
  end.

(** The tensor the stack of [Dense] layers is fed with. *)
Fixpoint fed_by (t : keras.tensor) : keras.tensor :=
  match t with
  | keras.Dense _ _ x => fed_by x
  | _ => t
  end.


(** ** qac.py: [QuantumActorCritic] *)

(** The types the trainer handles without looking inside: the structural
    key of a coupling in [w_hh]/[w_vh], the two payloads
    [calculate_q_value] returns besides the value, the [Memory] store, and
    [Backend], the state its collaborators keep to themselves (annealing
    sampler, TensorFlow session and optimizer, gym's generator). *)
Class Opaque : Type := {
  key : Type;
  key_eq_dec :: EqDecision key;
  key_countable :: Countable key;
  SpinConfigs : Type;
  VisibleNodes : Type;
  Memory : Type;
  Backend : Type
}.

(** [gym.Env]: the static bounds and shapes the trainer reads. *)
Record Env : Type := {
  action_space_low : list Qc;
  action_space_high : list Qc;
  action_space_shape : list nat;
  observation_space_shape : list nat
}.

(** The [states] argument of [get_action]: a 1-D or a 2-D array. *)
Inductive ndarray : Type :=
| array1 (v : list Qc)
| array2 (a : list (list Qc)).

(** The local network of a pair, or its target copy. *)
Inductive net : Type := Local | Target.

(** The two weight collections of a critic. *)
Inductive couplings : Type := hh | vh.

Section qac.
Context `{Opaque}.

(** [QFunction] (qbm.py), as far as the trainer reads and writes it. *)
Record QFunction : Type := {
  w_hh : gmap key Qc;
  w_vh : gmap key Qc;
  small_gamma : Qc
}.

(** A Keras model, as far as the trainer reads and writes it: the list of
    weight tensors behind [get_weights]/[set_weights], each flattened. *)
Record Model : Type := {
  weights : list (list Qc)
}.

(** The minibatch [Memory.get_sample] returns:
    (states, actions, rewards, next_states, dones). *)
Definition minibatch : Type :=
  list (list Qc) * list (list Qc) * list Qc * list (list Qc) * list Qc.

(** The calls into the collaborators.  [Memory] is imported from utils.py
    but is not defined there; [QFunction] lives in qbm.py; the rest is
    Keras and gym.  [QFunction_update_weights] returns the two weight
    collections as the critic's own rule leaves them. *)
Class Capabilities : Type := {
  QFunction_init : Env → Qc → nat → nat → Backend →
                   gmap key Qc * gmap key Qc * Backend;
  QFunction_calculate_q_value :
    net → QFunction → list Qc → list Qc → Backend →
    Qc * SpinConfigs * VisibleNodes * Backend;
  QFunction_calculate_q_value_on_batch :
    QFunction → list (list Qc) → list (list Qc) → Backend →
    list Qc * Backend;
  QFunction_update_weights :
    QFunction → SpinConfigs → VisibleNodes → Qc → Qc → Qc → Qc → Backend →
    gmap key Qc * gmap key Qc * Backend;
  Model_init : list nat → nat → Qc → Backend → Model * Backend;
  Model_forward : Model → list (list Qc) → list (list Qc);
  Model_apply_gradients :
    Model → list (list Qc) → list Qc → list (list Qc) → list (list Qc) →
    Backend → Model * Backend;
  action_space_sample : Env → Backend → list Qc * Backend;
  Memory_init : nat → nat → N → Backend → Memory * Backend;
  Memory_get_sample : Memory → nat → Backend →
                      result minibatch * Memory * Backend
}.
Context `{Capabilities}.

(** One call into a collaborator, with what it was given (and, for the
    critic's evaluations, what it returned). *)
Inductive event : Type :=
| call_get_sample (batch_size : nat)
| call_calculate_q_value (who : net) (state action : list Qc)
    (q : Qc) (spins : SpinConfigs) (visible : VisibleNodes)
| call_calculate_q_value_on_batch (states actions : list (list Qc)) (q : list Qc)
| call_update_weights (spins : SpinConfigs) (visible : VisibleNodes)
    (q next_q reward learning_rate : Qc)
| call_predict_on_batch (who : net) (states : list (list Qc))
| call_train_on_batch (x y : list (list Qc))
| call_get_weights (who : net)
| call_set_weights (who : net) (w : list (list Qc))
| call_action_space_sample
| call_randn (n : nat).

(** The attributes of a [QuantumActorCritic] the methods below use. *)
Record QuantumActorCritic : Type := {
  env : Env;
  action_n : nat;
  state_dim : list nat;
  action_limit : Qc;
  gamma_rl : Qc;
  tau_soft_update : Qc;
  replay_buffer_size : N;
  replay_batch_size : nat;
  action_noise_scale : Qc;
  n_annealing_steps : nat;
  n_anneals_for_average : nat;
  critic_learning_rate : Qc;
  actor_initial_learning_rate : Qc;
  critic : QFunction;
  critic_target : QFunction;
  actor : Model;
  actor_target : Model;
  replay_memory : Memory;
  q_losses : list (option Qc)
}.

(** The trainer, numpy's generator, the collaborators' hidden state, and
    the calls made so far, oldest first. *)
Record World : Type := {
  self : QuantumActorCritic;
  random : np.RandomState;
  backend : Backend;
  trace : list event
}.

Definition set_self (f : QuantumActorCritic → QuantumActorCritic) (w : World) : World :=
  {| self := f (self w); random := random w; backend := backend w;
     trace := trace w |}.

Definition set_random (g : np.RandomState) (w : World) : World :=
  {| self := self w; random := g; backend := backend w; trace := trace w |}.

Definition set_backend (b : Backend) (w : World) : World :=
  {| self := self w; random := random w; backend := b; trace := trace w |}.

Definition log (e : event) (w : World) : World :=
  {| self := self w; random := random w; backend := backend w;
     trace := trace w ++ [e] |}.

Definition with_critic (c : QFunction) (s : QuantumActorCritic) : QuantumActorCritic :=
  {| env := env s; action_n := action_n s; state_dim := state_dim s;
     action_limit := action_limit s; gamma_rl := gamma_rl s;
     tau_soft_update := tau_soft_update s;
     replay_buffer_size := replay_buffer_size s;
     replay_batch_size := replay_batch_size s;
     action_noise_scale := action_noise_scale s;
     n_annealing_steps := n_annealing_steps s;
     n_anneals_for_average := n_anneals_for_average s;
     critic_learning_rate := critic_learning_rate s;
     actor_initial_learning_rate := actor_initial_learning_rate s;
     critic := c; critic_target := critic_target s;
     actor := actor s; actor_target := actor_target s;
     replay_memory := replay_memory s; q_losses := q_losses s |}.

Definition with_critic_target (c : QFunction) (s : QuantumActorCritic)
  : QuantumActorCritic :=
  {| env := env s; action_n := action_n s; state_dim := state_dim s;
     action_limit := action_limit s; gamma_rl := gamma_rl s;
     tau_soft_update := tau_soft_update s;
     replay_buffer_size := replay_buffer_size s;
     replay_batch_size := replay_batch_size s;
     action_noise_scale := action_noise_scale s;
     n_annealing_steps := n_annealing_steps s;
     n_anneals_for_average := n_anneals_for_average s;
     critic_learning_rate := critic_learning_rate s;
     actor_initial_learning_rate := actor_initial_learning_rate s;
     critic := critic s; critic_target := c;
     actor := actor s; actor_target := actor_target s;
     replay_memory := replay_memory s; q_losses := q_losses s |}.

Definition with_actor (m : Model) (s : QuantumActorCritic) : QuantumActorCritic :=
  {| env := env s; action_n := action_n s; state_dim := state_dim s;
     action_limit := action_limit s; gamma_rl := gamma_rl s;
     tau_soft_update := tau_soft_update s;
     replay_buffer_size := replay_buffer_size s;
     replay_batch_size := replay_batch_size s;
     action_noise_scale := action_noise_scale s;
     n_annealing_steps := n_annealing_steps s;
     n_anneals_for_average := n_anneals_for_average s;
     critic_learning_rate := critic_learning_rate s;
     actor_initial_learning_rate := actor_initial_learning_rate s;
     critic := critic s; critic_target := critic_target s;
     actor := m; actor_target := actor_target s;
     replay_memory := replay_memory s; q_losses := q_losses s |}.

Definition with_actor_target (m : Model) (s : QuantumActorCritic)
  : QuantumActorCritic :=
  {| env := env s; action_n := action_n s; state_dim := state_dim s;
     action_limit := action_limit s; gamma_rl := gamma_rl s;
     tau_soft_update := tau_soft_update s;
     replay_buffer_size := replay_buffer_size s;
     replay_batch_size := replay_batch_size s;
     action_noise_scale := action_noise_scale s;
     n_annealing_steps := n_annealing_steps s;
     n_anneals_for_average := n_anneals_for_average s;
     critic_learning_rate := critic_learning_rate s;
     actor_initial_learning_rate := actor_initial_learning_rate s;
     critic := critic s; critic_target := critic_target s;
     actor := actor s; actor_target := m;
     replay_memory := replay_memory s; q_losses := q_losses s |}.

Definition with_replay_memory (m : Memory) (s : QuantumActorCritic)
  : QuantumActorCritic :=
  {| env := env s; action_n := action_n s; state_dim := state_dim s;
     action_limit := action_limit s; gamma_rl := gamma_rl s;
     tau_soft_update := tau_soft_update s;
     replay_buffer_size := replay_buffer_size s;
     replay_batch_size := replay_batch_size s;
     action_noise_scale := action_noise_scale s;
     n_annealing_steps := n_annealing_steps s;
     n_anneals_for_average := n_anneals_for_average s;
     critic_learning_rate := critic_learning_rate s;
     actor_initial_learning_rate := actor_initial_learning_rate s;
     critic := critic s; critic_target := critic_target s;
     actor := actor s; actor_target := actor_target s;
     replay_memory := m; q_losses := q_losses s |}.

Definition with_q_losses (l : list (option Qc)) (s : QuantumActorCritic)
  : QuantumActorCritic :=
  {| env := env s; action_n := action_n s; state_dim := state_dim s;
     action_limit := action_limit s; gamma_rl := gamma_rl s;
     tau_soft_update := tau_soft_update s;
     replay_buffer_size := replay_buffer_size s;
     replay_batch_size := replay_batch_size s;
     action_noise_scale := action_noise_scale s;
     n_annealing_steps := n_annealing_steps s;
     n_anneals_for_average := n_anneals_for_average s;
     critic_learning_rate := critic_learning_rate s;
     actor_initial_learning_rate := actor_initial_learning_rate s;
     critic := critic s; critic_target := critic_target s;
     actor := actor s; actor_target := actor_target s;
     replay_memory := replay_memory s; q_losses := l |}.

Definition get_w (c : couplings) (q : QFunction) : gmap key Qc :=
  match c with hh => w_hh q | vh => w_vh q end.

Definition set_w (c : couplings) (m : gmap key Qc) (q : QFunction) : QFunction :=
  match c with
  | hh => {| w_hh := m; w_vh := w_vh q; small_gamma := small_gamma q |}
  | vh => {| w_hh := w_hh q; w_vh := m; small_gamma := small_gamma q |}
  end.

Definition the_critic (who : net) (s : QuantumActorCritic) : QFunction :=
  match who with Local => critic s | Target => critic_target s end.

Definition the_actor (who : net) (s : QuantumActorCritic) : Model :=
  match who with Local => actor s | Target => actor_target s end.

(** *** Methods run in a world: state, exceptions, and the trace *)

Definition M (A : Type) : Type := World → result A * World.

Definition M_ret {A : Type} (a : A) : M A := λ w, (Ok a, w).

Definition M_bind {A B : Type} (m : M A) (f : A → M B) : M B :=
  λ w, match m w with
       | (Ok a, w') => f a w'
       | (Raise e, w') => (Raise e, w')
       end.

#[global] Instance M_mret : MRet M := @M_ret.
#[global] Instance M_mbind : MBind M := λ A B f m, M_bind m f.

(** A pure step that may raise. *)
Definition lift {A : Type} (r : result A) : M A := λ w, (r, w).

Definition get_self : M QuantumActorCritic := λ w, (Ok (self w), w).

Definition update_self (f : QuantumActorCritic → QuantumActorCritic) : M unit :=
  λ w, (Ok tt, set_self f w).

Definition emit (e : event) : M unit := λ w, (Ok tt, log e w).

(** [d[k]] on a dict: KeyError for a missing key. *)
Definition dict_get (d : gmap key Qc) (k : key) : result Qc :=
  match d !! k with
  | Some x => Ok x
  | None => Raise KeyError
  end.

(** *** The collaborators' methods, as the trainer calls them *)

(** [self.critic.calculate_q_value(state, action)] for [Local],
    [self.critic_target.calculate_q_value(state, action)] for [Target]. *)
Definition calculate_q_value (who : net) (state action : list Qc)
  : M (Qc * SpinConfigs * VisibleNodes) :=
  λ w,
    let '(q, spins, visible, b) :=
      QFunction_calculate_q_value who (the_critic who (self w)) state action
                                  (backend w) in
    (Ok (q, spins, visible),
     log (call_calculate_q_value who state action q spins visible)
         (set_backend b w)).

(** [self.critic.calculate_q_value_on_batch(states, actions)]; only the
    first of the three values it returns is used. *)
Definition calculate_q_value_on_batch (states actions : list (list Qc))
  : M (list Qc) :=
  λ w,
    let '(q, b) :=
      QFunction_calculate_q_value_on_batch (critic (self w)) states actions
                                           (backend w) in
    (Ok q, log (call_calculate_q_value_on_batch states actions q)
               (set_backend b w)).

(** [self.critic.update_weights(spin_configs, visible_nodes, q_value,
    next_q_value, reward, learning_rate=...)]: the critic's own rule,
    applied in place to its two weight collections. *)
Definition update_weights (spins : SpinConfigs) (visible : VisibleNodes)
    (q next_q reward learning_rate : Qc) : M unit :=
  λ w,
    let c := critic (self w) in
    let '(new_hh, new_vh, b) :=
      QFunction_update_weights c spins visible q next_q reward learning_rate
                               (backend w) in
    (Ok tt,
     log (call_update_weights spins visible q next_q reward learning_rate)
         (set_backend b
            (set_self (with_critic {| w_hh := new_hh; w_vh := new_vh;
                                      small_gamma := small_gamma c |}) w))).

(** [model.predict_on_batch(states)] on [self.actor] or [self.actor_target]. *)
Definition predict_on_batch (who : net) (states : list (list Qc))
  : M (list (list Qc)) :=
  λ w, (Ok (Model_forward (the_actor who (self w)) states),
        log (call_predict_on_batch who states) w).

(** [np.array(model.get_weights())]. *)
Definition get_weights (who : net) : M (list (list Qc)) :=
  λ w, (Ok (weights (the_actor who (self w))), log (call_get_weights who) w).

(** [model.set_weights(ws)]. *)
Definition set_weights (who : net) (ws : list (list Qc)) : M unit :=
  λ w, (Ok tt,
        log (call_set_weights who ws)
            (set_self (match who with
                       | Local => with_actor {| weights := ws |}
                       | Target => with_actor_target {| weights := ws |}
                       end) w)).

(** [np.random.randn(n)]. *)
Definition randn (n : nat) : M (list Qc) :=
  λ w, let '(z, g) := np.randn n (random w) in
       (Ok z, log (call_randn n) (set_random g w)).

(** [self.env.action_space.sample()]. *)
Definition env_action_space_sample : M (list Qc) :=
  λ w, let '(a, b) := action_space_sample (env (self w)) (backend w) in
       (Ok a, log call_action_space_sample (set_backend b w)).

(** [self.replay_memory.get_sample(batch_size=n)]. *)
Definition get_sample (n : nat) : M minibatch :=
  λ w, let '(r, mem, b) :=
         Memory_get_sample (replay_memory (self w)) n (backend w) in
       (r, log (call_get_sample n)
               (set_backend b (set_self (with_replay_memory mem) w))).

(** The optimizer step of [self.actor.train_on_batch(x, ...)], fed with the
    value and the two gradients [q_custom_gradient] hands to TensorFlow. *)
Definition apply_gradients (x : list (list Qc)) (q : list Qc)
    (dq_over_dstate dq_over_daction : list (list Qc)) : M unit :=
  λ w, let '(m, b) :=
         Model_apply_gradients (actor (self w)) x q dq_over_dstate
                               dq_over_daction (backend w) in
       (Ok tt, set_backend b (set_self (with_actor m) w)).

(** *** [__init__] *)

(** [_generate_critic_net]: a QBM with random couplings and
    [small_gamma = self.gamma_rl]. *)
Definition _generate_critic_net (e : Env) (gamma : Qc)
    (annealing_steps anneals : nat) (b : Backend) : QFunction * Backend :=
  let '(m_hh, m_vh, b') := QFunction_init e gamma annealing_steps anneals b in
  ({| w_hh := m_hh; w_vh := m_vh; small_gamma := gamma |}, b').

(** The first synchronization loop of [__init__], over one collection:
    [for k in critic.w.keys(): critic_target.w[k] = critic.w[k]]. *)
Fixpoint copy_loop (local : gmap key Qc) (keys : list key)
    (target : gmap key Qc) : result (gmap key Qc) :=
  match keys with
  | [] => Ok target
  | k :: rest =>
      x ← dict_get local k;
      copy_loop local rest (<[k := x]> target)
  end.

(** The keys of a dict, each once.  The loops below visit them in this
    list's order, Python's in insertion order; the statements hold for
    either order. *)
Definition keys (d : gmap key Qc) : list key := (map_to_list d).*1.

(** [max(max(np.abs(high)), max(np.abs(low)))]. *)
Definition compute_action_limit (e : Env) : result Qc :=
  hi ← np.py_max (Qcabs <$> action_space_high e);
  lo ← np.py_max (Qcabs <$> action_space_low e);
  Ok (np.maximum hi lo).

(** [QuantumActorCritic.__init__], on a fresh generator and backend. *)
Definition __init__ (e : Env) (gamma : Qc) (batch_size : nat)
    (noise_scale tau critic_lr actor_lr : Qc)
    (annealing_steps anneals : nat)
    (g : np.RandomState) (b0 : Backend) : result World :=
  n ← np.getitem (action_space_shape e) 0;
  let dims := observation_space_shape e in
  limit ← compute_action_limit e;
  let buffer_size := 100000%N in
  let '(c, b1) := _generate_critic_net e gamma annealing_steps anneals b0 in
  let '(ct, b2) := _generate_critic_net e gamma annealing_steps anneals b1 in
  let '(a, b3) := Model_init dims n actor_lr b2 in
  let '(at_, b4) := Model_init dims n actor_lr b3 in
  ct_hh ← copy_loop (w_hh c) (keys (w_hh c)) (w_hh ct);
  ct_vh ← copy_loop (w_vh c) (keys (w_vh c)) (w_vh ct);
  let ct' := {| w_hh := ct_hh; w_vh := ct_vh; small_gamma := small_gamma ct |} in
  let at' := {| weights := weights a |} in
  d0 ← np.getitem dims 0;
  let '(mem, b5) := Memory_init d0 n buffer_size b4 in
  Ok {| self :=
          {| env := e; action_n := n; state_dim := dims;
             action_limit := limit; gamma_rl := gamma;
             tau_soft_update := tau;
             replay_buffer_size := buffer_size;
             replay_batch_size := batch_size;
             action_noise_scale := noise_scale;
             n_annealing_steps := annealing_steps;
             n_anneals_for_average := anneals;
             critic_learning_rate := critic_lr;
             actor_initial_learning_rate := actor_lr;
             critic := c; critic_target := ct';
             actor := a; actor_target := at';
             replay_memory := mem; q_losses := [] |};
        random := g; backend := b5;
        trace := [call_get_weights Local; call_set_weights Target (weights a)] |}.

(** *** The methods *)

(** [get_action(self, states, noise=None, episode=1)]. *)
Definition get_action (states : ndarray) (noise : option Qc) (episode : Z)
  : M (list (list Qc)) :=
  s ← get_self;
  let noise := default (action_noise_scale s) noise in
  let states := match states with array1 v => [v] | array2 a => a end in
  action ← predict_on_batch Local states;
  if decide (noise ≠ 0%Qc) then
    scale ← lift (np.truediv noise (Qc_of_Z episode));
    z ← randn (action_n s);
    action ← lift (np.iadd_rows action ((λ x, scale * x)%Qc <$> z));
    mret (np.clip action (- action_limit s)%Qc (action_limit s))
  else mret action.

(** [get_target_actions(self, states)]. *)
Definition get_target_actions (states : list (list Qc)) : M (list (list Qc)) :=
  predict_on_batch Target states.

(** The loop of [get_action_derivative] over the action coordinates [coords],
    on the array [grads] of [ncols] columns. *)
Fixpoint action_derivative_loop (states actions : list (list Qc))
    (epsilon : Qc) (ncols : nat) (coords : list nat) (grads : list (list Qc))
  : M (list (list Qc)) :=
  match coords with
  | [] => mret grads
  | i :: rest =>
      actions_tmp1 ← lift (np.iadd_column actions i epsilon);
      qeps_plus ← calculate_q_value_on_batch states actions_tmp1;
      actions_tmp2 ← lift (np.iadd_column actions i (- epsilon)%Qc);
      qeps_minus ← calculate_q_value_on_batch states actions_tmp2;
      diff ← lift (np.sub qeps_plus qeps_minus);
      let grad_ := (λ x, x / (2 * epsilon))%Qc <$> diff in
      grads' ← lift (np.set_column ncols grads i grad_);
      action_derivative_loop states actions epsilon ncols rest grads'
  end.

(** [get_action_derivative(self, states, actions, epsilon=0.4)]. *)
Definition get_action_derivative (states actions : list (list Qc))
    (epsilon : Qc) : M (list (list Qc)) :=
  s ← get_self;
  let grads := np.zeros2 (replay_batch_size s) (action_n s) in
  grads ← action_derivative_loop states actions epsilon (action_n s)
                                 (seq 0 (action_n s)) grads;
  mret (np.transpose (action_n s) grads).

(** The default [epsilon=0.4] of [get_action_derivative]. *)
Definition default_epsilon : Qc := Q2Qc (2 # 5).

(** [get_q_value(y_true, y_pred)], the Python function [q_custom_gradient]
    wraps: the value, a zero state gradient, and the action gradient. *)
Definition get_q_value (y_true y_pred : list (list Qc))
  : M (list Qc * list (list Qc) * list (list Qc)) :=
  q_value ← calculate_q_value_on_batch y_true y_pred;
  dq_over_daction ← get_action_derivative y_true y_pred default_epsilon;
  s ← get_self;
  d0 ← lift (np.getitem (state_dim s) 0);
  let dq_over_dstate := np.zeros2 d0 (replay_batch_size s) in
  mret (q_value, dq_over_dstate, dq_over_daction).

(** [self.actor.train_on_batch(x, y)] on the model compiled with
    [loss=self._ddpg_actor_loss]: one forward pass, one run of the loss's
    Python function [get_q_value(y_true, y_pred)], one optimizer step fed
    with its three results. *)
Definition train_on_batch (x y : list (list Qc)) : M unit :=
  _ ← emit (call_train_on_batch x y);
  s ← get_self;
  let y_pred := Model_forward (actor s) x in
  '(q, dq_over_dstate, dq_over_daction) ← get_q_value y y_pred;
  apply_gradients x q dq_over_dstate dq_over_daction.

(** [train_actor(self, states, actions)]. *)
Definition train_actor (states actions : list (list Qc)) : M unit :=
  train_on_batch states states.

(** The random phase of [train_critic]: one [action_space.sample()] per
    next state. *)
Fixpoint sample_next_actions (n : nat) : M (list (list Qc)) :=
  match n with
  | O => mret []
  | S n' =>
      a ← env_action_space_sample;
      rest ← sample_next_actions n';
      mret (a :: rest)
  end.

(** The loop of [train_critic] over the sample indices [js]. *)
Fixpoint train_critic_loop (states next_states actions next_actions : list (list Qc))
    (rewards : list Qc) (js : list nat) (q_loss_batch : list Qc)
  : M (list Qc) :=
  match js with
  | [] => mret q_loss_batch
  | jj :: rest =>
      state ← lift (np.getitem states jj);
      action ← lift (np.getitem actions jj);
      '(q_value, spin_configs, visible_nodes) ←
        calculate_q_value Local state action;
      next_state ← lift (np.getitem next_states jj);
      next_action ← lift (np.getitem next_actions jj);
      '(next_q_value, spin_configurations, visible_nodes) ←
        calculate_q_value Target next_state next_action;
      reward ← lift (np.getitem rewards jj);
      s ← get_self;
      _ ← update_weights spin_configs visible_nodes q_value next_q_value
                          reward (critic_learning_rate s);
      reward ← lift (np.getitem rewards jj);
      s ← get_self;
      let q_target := (reward + small_gamma (critic s) * next_q_value)%Qc in
      let q_loss := ((q_value - q_target) ^ 2)%Qc in
      q_loss_batch ← lift (np.setitem q_loss_batch jj q_loss);
      train_critic_loop states next_states actions next_actions rewards rest
                        q_loss_batch
  end.

(** [train_critic(self, states, next_states, actions, rewards, dones,
    random_phase=False)]. *)
Definition train_critic (states next_states actions : list (list Qc))
    (rewards dones : list Qc) (random_phase : bool) : M unit :=
  next_actions ← (if random_phase
                  then sample_next_actions (length next_states)
                  else get_target_actions next_states);
  q_loss_batch ← train_critic_loop states next_states actions next_actions
                   rewards (seq 0 (length states))
                   (replicate (length states) 0%Qc);
  update_self (λ s, with_q_losses (q_losses s ++ [np.mean q_loss_batch]) s).

(** One of the two critic loops of [_soft_update_actor_and_critic], over the
    keys [ks] of the collection [c] of the local critic. *)
Fixpoint soft_update_loop (c : couplings) (ks : list key) : M unit :=
  match ks with
  | [] => mret tt
  | k :: rest =>
      s ← get_self;
      local ← lift (dict_get (get_w c (critic s)) k);
      target ← lift (dict_get (get_w c (critic_target s)) k);
      let tau := tau_soft_update s in
      _ ← update_self (λ s,
            with_critic_target
              (set_w c (<[k := (tau * local + (1 - tau) * target)%Qc]>
                          (get_w c (critic_target s)))
                     (critic_target s)) s);
      soft_update_loop c rest
  end.

(** [tau * local + (1.0 - tau) * target] on two weight snapshots: tensor by
    tensor; ValueError when the snapshots or two tensors differ in shape.
    numpy would broadcast some snapshots of different shapes instead of
    raising; the two actors are built by the same generator call, so their
    snapshots have one shape, and on other snapshots the statements rely on
    no more than that the blend raises no KeyError. *)
Fixpoint blend (tau : Qc) (local target : list (list Qc))
  : result (list (list Qc)) :=
  match local, target with
  | [], [] => Ok []
  | x :: local', y :: target' =>
      z ← np.blend1 tau x y;
      rest ← blend tau local' target';
      Ok (z :: rest)
  | _, _ => Raise ValueError
  end.

(** [_soft_update_actor_and_critic(self)]. *)
Definition _soft_update_actor_and_critic : M unit :=
  s ← get_self;
  _ ← soft_update_loop hh (keys (w_hh (critic s)));
  s ← get_self;
  _ ← soft_update_loop vh (keys (w_vh (critic s)));
  weights_actor_local ← get_weights Local;
  weights_actor_target ← get_weights Target;
  s ← get_self;
  blended ← lift (blend (tau_soft_update s) weights_actor_local
                        weights_actor_target);
  set_weights Target blended.

(** *** Vocabulary of the statements *)

(** Every entry of the 2-D array [a] lies in [[lo, hi]]. *)
Definition within (lo hi : Qc) (a : list (list Qc)) : Prop :=
  ∀ row x, row ∈ a → x ∈ row → (lo ≤ x)%Qc ∧ (x ≤ hi)%Qc.

(** Every entry of [a] lies between the bounds the environment declares
    for its coordinate. *)
Definition within_declared_bounds (e : Env) (a : list (list Qc)) : Prop :=
  ∀ row i x lo hi,
    row ∈ a → row !! i = Some x →
    action_space_low e !! i = Some lo → action_space_high e !! i = Some hi →
    (lo ≤ x)%Qc ∧ (x ≤ hi)%Qc.

(** [states] as [get_action] hands it to the actor: a 1-D array becomes a
    batch of one row. *)
Definition promoted (states : ndarray) : list (list Qc) :=
  match states with array1 v => [v] | array2 a => a end.

(** The local and the target critic have the same keys, in [w_hh] and in
    [w_vh]. *)
Definition same_keys (s : QuantumActorCritic) : Prop :=
  dom (w_hh (critic s)) = dom (w_hh (critic_target s)) ∧
  dom (w_vh (critic s)) = dom (w_vh (critic_target s)).

(** The keys of a freshly built [QFunction] are fixed by the arguments of
    its constructor, whatever its random couplings are. *)
Definition constructor_fixes_keys (e : Env) (gamma : Qc)
    (annealing_steps anneals : nat) : Prop :=
  ∀ b b' : Backend,
    dom (QFunction_init e gamma annealing_steps anneals b).1.1
    = dom (QFunction_init e gamma annealing_steps anneals b').1.1 ∧
    dom (QFunction_init e gamma annealing_steps anneals b).1.2
    = dom (QFunction_init e gamma annealing_steps anneals b').1.2.

(** Two weight snapshots have the same shape. *)
Definition same_shape (local target : list (list Qc)) : Prop :=
  Forall2 (λ x y : list Qc, length x = length y) local target.

(** The Polyak blend of one pair of weights. *)
Definition polyak (tau local target : Qc) : Qc :=
  (tau * local + (1 - tau) * target)%Qc.

(** [row + delta * e_i]: the action [row] moved by [delta] along
    coordinate [i]. *)
Definition moved (row : list Qc) (i : nat) (delta : Qc) : list Qc :=
  <[i := (default 0%Qc (row !! i) + delta)%Qc]> row.

(** The minibatch of actions with every action moved by [delta] along
    coordinate [i]. *)
Definition perturbed (actions : list (list Qc)) (i : nat) (delta : Qc)
  : list (list Qc) :=
  (λ row, moved row i delta) <$> actions.

(** What the critic [c] answers to the probes of the action coordinates
    [coords], from the backend [b] on: per coordinate one batched
    evaluation at [+ eps] and then one at [- eps]. *)
Fixpoint probe (c : QFunction) (states actions : list (list Qc)) (eps : Qc)
    (coords : list nat) (b : Backend) : list (list Qc * list Qc) * Backend :=
  match coords with
  | [] => ([], b)
  | i :: rest =>
      let '(q_plus, b1) :=
        QFunction_calculate_q_value_on_batch c states (perturbed actions i eps) b in
      let '(q_minus, b2) :=
        QFunction_calculate_q_value_on_batch c states
          (perturbed actions i (- eps)%Qc) b1 in
      let '(answers, b3) := probe c states actions eps rest b2 in
      ((q_plus, q_minus) :: answers, b3)
  end.

(** The calls behind [probe], in order. *)
Fixpoint probe_calls (states actions : list (list Qc)) (eps : Qc)
    (coords : list nat) (answers : list (list Qc * list Qc)) : list event :=
  match coords, answers with
  | i :: coords', (q_plus, q_minus) :: answers' =>
      call_calculate_q_value_on_batch states (perturbed actions i eps) q_plus
      :: call_calculate_q_value_on_batch states (perturbed actions i (- eps)%Qc)
                                         q_minus
      :: probe_calls states actions eps coords' answers'
  | _, _ => []
  end.

(** The world after calls that moved the backend to [b] and appended
    [calls] to the trace. *)
Definition advance (b : Backend) (calls : list event) (w : World) : World :=
  {| self := self w; random := random w; backend := b;
     trace := trace w ++ calls |}.

(** One transition of a minibatch, as [train_critic] reads it from its
    arrays: [states[j]], [actions[j]], [rewards[j]], [next_states[j]]. *)
Record sample : Type := {
  s_state : list Qc;
  s_action : list Qc;
  s_reward : Qc;
  s_next_state : list Qc
}.

(** What one pass of the critic loop did for one sample: the sample, the
    next action it was paired with, the local critic's answer on
    (state, action) and the target critic's answer on
    (next state, next action). *)
Record sample_run : Type := {
  run_sample : sample;
  run_next_action : list Qc;
  run_q : Qc;
  run_spins : SpinConfigs;
  run_visible : VisibleNodes;
  run_next_q : Qc;
  run_next_spins : SpinConfigs;
  run_next_visible : VisibleNodes
}.

(** The critic loop as an ordered fold over the samples, each paired with
    its next action: evaluate with the local critic [c], evaluate with the
    target critic [ct], then let the local critic update its weights; the
    next sample meets the updated critic. *)
Fixpoint critic_pass (learning_rate : Qc) (xs : list (sample * list Qc))
    (c ct : QFunction) (b : Backend) : list sample_run * QFunction * Backend :=
  match xs with
  | [] => ([], c, b)
  | (x, next_action) :: rest =>
      let '(q, spins, visible, b1) :=
        QFunction_calculate_q_value Local c (s_state x) (s_action x) b in
      let '(next_q, next_spins, next_visible, b2) :=
        QFunction_calculate_q_value Target ct (s_next_state x) next_action b1 in
      let '(new_hh, new_vh, b3) :=
        QFunction_update_weights c spins next_visible q next_q (s_reward x)
                                 learning_rate b2 in
      let c' := {| w_hh := new_hh; w_vh := new_vh;
                   small_gamma := small_gamma c |} in
      let '(runs, c'', b4) := critic_pass learning_rate rest c' ct b3 in
      ({| run_sample := x; run_next_action := next_action;
          run_q := q; run_spins := spins; run_visible := visible;
          run_next_q := next_q; run_next_spins := next_spins;
          run_next_visible := next_visible |} :: runs, c'', b4)
  end.

(** The three calls of one pass, in order. *)
Definition calls_of_run (learning_rate : Qc) (r : sample_run) : list event :=
  [call_calculate_q_value Local (s_state (run_sample r))
     (s_action (run_sample r)) (run_q r) (run_spins r) (run_visible r);
   call_calculate_q_value Target (s_next_state (run_sample r))
     (run_next_action r) (run_next_q r) (run_next_spins r) (run_next_visible r);
   call_update_weights (run_spins r) (run_next_visible r) (run_q r)
     (run_next_q r) (s_reward (run_sample r)) learning_rate].

(** [(q - (reward + gamma * next_q)) ** 2]. *)
Definition td_loss (gamma : Qc) (r : sample_run) : Qc :=
  ((run_q r - (s_reward (run_sample r) + gamma * run_next_q r)) ^ 2)%Qc.

(** [n] draws of [action_space.sample()], from the backend [b] on. *)
Fixpoint sampled_actions (e : Env) (n : nat) (b : Backend)
  : list (list Qc) * Backend :=
  match n with
  | O => ([], b)
  | S n' =>
      let '(a, b1) := action_space_sample e b in
      let '(rest, b2) := sampled_actions e n' b1 in
      (a :: rest, b2)
  end.

(** The kinds of call each stage of [train] makes. *)
Definition is_update_weights (e : event) : bool :=
  match e with call_update_weights _ _ _ _ _ _ => true | _ => false end.

Definition is_critic_training_call (e : event) : bool :=
  match e with
  | call_calculate_q_value _ _ _ _ _ _ | call_update_weights _ _ _ _ _ _
  | call_predict_on_batch Target _ | call_action_space_sample => true
  | _ => false
  end.

Definition is_actor_training_call (e : event) : bool :=
  match e with
  | call_train_on_batch _ _ | call_calculate_q_value_on_batch _ _ _ => true
  | _ => false
  end.


(** Whatever way [m] ends, the calls it made are all of kind [P]. *)
Definition emits {A : Type} (P : event → bool) (m : M A) : Prop :=
  ∀ w r w', m w = (r, w') →
    ∃ calls, trace w' = trace w ++ calls ∧ Forall (λ e, P e = true) calls.

(** The target collection [c] after the loop over [ks]: the blend at the
    visited keys, the old entry elsewhere. *)
Definition blended_at (tau : Qc) (ks : list key) (local target : gmap key Qc)
    (k : key) : option Qc :=
  if decide (k ∈ ks) then
    match local !! k, target !! k with
    | Some l, Some t => Some (tau * l + (1 - tau) * t)%Qc
    | _, _ => None
    end
  else target !! k.

(** The column the loop writes for one pair of answers. *)
Definition difference_quotient (eps : Qc) (p : list Qc * list Qc) : list Qc :=
  (λ x, x / (2 * eps))%Qc <$> zip_with Qcminus p.1 p.2.

Definition put_column (i : nat) (v : list Qc) (grads : list (list Qc))
  : list (list Qc) :=
  zip_with (λ (row : list Qc) x, <[i := x]> row) grads v.

(** [grads] after the columns [coords] were written from [answers]. *)
Fixpoint fill (eps : Qc) (grads : list (list Qc)) (coords : list nat)
    (answers : list (list Qc * list Qc)) : list (list Qc) :=
  match coords, answers with
  | i :: coords', p :: answers' =>
      fill eps (put_column i (difference_quotient eps p) grads) coords' answers'
  | _, _ => grads
  end.

(** The critic answers a batched evaluation with one value per sample. *)
Definition one_value_per_sample : Prop :=
  ∀ c states actions b,
    length (QFunction_calculate_q_value_on_batch c states actions b).1
    = length states.

(** [train(self)]. *)
Definition train : M unit :=
  s ← get_self;
  '(states, actions, rewards, next_states, dones) ←
    get_sample (replay_batch_size s);
  _ ← train_critic states next_states actions rewards dones false;
  _ ← train_actor states actions;
  _soft_update_actor_and_critic.

(** *** The other difference schemes *)

(** The loop of [get_state_derivative] over the state coordinates [coords],
    on the array [grads] of [ncols] columns. *)
Fixpoint state_derivative_loop (states actions : list (list Qc))
    (epsilon : Qc) (ncols : nat) (coords : list nat) (grads : list (list Qc))
  : M (list (list Qc)) :=
  match coords with
  | [] => mret grads
  | i :: rest =>
      states_tmp1 ← lift (np.iadd_column states i epsilon);
      qeps_plus ← calculate_q_value_on_batch states_tmp1 actions;
      states_tmp2 ← lift (np.iadd_column states i (- epsilon)%Qc);
      qeps_minus ← calculate_q_value_on_batch states_tmp2 actions;
      diff ← lift (np.sub qeps_plus qeps_minus);
      let grad_ := (λ x, x / (2 * epsilon))%Qc <$> diff in
      grads' ← lift (np.set_column ncols grads i grad_);
      state_derivative_loop states actions epsilon ncols rest grads'
  end.

(** [get_state_derivative(self, states, actions, epsilon=0.5)]. *)
Definition get_state_derivative (states actions : list (list Qc))
    (epsilon : Qc) : M (list (list Qc)) :=
  s ← get_self;
  d0 ← lift (np.getitem (state_dim s) 0);
  let grads := np.zeros2 (replay_batch_size s) d0 in
  s ← get_self;
  d0 ← lift (np.getitem (state_dim s) 0);
  grads ← state_derivative_loop states actions epsilon d0 (seq 0 d0) grads;
  mret (np.transpose d0 grads).

(** The default [epsilon=0.5] of [get_state_derivative]. *)
Definition default_state_epsilon : Qc := Q2Qc (1 # 2).

(** [(-q2eps_plus + 8*qeps_plus - 8*qeps_minus + q2eps_minus)
    / (12 * epsilon)] on the four answers of one coordinate. *)
Definition five_point_combination (epsilon : Qc)
    (qeps_plus q2eps_plus qeps_minus q2eps_minus : list Qc) : result (list Qc) :=
  t1 ← np.add (Qcopp <$> q2eps_plus) ((λ x, Qc_of_Z 8 * x)%Qc <$> qeps_plus);
  t2 ← np.sub t1 ((λ x, Qc_of_Z 8 * x)%Qc <$> qeps_minus);
  t3 ← np.add t2 q2eps_minus;
  Ok ((λ x, x / (Qc_of_Z 12 * epsilon))%Qc <$> (t3 : list Qc)).

(** The loop of [get_action_derivative_5point] over the action coordinates
    [coords]; [actions_tmp1] and [actions_tmp2] are each moved twice in
    place. *)
Fixpoint action_derivative_5point_loop (states actions : list (list Qc))
    (epsilon : Qc) (ncols : nat) (coords : list nat) (grads : list (list Qc))
  : M (list (list Qc)) :=
  match coords with
  | [] => mret grads
  | i :: rest =>
      actions_tmp1 ← lift (np.iadd_column actions i epsilon);
      qeps_plus ← calculate_q_value_on_batch states actions_tmp1;
      actions_tmp1 ← lift (np.iadd_column actions_tmp1 i epsilon);
      q2eps_plus ← calculate_q_value_on_batch states actions_tmp1;
      actions_tmp2 ← lift (np.iadd_column actions i (- epsilon)%Qc);
      qeps_minus ← calculate_q_value_on_batch states actions_tmp2;
      actions_tmp2 ← lift (np.iadd_column actions_tmp2 i (- epsilon)%Qc);
      q2eps_minus ← calculate_q_value_on_batch states actions_tmp2;
      grad_ ← lift (five_point_combination epsilon qeps_plus q2eps_plus
                                           qeps_minus q2eps_minus);
      grads' ← lift (np.set_column ncols grads i grad_);
      action_derivative_5point_loop states actions epsilon ncols rest grads'
  end.

(** [get_action_derivative_5point(self, states, actions, epsilon=0.15)]. *)
Definition get_action_derivative_5point (states actions : list (list Qc))
    (epsilon : Qc) : M (list (list Qc)) :=
  s ← get_self;
  let grads := np.zeros2 (replay_batch_size s) (action_n s) in
  grads ← action_derivative_5point_loop states actions epsilon (action_n s)
                                        (seq 0 (action_n s)) grads;
  mret (np.transpose (action_n s) grads).

(** *** Vocabulary of the statements, continued *)

(** What the critic [c] answers to the probes of the state coordinates
    [coords], from the backend [b] on: per coordinate one batched evaluation
    with the states moved by [+ eps] and then one with the states moved by
    [- eps]. *)
Fixpoint probe_states (c : QFunction) (states actions : list (list Qc)) (eps : Qc)
    (coords : list nat) (b : Backend) : list (list Qc * list Qc) * Backend :=
  match coords with
  | [] => ([], b)
  | i :: rest =>
      let '(q_plus, b1) :=
        QFunction_calculate_q_value_on_batch c (perturbed states i eps) actions b in
      let '(q_minus, b2) :=
        QFunction_calculate_q_value_on_batch c (perturbed states i (- eps)%Qc)
                                             actions b1 in
      let '(answers, b3) := probe_states c states actions eps rest b2 in
      ((q_plus, q_minus) :: answers, b3)
  end.

(** The calls behind [probe_states], in order. *)
Fixpoint probe_states_calls (states actions : list (list Qc)) (eps : Qc)
    (coords : list nat) (answers : list (list Qc * list Qc)) : list event :=
  match coords, answers with
  | i :: coords', (q_plus, q_minus) :: answers' =>
      call_calculate_q_value_on_batch (perturbed states i eps) actions q_plus
      :: call_calculate_q_value_on_batch (perturbed states i (- eps)%Qc) actions
                                         q_minus
      :: probe_states_calls states actions eps coords' answers'
  | _, _ => []
  end.

(** The four answers of one coordinate of the five-point scheme, in the
    order of the calls: at [+ eps], [+ 2 eps], [- eps], [- 2 eps]. *)
Record stencil : Type := {
  at_plus : list Qc;
  at_plus2 : list Qc;
  at_minus : list Qc;
  at_minus2 : list Qc
}.

Fixpoint probe5 (c : QFunction) (states actions : list (list Qc)) (eps : Qc)
    (coords : list nat) (b : Backend) : list stencil * Backend :=
  match coords with
  | [] => ([], b)
  | i :: rest =>
      let '(q1, b1) :=
        QFunction_calculate_q_value_on_batch c states (perturbed actions i eps) b in
      let '(q2, b2) :=
        QFunction_calculate_q_value_on_batch c states
          (perturbed (perturbed actions i eps) i eps) b1 in
      let '(q3, b3) :=
        QFunction_calculate_q_value_on_batch c states
          (perturbed actions i (- eps)%Qc) b2 in
      let '(q4, b4) :=
        QFunction_calculate_q_value_on_batch c states
          (perturbed (perturbed actions i (- eps)%Qc) i (- eps)%Qc) b3 in
      let '(answers, b5) := probe5 c states actions eps rest b4 in
      ({| at_plus := q1; at_plus2 := q2; at_minus := q3; at_minus2 := q4 |}
         :: answers, b5)
  end.

(** The calls behind [probe5], in order. *)
Fixpoint probe5_calls (states actions : list (list Qc)) (eps : Qc)
    (coords : list nat) (answers : list stencil) : list event :=
  match coords, answers with
  | i :: coords', p :: answers' =>
      [call_calculate_q_value_on_batch states (perturbed actions i eps)
         (at_plus p);
       call_calculate_q_value_on_batch states
         (perturbed (perturbed actions i eps) i eps) (at_plus2 p);
       call_calculate_q_value_on_batch states (perturbed actions i (- eps)%Qc)
         (at_minus p);
       call_calculate_q_value_on_batch states
         (perturbed (perturbed actions i (- eps)%Qc) i (- eps)%Qc) (at_minus2 p)]
      ++ probe5_calls states actions eps coords' answers'
  | _, _ => []
  end.

(** The column the five-point loop writes for one coordinate. *)
Definition five_point_quotient (eps : Qc) (p : stencil) : list Qc :=
  (λ x, x / (Qc_of_Z 12 * eps))%Qc
    <$> zip_with Qcplus
          (zip_with Qcminus
             (zip_with Qcplus (Qcopp <$> at_plus2 p)
                       ((λ x, Qc_of_Z 8 * x)%Qc <$> at_plus p))
             ((λ x, Qc_of_Z 8 * x)%Qc <$> at_minus p))
          (at_minus2 p).

(** [grads] after the columns [coords] were written with [cols]. *)
Fixpoint fill_columns (grads : list (list Qc)) (coords : list nat)
    (cols : list (list Qc)) : list (list Qc) :=
  match coords, cols with
  | i :: coords', v :: cols' => fill_columns (put_column i v grads) coords' cols'
  | _, _ => grads
  end.

(** The target critic has every key of the local one, in [w_hh] and in
    [w_vh]. *)
Definition target_has_local_keys (s : QuantumActorCritic) : Prop :=
  dom (w_hh (critic s)) ⊆ dom (w_hh (critic_target s)) ∧
  dom (w_vh (critic s)) ⊆ dom (w_vh (critic_target s)).

(** The target critic holds the local critic's value at every key of the
    local one, and the target actor the local actor's weights. *)
Definition synchronised (s : QuantumActorCritic) : Prop :=
  (∀ c k x, get_w c (critic s) !! k = Some x →
            get_w c (critic_target s) !! k = Some x) ∧
  weights (actor_target s) = weights (actor s).

(** [w'] is [w] but for the local critic's couplings, the losses, the
    backend and the trace: putting the local critic and the losses of [w]
    back into the trainer of [w'] gives the trainer of [w], attribute by
    attribute; the local critic's discount and numpy's generator are the
    same. *)
Definition same_but_critic (w w' : World) : Prop :=
  with_q_losses (q_losses (self w)) (with_critic (critic (self w)) (self w'))
  = self w ∧
  small_gamma (critic (self w')) = small_gamma (critic (self w)) ∧
  random w' = random w.

(** The visible nodes handed to [update_weights], call by call. *)
Definition visible_nodes_passed (t : list event) : list VisibleNodes :=
  omap (λ e, match e with
             | call_update_weights _ visible _ _ _ _ => Some visible
             | _ => None
             end) t.

(** The visible nodes [calculate_q_value] returned on the critic [who],
    call by call. *)
Definition visible_nodes_returned (who : net) (t : list event)
  : list VisibleNodes :=
  omap (λ e, match e, who with
             | call_calculate_q_value Local _ _ _ _ visible, Local
             | call_calculate_q_value Target _ _ _ _ visible, Target =>
                 Some visible
             | _, _ => None
             end) t.

(** *** The key sets over the trainer's life *)

(** Modelled from the spec: the critic capability of section 4.2, whose code
    ([QFunction], in qbm.py) is not among the sources.  Its weight
    collections are "established once at construction and never resized
    afterward": the keys of a freshly built [QFunction] are fixed by the
    arguments of its constructor, and [update_weights], which mutates the
    two collections in place, leaves the keys of both as they are. *)
Definition keys_never_resized : Prop :=
  (∀ (e : Env) (gamma : Qc) (annealing_steps anneals : nat),
     constructor_fixes_keys e gamma annealing_steps anneals) ∧
  ∀ (c : QFunction) (spins : SpinConfigs) (visible : VisibleNodes)
    (q next_q reward learning_rate : Qc) (b : Backend),
    dom (QFunction_update_weights c spins visible q next_q reward
                                  learning_rate b).1.1
    = dom (w_hh c) ∧
    dom (QFunction_update_weights c spins visible q next_q reward
                                  learning_rate b).1.2
    = dom (w_vh c).

(** The four key sets of a trainer: of [w_hh] and [w_vh] of the local
    critic, and of [w_hh] and [w_vh] of the target critic. *)
Definition key_sets (s : QuantumActorCritic)
  : gset key * gset key * gset key * gset key :=
  (dom (w_hh (critic s)), dom (w_vh (critic s)),
   dom (w_hh (critic_target s)), dom (w_vh (critic_target s))).

(** Whatever way [m] ends, the four key sets are what they were. *)
Definition keeps_keys {A : Type} (m : M A) : Prop :=
  ∀ w r w', m w = (r, w') → key_sets (self w') = key_sets (self w).

(** A call of one of the methods of [QuantumActorCritic], with its
    arguments. *)
Inductive method : Type :=
| m_get_action (states : ndarray) (noise : option Qc) (episode : Z)
| m_get_target_actions (states : list (list Qc))
| m_train_actor (states actions : list (list Qc))
| m_get_state_derivative (states actions : list (list Qc)) (epsilon : Qc)
| m_get_action_derivative (states actions : list (list Qc)) (epsilon : Qc)
| m_get_action_derivative_5point (states actions : list (list Qc))
    (epsilon : Qc)
| m_train_critic (states next_states actions : list (list Qc))
    (rewards dones : list Qc) (random_phase : bool)
| m_soft_update_actor_and_critic
| m_train.

(** The world a call leaves behind, whether it returned or raised. *)
Definition invoke (m : method) (w : World) : World :=
  match m with
  | m_get_action states noise episode => (get_action states noise episode w).2
  | m_get_target_actions states => (get_target_actions states w).2
  | m_train_actor states actions => (train_actor states actions w).2
  | m_get_state_derivative states actions epsilon =>
      (get_state_derivative states actions epsilon w).2
  | m_get_action_derivative states actions epsilon =>
      (get_action_derivative states actions epsilon w).2
  | m_get_action_derivative_5point states actions epsilon =>
      (get_action_derivative_5point states actions epsilon w).2
  | m_train_critic states next_states actions rewards dones random_phase =>
      (train_critic states next_states actions rewards dones random_phase w).2
  | m_soft_update_actor_and_critic => (_soft_update_actor_and_critic w).2
  | m_train => (train w).2
  end.

(** The world after the calls [ms], made one after the other. *)
Definition invoke_all (ms : list method) (w : World) : World :=
  foldl (λ w m, invoke m w) w ms.

End qac.

(** ** A synthetic instance of the collaborators

    The smallest collaborators that exercise every statement below: the
    critic of the spec's gradient check, [Q(s, a) = -|a|^2], with couplings
    it shifts by the TD error; an actor that answers every state with its
    first weight tensor, -1/2 in every coordinate when built; an environment
    that samples its lower bound; a store that hands out one fixed minibatch
    of two transitions.  [Backend] counts the calls. *)

Module Synthetic.

Definition frac (n : Z) (d : positive) : Qc := Q2Qc (n # d).

(** The stored minibatch. *)
Definition batch : list sample :=
  [ {| s_state := [frac 1 2; frac 0 1]; s_action := [frac 1 2; frac (-1) 2];
       s_reward := frac 0 1; s_next_state := [frac 1 4; frac 1 1] |};
    {| s_state := [frac 1 4; frac 1 1]; s_action := [frac 0 1; frac 1 4];
       s_reward := frac 1 1; s_next_state := [frac 0 1; frac 0 1] |} ].

Definition states : list (list Qc) := s_state <$> batch.
Definition actions : list (list Qc) := s_action <$> batch.
Definition rewards : list Qc := s_reward <$> batch.
Definition next_states : list (list Qc) := s_next_state <$> batch.
Definition dones : list Qc := [frac 0 1; frac 1 1].

#[local] Instance opaque : Opaque := {|
  key := nat;
  SpinConfigs := unit;
  VisibleNodes := list Qc;
  Memory := list (list Qc) * list (list Qc) * list Qc
            * list (list Qc) * list Qc;
  Backend := nat
|}.

(** [-|a|^2]. *)
Definition value (action : list Qc) : Qc :=
  (- foldr (λ x acc, x * x + acc) 0 action)%Qc.

Definition shift (delta : Qc) (m : gmap nat Qc) : gmap nat Qc :=
  (λ x, x + delta)%Qc <$> m.

#[local] Instance capabilities : Capabilities := {|
  QFunction_init e gamma annealing_steps anneals b :=
    ({[ 0%nat := Qc_of_Z (Z.of_nat b) ]},
     {[ 0%nat := frac 1 2; 1%nat := Qc_of_Z (Z.of_nat b) ]}, S b);
  QFunction_calculate_q_value who c state action b :=
    (value action, tt, state ++ action, S b);
  QFunction_calculate_q_value_on_batch c states actions b :=
    (imap (λ j _, value (default [] (actions !! j))) states, S b);
  QFunction_update_weights c spins visible q next_q reward learning_rate b :=
    let delta := (learning_rate * (reward + small_gamma c * next_q - q))%Qc in
    (shift delta (w_hh c), shift delta (w_vh c), S b);
  Model_init dims n learning_rate b :=
    ({| weights := [replicate n (frac (-1) 2)] |}, S b);
  Model_forward m states := (λ _, default [] (weights m !! 0%nat)) <$> states;
  Model_apply_gradients m x q dq_over_dstate dq_over_daction b :=
    ({| weights := (λ t : list Qc, (λ y, y + frac 1 100)%Qc <$> t) <$> weights m |},
     S b);
  action_space_sample e b := (action_space_low e, S b);
  Memory_init d0 n buffer_size b :=
    ((states, actions, rewards, next_states, dones), b);
  Memory_get_sample mem n b := (Ok mem, mem, S b)
|}.

(** Two action coordinates bounded by [-1, 1], two state coordinates. *)
Definition symmetric_env : Env :=
  {| action_space_low := [frac (-1) 1; frac (-1) 1];
     action_space_high := [frac 1 1; frac 1 1];
     action_space_shape := [2%nat];
     observation_space_shape := [2%nat] |}.

(** One action coordinate bounded by [0, 1]. *)
Definition one_sided_env : Env :=
  {| action_space_low := [frac 0 1];
     action_space_high := [frac 1 1];
     action_space_shape := [1%nat];
     observation_space_shape := [1%nat] |}.

(** The generator that draws 1/10 for every normal and counts up the
    integers. *)
Definition generator : np.RandomState :=
  {| np.ints := λ i, i; np.normals := λ _, frac 1 10 |}.

(** Three transitions pushed into a [ReplayBuffer] of capacity 2, tagged 1,
    2, 3 in their observation. *)
Definition pushes : list (@ReplayBuffer.transition (list Qc) (list Qc)) :=
  [ {| ReplayBuffer.obs := [frac 1 1]; ReplayBuffer.act := [frac 0 1];
       ReplayBuffer.rew := frac 0 1; ReplayBuffer.next_obs := [frac 2 1];
       ReplayBuffer.done := false |};
    {| ReplayBuffer.obs := [frac 2 1]; ReplayBuffer.act := [frac 1 2];
       ReplayBuffer.rew := frac 1 1; ReplayBuffer.next_obs := [frac 3 1];
       ReplayBuffer.done := false |};
    {| ReplayBuffer.obs := [frac 3 1]; ReplayBuffer.act := [frac (-1) 2];
       ReplayBuffer.rew := frac 0 1; ReplayBuffer.next_obs := [frac 4 1];
       ReplayBuffer.done := true |} ].

(** [QuantumActorCritic(env, gamma_rl=0.9, batch_size=2, tau_soft_update=tau)]
    with the other arguments at their defaults, on a fresh backend. *)
Definition build (e : Env) (tau : Qc) : result World :=
  __init__ e (frac 9 10) 2 (frac 3 20) tau (frac 1 1000) (frac 3 1000)
           100 30 generator 0%nat.

(** The world that stands for a construction that raised. *)
Definition unbuilt : World :=
  {| self :=
       {| env := symmetric_env; action_n := 0; state_dim := [];
          action_limit := 0%Qc; gamma_rl := 0%Qc; tau_soft_update := 0%Qc;
          replay_buffer_size := 0%N; replay_batch_size := 0;
          action_noise_scale := 0%Qc;
          n_annealing_steps := 0; n_anneals_for_average := 0;
          critic_learning_rate := 0%Qc; actor_initial_learning_rate := 0%Qc;
          critic := {| w_hh := ∅; w_vh := ∅; small_gamma := 0%Qc |};
          critic_target := {| w_hh := ∅; w_vh := ∅; small_gamma := 0%Qc |};
          actor := {| weights := [] |}; actor_target := {| weights := [] |};
          replay_memory := ([], [], [], [], []); q_losses := [] |};
     random := generator; backend := 0%nat; trace := [] |}.

Definition built (r : result World) : World :=
  match r with Ok w => w | Raise _ => unbuilt end.

(** The trainer on the symmetric environment, as built and after one call
    of [train]; the trainer on the one-sided environment. *)
Definition world : World := built (build symmetric_env (frac 1 10)).
Definition trained_world : World := (train world).2.
Definition one_sided_world : World := built (build one_sided_env (frac 1 10)).

(** A minibatch whose rewards end after the first sample, and the trainer
    whose store hands out that minibatch. *)
Definition short_batch : list sample := take 1 batch.

Definition short_rewards : list Qc := s_reward <$> short_batch.

Definition short_world : World :=
  set_self (with_replay_memory
              (states, actions, short_rewards, next_states, dones)) world.

(** That trainer after it drew its minibatch, and after [train_critic]
    failed on it. *)
Definition short_sampled_world : World :=
  (get_sample (replay_batch_size (self short_world)) short_world).2.

Definition short_failed_world : World :=
  (train_critic states next_states actions short_rewards dones false
                short_sampled_world).2.

(** A life of the trainer: a training call, a critic stage that fails on
    the short rewards, an action with noise, another training call. *)
Definition calls : list method :=
  [ m_train;
    m_train_critic states next_states actions short_rewards dones false;
    m_get_action (array2 states) None 2;
    m_train ].

End Synthetic.

(** * Part II: properties *)

(** ** The replay buffer *)

Section replay_buffer_facts.
Context {Obs Act : Type}.
Variable zero_obs : Obs.
Variable zero_act : Act.
Abbreviation buffer := (@ReplayBuffer.t Obs Act).
Abbreviation transition := (@ReplayBuffer.transition Obs Act).
Abbreviation ring_holds := ReplayBuffer.ring_holds.
Abbreviation pushed := ReplayBuffer.pushed.

Lemma setitem_in_range {A : Type} (a : list A) (i : nat) (x : A) :
  (i < length a)%nat → np.setitem a i x = Ok (<[i := x]> a).
Proof. intros Hi. unfold np.setitem. by rewrite decide_True. Qed.

Lemma take_idxs_in_range {A : Type} (a : list A) (idxs : list nat) :
  Forall (λ i, i < length a)%nat idxs →
  ∃ xs, np.take_idxs a idxs = Ok xs ∧ length xs = length idxs ∧
        ∀ j i, idxs !! j = Some i → xs !! j = a !! i.
Proof.
  induction 1 as [|i rest Hi _ (xs & Hxs & Hlen & Hlook)]; simpl.
  - exists []. split_and!; [done..|]. intros j i Hj. by rewrite lookup_nil in Hj.
  - destruct (lookup_lt_is_Some_2 a i Hi) as [x Hx].
    unfold np.getitem. rewrite Hx, Hxs. simpl.
    exists (x :: xs). split_and!; [done|simpl; lia|].
    intros [|j] i' Hj; simpl in *; [congruence|eauto].
Qed.

(** Two positions less than [C] apart fall into different slots. *)
Lemma slots_differ (C k n : nat) :
  (k < n)%nat → (n < k + C)%nat → (k `mod` C ≠ n `mod` C)%nat.
Proof.
  intros Hkn HnC Heq.
  assert (HC : (C ≠ 0)%nat) by lia.
  pose proof (Nat.div_mod_eq k C) as Hk.
  pose proof (Nat.div_mod_eq n C) as Hn.
  rewrite Heq in Hk.
  assert (Hd : (n - k = C * (n `div` C - k `div` C))%nat) by nia.
  destruct (decide (n `div` C - k `div` C = 0)%nat) as [Hz|Hz]; nia.
Qed.

(** Each slot is the residue of one of any [C] consecutive positions. *)
Lemma slot_has_recent_position (C n i : nat) :
  (i < C)%nat → (C ≤ n)%nat →
  ∃ k, (n - C ≤ k)%nat ∧ (k < n)%nat ∧ (k `mod` C = i)%nat.
Proof.
  intros Hi Hn.
  set (k0 := (n - C)%nat).
  pose proof (Nat.div_mod_eq k0 C) as Hk0.
  assert (Hr : (k0 `mod` C < C)%nat) by (apply Nat.mod_upper_bound; lia).
  destruct (decide (k0 `mod` C ≤ i)%nat) as [Hle|Hgt].
  - exists (i + (k0 `div` C) * C)%nat. split_and!; [nia|nia|].
    rewrite Nat.Div0.mod_add. by apply Nat.mod_small.
  - exists (i + (S (k0 `div` C)) * C)%nat. split_and!; [nia|nia|].
    rewrite Nat.Div0.mod_add. by apply Nat.mod_small.
Qed.

Lemma ring_holds_init {A : Type} (f : transition → A) (C : nat) (z : A) :
  ring_holds f C (replicate C z) [].
Proof.
  split; [apply length_replicate|]. intros k x Hk. by rewrite lookup_nil in Hk.
Qed.

Lemma ring_holds_push {A : Type} (f : transition → A) (C : nat)
    (buf : list A) (ts : list transition) (x : transition) :
  (0 < C)%nat → ring_holds f C buf ts →
  ring_holds f C (<[(length ts `mod` C)%nat := f x]> buf) (ts ++ [x]).
Proof.
  intros HC [Hlen Hold]. split; [by rewrite length_insert|].
  intros k y Hk Hwin. rewrite length_app in Hwin. simpl in Hwin.
  assert (Hslot : (length ts `mod` C < length buf)%nat)
    by (rewrite Hlen; apply Nat.mod_upper_bound; lia).
  destruct (decide (k = length ts)) as [->|Hne].
  - rewrite list_lookup_middle in Hk by done. injection Hk as <-.
    by apply list_lookup_insert_eq.
  - assert (Hlt : (k < length ts)%nat).
    { apply lookup_lt_Some in Hk. rewrite length_app in Hk. simpl in Hk. lia. }
    rewrite lookup_app_l in Hk by done.
    rewrite list_lookup_insert_ne.
    + apply Hold; [done|lia].
    + intros Heq. apply (slots_differ C k (length ts)); [lia|lia|done].
Qed.

Lemma pushed_init (C : nat) :
  (0 < C)%nat → pushed C [] (ReplayBuffer.init zero_obs zero_act C).
Proof.
  intros HC. split; simpl; try apply ring_holds_init; try done.
  - by rewrite Nat.Div0.mod_0_l.
Qed.

Lemma pushed_push (C : nat) (ts : list transition) (b : buffer) (x : transition) :
  (0 < C)%nat → pushed C ts b →
  ∃ b', ReplayBuffer.push b x = Ok b' ∧ pushed C (ts ++ [x]) b'.
Proof.
  intros HC [H1 H2 H3 H4 H5 Hp Hs Hm].
  assert (Hlt : (length ts `mod` C < C)%nat) by (apply Nat.mod_upper_bound; lia).
  unfold ReplayBuffer.push. rewrite Hp, Hm.
  rewrite !setitem_in_range
    by (first [rewrite (proj1 H1)|rewrite (proj1 H2)|rewrite (proj1 H3)
              |rewrite (proj1 H4)|rewrite (proj1 H5)]; done).
  simpl. unfold ReplayBuffer.py_mod. rewrite decide_False by lia. simpl.
  eexists. split; [done|].
  split; simpl; try by apply ring_holds_push.
  - by apply (ring_holds_push
                (λ y, ReplayBuffer.float_of_bool (ReplayBuffer.done y))).
  - rewrite length_app. simpl. by rewrite Nat.Div0.add_mod_idemp_l.
  - rewrite length_app, Hs. simpl. lia.
  - done.
Qed.

Lemma push_all_snoc (b : buffer) (ts : list transition) (x : transition) :
  ReplayBuffer.push_all b (ts ++ [x]) =
  b' ← ReplayBuffer.push_all b ts; ReplayBuffer.push b' x.
Proof. unfold ReplayBuffer.push_all. by rewrite foldl_app. Qed.

Lemma push_all_pushed (C : nat) (ts : list transition) :
  (0 < C)%nat →
  ∃ b, ReplayBuffer.push_all (ReplayBuffer.init zero_obs zero_act C) ts = Ok b
       ∧ pushed C ts b.
Proof.
  intros HC. induction ts as [|x ts (b & Hb & Hinv)] using rev_ind.
  - eexists. split; [done|]. by apply pushed_init.
  - destruct (pushed_push C ts b x HC Hinv) as (b' & Hb' & Hinv').
    exists b'. split; [|done]. by rewrite push_all_snoc, Hb.
Qed.

Lemma randint_in_range (low high n : nat) (g : np.RandomState) :
  (low < high)%nat →
  ∃ idxs g', np.randint low high n g = (Ok idxs, g') ∧ length idxs = n ∧
             Forall (λ i, low ≤ i < high)%nat idxs.
Proof.
  intros Hlh. unfold np.randint. destruct (decide (n = 0)) as [->|Hn].
  - exists [], g. by split_and!.
  - rewrite decide_True by done. do 2 eexists. split_and!; [done|..].
    + by rewrite length_fmap, length_seq.
    + apply Forall_fmap, Forall_forall. intros i _. simpl.
      pose proof (Nat.mod_upper_bound (np.ints g i) (high - low)). lia.
Qed.

(** One array of the buffer, read at a drawn index, gives the field of one
    of the last [C] pushes; the position of that push depends on the index
    only. *)
Lemma ring_holds_recent {A : Type} (f : transition → A) (C : nat)
    (buf : list A) (ts : list transition) (k : nat) (x : transition) :
  ring_holds f C buf ts → ts !! k = Some x → (length ts ≤ k + C)%nat →
  buf !! (k `mod` C)%nat = Some (f x).
Proof. intros [_ H]. apply H. Qed.

(** C7. For a buffer of capacity [C >= 1], a run of [N > C] pushes never
    raises and leaves [size = C] and [ptr = N mod C] (after every prefix of
    the run [size <= C] and [ptr] is the number of pushes modulo [C]); every
    [sample] then succeeds, and row [j] of the five arrays it returns is,
    field by field, one and the same transition among the last [C] pushed. *)
Theorem sample_returns_recent_pushes (C : nat) (ts : list transition) :
  (0 < C)%nat → (C < length ts)%nat →
  ∃ b : buffer,
    ReplayBuffer.push_all (ReplayBuffer.init zero_obs zero_act C) ts = Ok b ∧
    ReplayBuffer.size b = C ∧
    ReplayBuffer.ptr b = (length ts `mod` C)%nat ∧
    (∀ m, ∃ bm : buffer,
        ReplayBuffer.push_all (ReplayBuffer.init zero_obs zero_act C)
                              (take m ts) = Ok bm ∧
        (0 ≤ ReplayBuffer.size bm ≤ C)%nat ∧
        ReplayBuffer.ptr bm = (length (take m ts) `mod` C)%nat) ∧
    ∀ (n : nat) (g : np.RandomState),
    ∃ s a r s2 d,
      (ReplayBuffer.sample b n g).1 = Ok (s, a, r, s2, d) ∧
      length s = n ∧
      ∀ j, (j < n)%nat →
        ∃ x, x ∈ drop (length ts - C) ts ∧
             s !! j = Some (ReplayBuffer.obs x) ∧
             a !! j = Some (ReplayBuffer.act x) ∧
             r !! j = Some [ReplayBuffer.rew x] ∧
             s2 !! j = Some (ReplayBuffer.next_obs x) ∧
             d !! j = Some (ReplayBuffer.float_of_bool (ReplayBuffer.done x)).
Proof.
  intros HC HN.
  destruct (push_all_pushed C ts HC) as (b & Hb & [H1 H2 H3 H4 H5 Hp Hs Hm]).
  assert (Hsize : ReplayBuffer.size b = C) by lia.
  exists b. split_and!; [done..| |].
  { intros m. destruct (push_all_pushed C (take m ts) HC) as (bm & Hbm & Hinv).
    exists bm. split_and!; [done|lia| |].
    - rewrite (ReplayBuffer.pushed_size _ _ _ Hinv). lia.
    - apply (ReplayBuffer.pushed_ptr _ _ _ Hinv). }
  intros n g. unfold ReplayBuffer.sample. rewrite Hsize.
  destruct (randint_in_range 0 C n g HC) as (idxs & g' & -> & Hlen & Hidx).
  assert (Hin : ∀ {A : Type} (buf : list A), length buf = C →
                 Forall (λ i, i < length buf)%nat idxs).
  { intros A buf ->. eapply Forall_impl; [exact Hidx|]. simpl. lia. }
  destruct (take_idxs_in_range _ idxs (Hin _ _ (proj1 H1))) as (s & -> & Hls & Hs1).
  destruct (take_idxs_in_range _ idxs (Hin _ _ (proj1 H2))) as (s2 & -> & _ & Hs2).
  destruct (take_idxs_in_range _ idxs (Hin _ _ (proj1 H3))) as (a & -> & _ & Ha).
  destruct (take_idxs_in_range _ idxs (Hin _ _ (proj1 H4))) as (r & -> & _ & Hr).
  destruct (take_idxs_in_range _ idxs (Hin _ _ (proj1 H5))) as (d & -> & _ & Hd).
  simpl. exists s, a, (np.reshape_column r), s2, d.
  split_and!; [done|lia|].
  intros j Hj.
  destruct (lookup_lt_is_Some_2 idxs j) as [i Hi]; [lia|].
  assert (HiC : (i < C)%nat).
  { apply (Forall_lookup_1 _ _ _ _ Hidx) in Hi. lia. }
  destruct (slot_has_recent_position C (length ts) i HiC) as (k & Hk1 & Hk2 & Hk3);
    [lia|].
  destruct (lookup_lt_is_Some_2 ts k Hk2) as [x Hx].
  assert (Hwin : (length ts ≤ k + C)%nat) by lia.
  exists x. split_and!.
  - apply list_elem_of_lookup. exists (k - (length ts - C))%nat.
    rewrite lookup_drop, <- Hx. f_equal. lia.
  - rewrite (Hs1 _ _ Hi), <- Hk3. by eapply ring_holds_recent.
  - rewrite (Ha _ _ Hi), <- Hk3. by eapply ring_holds_recent.
  - unfold np.reshape_column. rewrite list_lookup_fmap, (Hr _ _ Hi), <- Hk3.
    by rewrite (ring_holds_recent _ _ _ _ _ _ H4 Hx Hwin).
  - rewrite (Hs2 _ _ Hi), <- Hk3. by eapply ring_holds_recent.
  - rewrite (Hd _ _ Hi), <- Hk3.
    by apply (ring_holds_recent
                (λ y, ReplayBuffer.float_of_bool (ReplayBuffer.done y)) C _ ts k).
Qed.

(** C8. On a buffer whose [size] is 0, [sample(batch_size)] with
    [batch_size >= 1] raises ValueError (from [np.random.randint(0, 0, ...)])
    and returns no data; the generator is left as it was. *)
Theorem sample_empty_raises (b : buffer) (batch_size : nat) (g : np.RandomState) :
  ReplayBuffer.size b = 0%nat → (1 ≤ batch_size)%nat →
  ReplayBuffer.sample b batch_size g = (Raise ValueError, g).
Proof.
  intros Hsize Hn. unfold ReplayBuffer.sample, np.randint. rewrite Hsize.
  rewrite decide_False by lia. by rewrite decide_False by lia.
Qed.

(** *** Before the buffer is full, and the buffer without slots *)

Lemma randint_values (high n : nat) (g : np.RandomState) :
  (0 < high)%nat →
  ∃ g', np.randint 0 high n g
        = (Ok ((λ i, np.ints g i `mod` high)%nat <$> seq 0 n), g') ∧
        ∀ i, np.ints g' i = np.ints g (n + i)%nat.
Proof.
  intros Hh. unfold np.randint. destruct (decide (n = 0)) as [->|Hn].
  - by exists g.
  - rewrite decide_True by done. exists (np.skip_ints n g). split; [|done].
    f_equal. f_equal. apply list_fmap_ext. intros _ i _. simpl.
    by rewrite Nat.sub_0_r.
Qed.

Lemma push_all_raise (e : exn) (ts : list transition) :
  foldl (λ (r : result buffer) x, b' ← r; ReplayBuffer.push b' x) (Raise e) ts
  = Raise e.
Proof. induction ts as [|x ts IH]; simpl; [done|exact IH]. Qed.

(** X1. While no more transitions were pushed than the buffer has slots
    ([1 <= N <= C]), [size] is the number of pushes and [sample] draws from
    the pushed transitions only, never from a slot still holding zeros: row
    [j] of the five arrays is, field by field, the push at position
    [draw_j mod N], where [draw_j] is the [j]-th integer of the generator,
    which is left advanced by [batch_size] integers. *)
Theorem sample_before_full_returns_pushes (C : nat) (ts : list transition) :
  (0 < length ts)%nat → (length ts ≤ C)%nat →
  ∃ b : buffer,
    ReplayBuffer.push_all (ReplayBuffer.init zero_obs zero_act C) ts = Ok b ∧
    ReplayBuffer.size b = length ts ∧
    ∀ (n : nat) (g : np.RandomState),
    ∃ s a r s2 d g',
      ReplayBuffer.sample b n g = (Ok (s, a, r, s2, d), g') ∧
      (∀ i, np.ints g' i = np.ints g (n + i)%nat) ∧
      length s = n ∧ length a = n ∧ length r = n ∧ length s2 = n ∧
      length d = n ∧
      ∀ j, (j < n)%nat →
        ∃ x, ts !! (np.ints g j `mod` length ts)%nat = Some x ∧
             s !! j = Some (ReplayBuffer.obs x) ∧
             a !! j = Some (ReplayBuffer.act x) ∧
             r !! j = Some [ReplayBuffer.rew x] ∧
             s2 !! j = Some (ReplayBuffer.next_obs x) ∧
             d !! j = Some (ReplayBuffer.float_of_bool (ReplayBuffer.done x)).
Proof.
  intros HN HC.
  assert (HC0 : (0 < C)%nat) by lia.
  destruct (push_all_pushed C ts HC0) as (b & Hb & [H1 H2 H3 H4 H5 Hp Hs Hm]).
  assert (Hsize : ReplayBuffer.size b = length ts) by lia.
  exists b. split_and!; [done..|].
  intros n g. unfold ReplayBuffer.sample. rewrite Hsize.
  destruct (randint_values (length ts) n g HN) as (g' & -> & Hg').
  set (idxs := (λ i, np.ints g i `mod` length ts)%nat <$> seq 0 n).
  assert (Hidx : Forall (λ i, i < length ts)%nat idxs).
  { apply Forall_fmap, Forall_forall. intros i _. simpl.
    apply Nat.mod_upper_bound. lia. }
  assert (Hlen : length idxs = n) by (unfold idxs; by rewrite length_fmap, length_seq).
  assert (Hin : ∀ {A : Type} (buf : list A), length buf = C →
                 Forall (λ i, i < length buf)%nat idxs).
  { intros A buf ->. eapply Forall_impl; [exact Hidx|]. simpl. lia. }
  destruct (take_idxs_in_range _ idxs (Hin _ _ (proj1 H1))) as (s & -> & Hls & Hs1).
  destruct (take_idxs_in_range _ idxs (Hin _ _ (proj1 H2))) as (s2 & -> & Hls2 & Hs2).
  destruct (take_idxs_in_range _ idxs (Hin _ _ (proj1 H3))) as (a & -> & Hla & Ha).
  destruct (take_idxs_in_range _ idxs (Hin _ _ (proj1 H4))) as (r & -> & Hlr & Hr).
  destruct (take_idxs_in_range _ idxs (Hin _ _ (proj1 H5))) as (d & -> & Hld & Hd).
  simpl. exists s, a, (np.reshape_column r), s2, d, g'.
  split_and!; [done|done|lia|lia| |lia|lia|].
  { unfold np.reshape_column. rewrite length_fmap. lia. }
  intros j Hj.
  set (i := (np.ints g j `mod` length ts)%nat).
  assert (Hi : idxs !! j = Some i).
  { unfold idxs. rewrite list_lookup_fmap, lookup_seq_lt by done. done. }
  assert (Hit : (i < length ts)%nat) by (apply Nat.mod_upper_bound; lia).
  destruct (lookup_lt_is_Some_2 ts i Hit) as [x Hx].
  assert (Hwin : (length ts ≤ i + C)%nat) by lia.
  assert (Hslot : (i `mod` C = i)%nat) by (apply Nat.mod_small; lia).
  exists x. split_and!.
  - done.
  - rewrite (Hs1 _ _ Hi), <- Hslot. by eapply ring_holds_recent.
  - rewrite (Ha _ _ Hi), <- Hslot. by eapply ring_holds_recent.
  - unfold np.reshape_column. rewrite list_lookup_fmap, (Hr _ _ Hi), <- Hslot.
    by rewrite (ring_holds_recent _ _ _ _ _ _ H4 Hx Hwin).
  - rewrite (Hs2 _ _ Hi), <- Hslot. by eapply ring_holds_recent.
  - rewrite (Hd _ _ Hi), <- Hslot.
    by apply (ring_holds_recent
                (λ y, ReplayBuffer.float_of_bool (ReplayBuffer.done y)) C _ ts i).
Qed.

(** X2. For transitions whose observations and actions are rows as the
    buffer's arrays hold them, with scalar reward and flag: a run of pushes
    into a fresh buffer raises exactly when the buffer was built with
    [size = 0] and there is a push at all, and the exception is then the
    IndexError of the first array write ([obs1_buf[0] = obs]), not the
    ZeroDivisionError of [% self.max_size], which is never reached. *)
Theorem push_all_raises_iff_zero_capacity (C : nat) (ts : list transition) :
  match ReplayBuffer.push_all (ReplayBuffer.init zero_obs zero_act C) ts with
  | Ok b => (0 < C)%nat ∨ ts = []
  | Raise e => C = 0%nat ∧ ts ≠ [] ∧ e = IndexError
  end.
Proof.
  destruct (decide (C = 0)%nat) as [->|HC].
  - destruct ts as [|x ts]; [by right|].
    assert (Hr : ReplayBuffer.push_all (ReplayBuffer.init zero_obs zero_act 0)
                                       (x :: ts) = Raise IndexError).
    { unfold ReplayBuffer.push_all. cbn [foldl]. apply push_all_raise. }
    by rewrite Hr.
  - destruct (push_all_pushed C ts) as (b & -> & _); [lia|]. left. lia.
Qed.

End replay_buffer_facts.

(** ** The generators of the classical networks *)

Lemma dense_layers_foldl (act : keras.activation) (l : list nat)
    (x : keras.tensor) :
  dense_layers (foldl (λ x j, keras.Dense j act x) x l)
  = dense_layers x ++ ((λ j, (j, act)) <$> l).
Proof.
  revert x. induction l as [|j l IH]; intros x; simpl.
  - by rewrite app_nil_r.
  - rewrite IH. simpl. by rewrite <- (assoc_L (++)).
Qed.

Lemma fed_by_foldl (act : keras.activation) (l : list nat) (x : keras.tensor) :
  fed_by (foldl (λ x j, keras.Dense j act x) x l) = fed_by x.
Proof.
  revert x. induction l as [|j l IH]; intros x; simpl; [done|]. by rewrite IH.
Qed.

Lemma all_but_last_snoc {A : Type} (l : list A) (x : A) :
  all_but_last (l ++ [x]) = l.
Proof.
  unfold all_but_last. rewrite length_app. simpl.
  replace (length l + 1 - 1)%nat with (length l) by lia.
  by rewrite take_app_length.
Qed.

(** X3. [generate_classical_critic] raises exactly on an empty
    [hidden_layers], with the IndexError of [hidden_layers[-1]].  Otherwise
    the model takes the state and the action as its two inputs, feeds their
    concatenation into as many Dense layers as [hidden_layers] has entries,
    of exactly these widths in this order, all of them relu but the last,
    which is linear: the last entry of [hidden_layers] is the width of the
    output. *)
Theorem generate_classical_critic_layers (n_dims_state_space
    n_dims_action_space : nat) (hidden_layers : list nat) :
  match generate_classical_critic n_dims_state_space n_dims_action_space
                                  hidden_layers with
  | Ok m =>
      hidden_layers ≠ [] ∧
      keras.inputs m = [keras.Input n_dims_state_space;
                        keras.Input n_dims_action_space] ∧
      fed_by (keras.outputs m)
      = keras.concatenate [keras.Input n_dims_state_space;
                           keras.Input n_dims_action_space] ∧
      (dense_layers (keras.outputs m)).*1 = hidden_layers ∧
      (dense_layers (keras.outputs m)).*2
      = replicate (length hidden_layers - 1) keras.relu ++ [keras.linear]
  | Raise e => hidden_layers = [] ∧ e = IndexError
  end.
Proof.
  unfold generate_classical_critic, last_item.
  destruct (last hidden_layers) as [units|] eqn:Hlast; simpl.
  - apply last_Some in Hlast as [l ->]. rewrite all_but_last_snoc.
    split_and!.
    + by destruct l.
    + done.
    + by rewrite fed_by_foldl.
    + rewrite dense_layers_foldl. simpl. rewrite fmap_app. simpl.
      by rewrite <- list_fmap_compose, list_fmap_id.
    + rewrite dense_layers_foldl. simpl. rewrite fmap_app. simpl.
      rewrite <- list_fmap_compose, length_app. simpl.
      replace (length l + 1 - 1)%nat with (length l) by lia.
      f_equal. by apply const_fmap.
  - apply last_None in Hlast. by subst.
Qed.

(** X4. [generate_classical_actor] never raises, whatever [hidden_layers]
    is: the model takes the state as its one input and feeds it into one
    relu Dense layer per entry of [hidden_layers], of these widths in this
    order, and then into one more Dense layer, tanh, of width
    [n_dims_action_space].  With an empty [hidden_layers] the actor is that
    one tanh layer. *)
Theorem generate_classical_actor_layers (n_dims_state_space
    n_dims_action_space : nat) (hidden_layers : list nat) :
  keras.inputs (generate_classical_actor n_dims_state_space
                  n_dims_action_space hidden_layers)
  = [keras.Input n_dims_state_space] ∧
  fed_by (keras.outputs (generate_classical_actor n_dims_state_space
                           n_dims_action_space hidden_layers))
  = keras.Input n_dims_state_space ∧
  (dense_layers (keras.outputs (generate_classical_actor n_dims_state_space
                                  n_dims_action_space hidden_layers))).*1
  = hidden_layers ++ [n_dims_action_space] ∧
  (dense_layers (keras.outputs (generate_classical_actor n_dims_state_space
                                  n_dims_action_space hidden_layers))).*2
  = replicate (length hidden_layers) keras.relu ++ [keras.tanh].
Proof.
  unfold generate_classical_actor. simpl. split_and!.
  - done.
  - by rewrite fed_by_foldl.
  - rewrite dense_layers_foldl. simpl. rewrite fmap_app. simpl.
    by rewrite <- list_fmap_compose, list_fmap_id.
  - rewrite dense_layers_foldl. simpl. rewrite fmap_app. simpl.
    rewrite <- list_fmap_compose. f_equal. by apply const_fmap.
Qed.

(** ** The trainer *)

Section qac_facts.
Context `{Capabilities}.

(** Unfolds one layer of the world monad. *)
Ltac run :=
  unfold mbind, M_mbind, M_bind, mret, M_mret, M_ret, lift, get_self,
    update_self, emit; simpl.

Lemma bind_run {A B : Type} (m : M A) (f : A → M B) (w : World) :
  (@mbind M _ A B f m) w
  = match m w with
    | (Ok a, w') => f a w'
    | (Raise e, w') => (Raise e, w')
    end.
Proof. reflexivity. Qed.

(** *** Clipping *)

Lemma maximum_ge_l (a b : Qc) : (a ≤ np.maximum a b)%Qc.
Proof.
  unfold np.maximum. case_decide; [by apply Qclt_le_weak|apply Qcle_refl].
Qed.

Lemma maximum_ge_r (a b : Qc) : (b ≤ np.maximum a b)%Qc.
Proof.
  unfold np.maximum. case_decide; [apply Qcle_refl|by apply Qcnot_lt_le].
Qed.

Lemma minimum_le_l (a b : Qc) : (np.minimum a b ≤ a)%Qc.
Proof.
  unfold np.minimum. case_decide; [by apply Qclt_le_weak|apply Qcle_refl].
Qed.

Lemma clip1_bounds (x lo hi : Qc) :
  (lo ≤ hi)%Qc → (lo ≤ np.clip1 x lo hi)%Qc ∧ (np.clip1 x lo hi ≤ hi)%Qc.
Proof.
  intros Hlh. unfold np.clip1. split; [|apply minimum_le_l].
  unfold np.minimum. case_decide; [apply maximum_ge_r|done].
Qed.

Lemma clip_within (a : list (list Qc)) (lo hi : Qc) :
  (lo ≤ hi)%Qc → within lo hi (np.clip a lo hi).
Proof.
  intros Hlh row x Hrow Hx. unfold np.clip in Hrow.
  apply list_elem_of_fmap in Hrow as (row0 & -> & _).
  apply list_elem_of_fmap in Hx as (x0 & -> & _).
  by apply clip1_bounds.
Qed.

Lemma foldl_maximum_ge (x : Qc) (rest : list Qc) :
  (x ≤ foldl np.maximum x rest)%Qc.
Proof.
  revert x. induction rest as [|y rest IH]; intros x; simpl; [apply Qcle_refl|].
  eapply Qcle_trans; [apply (maximum_ge_l x y)|apply IH].
Qed.

Lemma py_max_abs_nonneg (xs : list Qc) (m : Qc) :
  np.py_max (Qcabs <$> xs) = Ok m → (0 ≤ m)%Qc.
Proof.
  destruct xs as [|x xs]; simpl; [done|]. intros [= <-].
  eapply Qcle_trans; [apply (Qcabs_nonneg x)|apply foldl_maximum_ge].
Qed.

Lemma compute_action_limit_nonneg (e : Env) (limit : Qc) :
  compute_action_limit e = Ok limit → (0 ≤ limit)%Qc.
Proof.
  unfold compute_action_limit.
  destruct (np.py_max (Qcabs <$> action_space_high e)) as [hi|] eqn:Hhi; [|done].
  destruct (np.py_max (Qcabs <$> action_space_low e)) as [lo|] eqn:Hlo; [|done].
  simpl. intros [= <-].
  eapply Qcle_trans; [apply (py_max_abs_nonneg _ _ Hhi)|apply maximum_ge_l].
Qed.

Lemma maximum_idemp (a : Qc) : np.maximum a a = a.
Proof. unfold np.maximum. by case_decide. Qed.

Lemma py_max_replicate (n : nat) (a : Qc) :
  (0 < n)%nat → np.py_max (replicate n a) = Ok a.
Proof.
  destruct n as [|n]; [lia|]. intros _. simpl. f_equal.
  induction n as [|n IH]; simpl; [done|]. by rewrite maximum_idemp.
Qed.

(** For bounds [-B, B] in every coordinate, [__init__] computes
    [action_limit = B]. *)
Lemma compute_action_limit_symmetric (e : Env) (n : nat) (B : Qc) :
  (0 < n)%nat → (0 ≤ B)%Qc →
  action_space_low e = replicate n (- B)%Qc →
  action_space_high e = replicate n B →
  compute_action_limit e = Ok B.
Proof.
  intros Hn HB Hlow Hhigh. unfold compute_action_limit.
  rewrite Hlow, Hhigh, !fmap_replicate.
  rewrite Qcabs_opp, (Qcabs_pos B HB), !py_max_replicate by done.
  simpl. by rewrite maximum_idemp.
Qed.

(** *** [get_action] *)

(** C10. With [noise = 0], [get_action] returns exactly what the local
    actor predicts for the states (a 1-D array promoted to one row): no
    draw is taken from the generator, nothing is added and nothing is
    clipped, whatever the prediction is; its only call is that one
    [predict_on_batch]. *)
Theorem get_action_noise_zero (states : ndarray) (episode : Z) (w : World) :
  get_action states (Some 0%Qc) episode w =
  (Ok (Model_forward (actor (self w)) (promoted states)),
   log (call_predict_on_batch Local (promoted states)) w).
Proof.
  unfold get_action. run.
  destruct (decide (0%Qc ≠ 0%Qc)) as [Hne|_]; [by destruct Hne|].
  by destruct states.
Qed.

(** What [get_action] does with a non-zero noise, step by step. *)
Lemma get_action_noisy (states : ndarray) (noise : option Qc) (episode : Z)
    (w w' : World) (action : list (list Qc)) :
  default (action_noise_scale (self w)) noise ≠ 0%Qc →
  get_action states noise episode w = (Ok action, w') →
  ∃ scale noisy,
    np.truediv (default (action_noise_scale (self w)) noise)
               (Qc_of_Z episode) = Ok scale ∧
    np.iadd_rows (Model_forward (actor (self w)) (promoted states))
                 ((λ x, scale * x)%Qc
                    <$> (np.randn (action_n (self w)) (random w)).1)
      = Ok noisy ∧
    action = np.clip noisy (- action_limit (self w))%Qc (action_limit (self w)).
Proof.
  intros Hnoise. unfold get_action. run.
  rewrite decide_True by done.
  fold (promoted states).
  destruct (np.truediv _ _) as [scale|] eqn:Hscale; simpl; [|done].
  unfold randn. simpl.
  destruct (np.iadd_rows _ _) as [noisy|] eqn:Hnoisy; simpl; [|done].
  intros [= <- <-]. by exists scale, noisy.
Qed.

(** C4, as the code has it. With a non-zero noise, every entry of the
    action [get_action] returns lies in [[-action_limit, action_limit]],
    where [action_limit] is the [max(max|high|, max|low|)] that [__init__]
    computes from the declared bounds; the returned action is the clip of
    the prediction plus [noise / episode] times one [randn(action_n)] draw.
    When the declared bounds are [-B] and [B] in every coordinate, this
    interval is the declared one. *)
Theorem get_action_within_action_limit (states : ndarray) (noise : option Qc)
    (episode : Z) (w w' : World) (action : list (list Qc)) :
  default (action_noise_scale (self w)) noise ≠ 0%Qc →
  compute_action_limit (env (self w)) = Ok (action_limit (self w)) →
  get_action states noise episode w = (Ok action, w') →
  within (- action_limit (self w))%Qc (action_limit (self w)) action ∧
  (∃ noisy,
     np.iadd_rows (Model_forward (actor (self w)) (promoted states))
       ((λ x, default (action_noise_scale (self w)) noise / Qc_of_Z episode * x)%Qc
          <$> (np.randn (action_n (self w)) (random w)).1) = Ok noisy ∧
     action = np.clip noisy (- action_limit (self w))%Qc (action_limit (self w))) ∧
  (∀ (n : nat) (B : Qc),
     (0 < n)%nat → (0 ≤ B)%Qc →
     action_space_low (env (self w)) = replicate n (- B)%Qc →
     action_space_high (env (self w)) = replicate n B →
     within_declared_bounds (env (self w)) action).
Proof.
  intros Hnoise Hlimit Hrun.
  destruct (get_action_noisy _ _ _ _ _ _ Hnoise Hrun) as (scale & noisy & Hs & Hn & ->).
  pose proof (compute_action_limit_nonneg _ _ Hlimit) as Hpos.
  assert (Hlh : (- action_limit (self w) ≤ action_limit (self w))%Qc).
  { eapply Qcle_trans; [|exact Hpos].
    rewrite <- (Qcopp_involutive 0). apply Qcopp_le_compat. exact Hpos. }
  split_and!.
  - by apply clip_within.
  - exists noisy. split; [|done].
    unfold np.truediv in Hs. case_decide; [done|]. by injection Hs as <-.
  - intros n B Hn0 HB Hlow Hhigh row i x lo hi Hrow Hx Hlo Hhi.
    pose proof (compute_action_limit_symmetric _ n B Hn0 HB Hlow Hhigh) as HL.
    rewrite Hlimit in HL. injection HL as HL.
    rewrite Hlow in Hlo. rewrite Hhigh in Hhi.
    apply lookup_replicate_1 in Hlo as [-> _].
    apply lookup_replicate_1 in Hhi as [-> _].
    rewrite <- HL.
    apply (clip_within noisy _ _ Hlh row x Hrow).
    by eapply list_elem_of_lookup_2.
Qed.

(** *** The target synchronizer *)

Lemma elem_of_keys (d : gmap key Qc) (k : key) : k ∈ keys d ↔ is_Some (d !! k).
Proof.
  unfold keys. rewrite list_elem_of_fmap. split.
  - intros ([k' x] & -> & Hin). apply elem_of_map_to_list in Hin. by exists x.
  - intros [x Hx]. exists (k, x). split; [done|]. by apply elem_of_map_to_list.
Qed.

Lemma NoDup_keys (d : gmap key Qc) : NoDup (keys d).
Proof. apply NoDup_fst_map_to_list. Qed.

Lemma get_set_w (c : couplings) (m : gmap key Qc) (q : QFunction) :
  get_w c (set_w c m q) = m.
Proof. by destruct c. Qed.

Lemma set_set_w (c : couplings) (m1 m2 : gmap key Qc) (q : QFunction) :
  set_w c m2 (set_w c m1 q) = set_w c m2 q.
Proof. by destruct c. Qed.

Lemma set_w_id (c : couplings) (q : QFunction) : set_w c (get_w c q) q = q.
Proof. by destruct c, q. Qed.

Lemma soft_update_loop_spec (c : couplings) (ks : list key) (w : World) :
  NoDup ks →
  (∀ k, k ∈ ks → is_Some (get_w c (critic (self w)) !! k) ∧
                 is_Some (get_w c (critic_target (self w)) !! k)) →
  ∃ m : gmap key Qc,
    soft_update_loop c ks w =
      (Ok tt, set_self (with_critic_target (set_w c m (critic_target (self w)))) w) ∧
    ∀ k, m !! k = blended_at (tau_soft_update (self w)) ks
                    (get_w c (critic (self w)))
                    (get_w c (critic_target (self w))) k.
Proof.
  revert w. induction ks as [|k ks IH]; intros w Hnd Hks.
  - exists (get_w c (critic_target (self w))). split.
    + simpl. run. rewrite set_w_id. by destruct w as [[] ? ? ?].
    + intros k. unfold blended_at. rewrite decide_False; [done|]. by intros ?%elem_of_nil.
  - apply NoDup_cons in Hnd as [Hk Hnd].
    destruct (Hks k) as [[l Hl] [t Ht]]; [by left|].
    simpl. run. unfold dict_get. rewrite Hl, Ht. simpl.
    set (w1 := set_self _ w).
    destruct (IH w1 Hnd) as (m & Hrun & Hm).
    { intros k' Hk'. destruct (Hks k') as [Hl' Ht']; [by right|].
      split; [done|]. simpl. rewrite get_set_w.
      destruct (decide (k = k')) as [->|Hne];
        [by rewrite lookup_insert_eq|by rewrite lookup_insert_ne]. }
    exists m. split.
    + rewrite Hrun. f_equal. subst w1. unfold set_self. simpl.
      by rewrite set_set_w.
    + intros k'. rewrite Hm. subst w1. simpl. rewrite get_set_w.
      unfold blended_at.
      destruct (decide (k' ∈ ks)) as [Hin|Hnin].
      * rewrite decide_True by (by right).
        rewrite lookup_insert_ne; [done|]. by intros ->.
      * destruct (decide (k = k')) as [->|Hne].
        -- rewrite decide_True by (by left).
           by rewrite lookup_insert_eq, Hl, Ht.
        -- rewrite decide_False by (by intros [->|?]%elem_of_cons).
           by rewrite lookup_insert_ne.
Qed.

(** One whole run of the synchronizer on a trainer whose target critic
    has every key of the local one. *)
Lemma soft_update_run (w : World) :
  dom (w_hh (critic (self w))) ⊆ dom (w_hh (critic_target (self w))) →
  dom (w_vh (critic (self w))) ⊆ dom (w_vh (critic_target (self w))) →
  ∃ m_hh m_vh : gmap key Qc,
    (∀ k, m_hh !! k =
          blended_at (tau_soft_update (self w)) (keys (w_hh (critic (self w))))
            (w_hh (critic (self w))) (w_hh (critic_target (self w))) k) ∧
    (∀ k, m_vh !! k =
          blended_at (tau_soft_update (self w)) (keys (w_vh (critic (self w))))
            (w_vh (critic (self w))) (w_vh (critic_target (self w))) k) ∧
    let w2 :=
      set_self (with_critic_target
                  {| w_hh := m_hh; w_vh := m_vh;
                     small_gamma := small_gamma (critic_target (self w)) |}) w in
    let w3 := log (call_get_weights Target) (log (call_get_weights Local) w2) in
    _soft_update_actor_and_critic w =
    match blend (tau_soft_update (self w)) (weights (actor (self w)))
                (weights (actor_target (self w))) with
    | Ok z => (Ok tt, log (call_set_weights Target z)
                          (set_self (with_actor_target {| weights := z |}) w3))
    | Raise e => (Raise e, w3)
    end.
Proof.
  intros Hhh Hvh.
  destruct (soft_update_loop_spec hh (keys (w_hh (critic (self w)))) w)
    as (m_hh & Hrun1 & Hm1); [apply NoDup_keys| |].
  { intros k Hk%elem_of_keys. split; [done|].
    apply elem_of_dom, Hhh, elem_of_dom, Hk. }
  set (w1 := set_self (with_critic_target
                         (set_w hh m_hh (critic_target (self w)))) w) in *.
  destruct (soft_update_loop_spec vh (keys (w_vh (critic (self w1)))) w1)
    as (m_vh & Hrun2 & Hm2); [apply NoDup_keys| |].
  { intros k Hk%elem_of_keys. split; [done|].
    apply elem_of_dom, Hvh, elem_of_dom, Hk. }
  exists m_hh, m_vh. split_and!; [done|done|].
  unfold _soft_update_actor_and_critic. run.
  rewrite Hrun1. subst w1. simpl in *. rewrite Hrun2. simpl.
  unfold get_weights, set_weights. simpl.
  by destruct (blend _ _ _).
Qed.

Lemma blend_same_shape (tau : Qc) (local target : list (list Qc)) :
  same_shape local target →
  blend tau local target = Ok (zip_with (zip_with (polyak tau)) local target).
Proof.
  induction 1 as [|x y local target Hxy _ IH]; simpl; [done|].
  unfold np.blend1. rewrite decide_True by done. simpl. by rewrite IH.
Qed.

Lemma zip_with_polyak_1 (x y : list Qc) :
  length x = length y → zip_with (polyak 1) x y = x.
Proof.
  revert y. induction x as [|a x IH]; intros [|b y] Hlen; simpl in *; try done.
  rewrite IH by lia. f_equal. unfold polyak. ring.
Qed.

Lemma zip_with_polyak_0 (x y : list Qc) :
  length x = length y → zip_with (polyak 0) x y = y.
Proof.
  revert y. induction x as [|a x IH]; intros [|b y] Hlen; simpl in *; try done.
  rewrite IH by lia. f_equal. unfold polyak. ring.
Qed.

Lemma blend_1 (local target : list (list Qc)) :
  same_shape local target →
  zip_with (zip_with (polyak 1)) local target = local.
Proof.
  induction 1 as [|x y local target Hxy _ IH]; simpl; [done|].
  by rewrite IH, zip_with_polyak_1.
Qed.

Lemma blend_0 (local target : list (list Qc)) :
  same_shape local target →
  zip_with (zip_with (polyak 0)) local target = target.
Proof.
  induction 1 as [|x y local target Hxy _ IH]; simpl; [done|].
  by rewrite IH, zip_with_polyak_0.
Qed.

(** With equal key sets, the loop over the local keys blends every entry. *)
Lemma blended_at_all (tau : Qc) (local target : gmap key Qc) (k : key) :
  dom local = dom target →
  blended_at tau (keys local) local target k =
  match local !! k, target !! k with
  | Some l, Some t => Some (polyak tau l t)
  | _, _ => None
  end.
Proof.
  intros Hdom. unfold blended_at.
  destruct (decide (k ∈ keys local)) as [Hin|Hnin]; [done|].
  rewrite elem_of_keys in Hnin.
  assert (local !! k = None) as -> by by apply eq_None_not_Some.
  apply not_elem_of_dom. rewrite <- Hdom. by apply not_elem_of_dom, eq_None_not_Some.
Qed.

Lemma polyak_1 (l t : Qc) : polyak 1 l t = l.
Proof. unfold polyak. ring. Qed.

Lemma polyak_0 (l t : Qc) : polyak 0 l t = t.
Proof. unfold polyak. ring. Qed.

Lemma same_dom_lookup (m1 m2 : gmap key Qc) (k : key) (x : Qc) :
  dom m1 = dom m2 → m1 !! k = Some x → is_Some (m2 !! k).
Proof.
  intros Hdom Hx. apply elem_of_dom. rewrite <- Hdom. apply elem_of_dom. eauto.
Qed.

(** C6. On a trainer whose two critics have the same keys and whose two
    actors have the same shape, one call of the synchronizer returns, and
    leaves in the target: at every key of [w_hh] and of [w_vh] the blend
    [tau * local + (1 - tau) * target] of the two entries it found there,
    and as actor snapshot the entry-wise blend of the two snapshots; the
    local critic and actor are untouched.  With [tau = 1] the target's
    collections and snapshot equal the local ones, with [tau = 0] they are
    what they were. *)
Theorem soft_update_is_polyak (w : World) :
  same_keys (self w) →
  same_shape (weights (actor (self w))) (weights (actor_target (self w))) →
  ∃ w',
    _soft_update_actor_and_critic w = (Ok tt, w') ∧
    (∀ c k l t,
        get_w c (critic (self w)) !! k = Some l →
        get_w c (critic_target (self w)) !! k = Some t →
        get_w c (critic_target (self w')) !! k
        = Some (polyak (tau_soft_update (self w)) l t)) ∧
    weights (actor_target (self w'))
    = zip_with (zip_with (polyak (tau_soft_update (self w))))
               (weights (actor (self w))) (weights (actor_target (self w))) ∧
    critic (self w') = critic (self w) ∧
    actor (self w') = actor (self w) ∧
    (tau_soft_update (self w) = 1%Qc →
       w_hh (critic_target (self w')) = w_hh (critic (self w)) ∧
       w_vh (critic_target (self w')) = w_vh (critic (self w)) ∧
       weights (actor_target (self w')) = weights (actor (self w))) ∧
    (tau_soft_update (self w) = 0%Qc →
       w_hh (critic_target (self w')) = w_hh (critic_target (self w)) ∧
       w_vh (critic_target (self w')) = w_vh (critic_target (self w)) ∧
       weights (actor_target (self w')) = weights (actor_target (self w))).
Proof.
  intros [Hhh Hvh] Hshape.
  destruct (soft_update_run w) as (m_hh & m_vh & Hm1 & Hm2 & Hrun);
    [by rewrite Hhh|by rewrite Hvh|].
  simpl in Hrun. rewrite (blend_same_shape _ _ _ Hshape) in Hrun.
  eexists. split; [exact Hrun|]. simpl.
  assert (Hh : ∀ k, m_hh !! k
    = match w_hh (critic (self w)) !! k, w_hh (critic_target (self w)) !! k with
      | Some l, Some t => Some (polyak (tau_soft_update (self w)) l t)
      | _, _ => None
      end).
  { intros k. rewrite Hm1. by apply blended_at_all. }
  assert (Hv : ∀ k, m_vh !! k
    = match w_vh (critic (self w)) !! k, w_vh (critic_target (self w)) !! k with
      | Some l, Some t => Some (polyak (tau_soft_update (self w)) l t)
      | _, _ => None
      end).
  { intros k. rewrite Hm2. by apply blended_at_all. }
  split_and!; [|done..| |].
  - intros [] k l t Hl Ht; simpl in *; [rewrite Hh|rewrite Hv]; by rewrite Hl, Ht.
  - intros Htau. rewrite Htau in *. split_and!.
    + apply map_eq. intros k. rewrite Hh.
      destruct (w_hh (critic (self w)) !! k) as [l|] eqn:Hl; [|done].
      destruct (same_dom_lookup _ _ _ _ Hhh Hl) as [t ->]. by rewrite polyak_1.
    + apply map_eq. intros k. rewrite Hv.
      destruct (w_vh (critic (self w)) !! k) as [l|] eqn:Hl; [|done].
      destruct (same_dom_lookup _ _ _ _ Hvh Hl) as [t ->]. by rewrite polyak_1.
    + by apply blend_1.
  - intros Htau. rewrite Htau in *. split_and!.
    + apply map_eq. intros k. rewrite Hh.
      destruct (w_hh (critic_target (self w)) !! k) as [t|] eqn:Ht.
      * destruct (same_dom_lookup _ _ _ _ (eq_sym Hhh) Ht) as [l ->].
        by rewrite polyak_0.
      * by destruct (w_hh (critic (self w)) !! k).
    + apply map_eq. intros k. rewrite Hv.
      destruct (w_vh (critic_target (self w)) !! k) as [t|] eqn:Ht.
      * destruct (same_dom_lookup _ _ _ _ (eq_sym Hvh) Ht) as [l ->].
        by rewrite polyak_0.
      * by destruct (w_vh (critic (self w)) !! k).
    + by apply blend_0.
Qed.

(** *** Construction *)

Lemma copy_loop_spec (local : gmap key Qc) (ks : list key) (target : gmap key Qc) :
  (∀ k, k ∈ ks → is_Some (local !! k)) →
  ∃ m, copy_loop local ks target = Ok m ∧
       ∀ k, m !! k = if decide (k ∈ ks) then local !! k else target !! k.
Proof.
  revert target. induction ks as [|k ks IH]; intros target Hks.
  - exists target. split; [done|]. intros k. rewrite decide_False; [done|].
    by intros ?%elem_of_nil.
  - destruct (Hks k) as [x Hx]; [by left|].
    destruct (IH (<[k := x]> target)) as (m & Hm & Hlook).
    { intros k' Hk'. apply Hks. by right. }
    exists m. split.
    { cbn [copy_loop]. unfold dict_get. by rewrite Hx. }
    intros k'. rewrite Hlook.
    destruct (decide (k' ∈ ks)) as [Hin|Hnin].
    + by rewrite decide_True by (by right).
    + destruct (decide (k = k')) as [->|Hne].
      * rewrite decide_True by (by left). by rewrite lookup_insert_eq.
      * rewrite decide_False by (by intros [->|?]%elem_of_cons).
        by rewrite lookup_insert_ne.
Qed.

Lemma copy_loop_same_keys (local target : gmap key Qc) :
  dom local = dom target → copy_loop local (keys local) target = Ok local.
Proof.
  intros Hdom.
  destruct (copy_loop_spec local (keys local) target) as (m & -> & Hm).
  { by intros k ?%elem_of_keys. }
  f_equal. apply map_eq. intros k. rewrite Hm.
  destruct (decide (k ∈ keys local)) as [Hin|Hnin]; [done|].
  rewrite elem_of_keys in Hnin.
  assert (Hk : local !! k = None) by by apply eq_None_not_Some.
  rewrite Hk. apply not_elem_of_dom. rewrite <- Hdom. by apply not_elem_of_dom.
Qed.

(** The trainer [__init__] builds, read off its definition. *)
Lemma init_inv (e : Env) (gamma : Qc) (batch_size : nat)
    (noise_scale tau critic_lr actor_lr : Qc) (annealing_steps anneals : nat)
    (g : np.RandomState) (b0 : Backend) (w : World) :
  __init__ e gamma batch_size noise_scale tau critic_lr actor_lr
           annealing_steps anneals g b0 = Ok w →
  ∃ b1 t_hh t_vh,
    env (self w) = e ∧
    compute_action_limit e = Ok (action_limit (self w)) ∧
    np.getitem (action_space_shape e) 0 = Ok (action_n (self w)) ∧
    replay_batch_size (self w) = batch_size ∧
    tau_soft_update (self w) = tau ∧
    action_noise_scale (self w) = noise_scale ∧
    w_hh (critic (self w))
    = (QFunction_init e gamma annealing_steps anneals b0).1.1 ∧
    w_vh (critic (self w))
    = (QFunction_init e gamma annealing_steps anneals b0).1.2 ∧
    b1 = (QFunction_init e gamma annealing_steps anneals b0).2 ∧
    t_hh = (QFunction_init e gamma annealing_steps anneals b1).1.1 ∧
    t_vh = (QFunction_init e gamma annealing_steps anneals b1).1.2 ∧
    copy_loop (w_hh (critic (self w))) (keys (w_hh (critic (self w)))) t_hh
    = Ok (w_hh (critic_target (self w))) ∧
    copy_loop (w_vh (critic (self w))) (keys (w_vh (critic (self w)))) t_vh
    = Ok (w_vh (critic_target (self w))) ∧
    weights (actor_target (self w)) = weights (actor (self w)) ∧
    q_losses (self w) = [].
Proof.
  unfold __init__, _generate_critic_net.
  destruct (np.getitem (action_space_shape e) 0) as [n|] eqn:Hn; [|done].
  destruct (compute_action_limit e) as [limit|] eqn:Hlimit; [|done].
  simpl.
  destruct (QFunction_init e gamma annealing_steps anneals b0)
    as [[hh1 vh1] b1] eqn:E1.
  destruct (QFunction_init e gamma annealing_steps anneals b1)
    as [[hh2 vh2] b2] eqn:E2.
  destruct (Model_init _ n actor_lr b2) as [a b3].
  destruct (Model_init _ n actor_lr b3) as [a' b4].
  simpl.
  destruct (copy_loop hh1 (keys hh1) hh2) as [c_hh|] eqn:Hc1; [|done].
  destruct (copy_loop vh1 (keys vh1) vh2) as [c_vh|] eqn:Hc2; [|done].
  simpl.
  destruct (np.getitem (observation_space_shape e) 0) as [d0|]; [|done].
  simpl. destruct (Memory_init d0 n _ b4) as [mem b5].
  intros [= <-]. simpl. exists b1, hh2, vh2. rewrite E2. by split_and!.
Qed.

(** *** The key sets under the methods *)

Lemma keeps_ret {A : Type} (a : A) : keeps_keys (mret a).
Proof. by intros w r w' [= <- <-]. Qed.

Lemma keeps_lift {A : Type} (x : result A) : keeps_keys (lift x).
Proof. by intros w r w' [= <- <-]. Qed.

Lemma keeps_get_self : keeps_keys get_self.
Proof. by intros w r w' [= <- <-]. Qed.

Lemma keeps_emit (e : event) : keeps_keys (emit e).
Proof. by intros w r w' [= <- <-]. Qed.

Lemma keeps_bind {A B : Type} (m : M A) (f : A → M B) :
  keeps_keys m → (∀ a, keeps_keys (f a)) → keeps_keys (m ≫= f).
Proof.
  intros Hm Hf w r w'. rewrite bind_run.
  destruct (m w) as [[a|e] w1] eqn:Hrun.
  - intros Hrest. rewrite (Hf a _ _ _ Hrest). by apply (Hm _ _ _ Hrun).
  - intros [= <- <-]. by apply (Hm _ _ _ Hrun).
Qed.

Lemma keeps_calculate_q_value (who : net) (state action : list Qc) :
  keeps_keys (calculate_q_value who state action).
Proof.
  intros w r w'. unfold calculate_q_value.
  destruct (QFunction_calculate_q_value _ _ _ _ _) as [[[q spins] visible] b].
  by intros [= <- <-].
Qed.

Lemma keeps_calculate_q_value_on_batch (states actions : list (list Qc)) :
  keeps_keys (calculate_q_value_on_batch states actions).
Proof.
  intros w r w'. unfold calculate_q_value_on_batch.
  destruct (QFunction_calculate_q_value_on_batch _ _ _ _) as [q b].
  by intros [= <- <-].
Qed.

Lemma keeps_predict_on_batch (who : net) (states : list (list Qc)) :
  keeps_keys (predict_on_batch who states).
Proof. by intros w r w' [= <- <-]. Qed.

Lemma keeps_get_weights (who : net) : keeps_keys (get_weights who).
Proof. by intros w r w' [= <- <-]. Qed.

Lemma keeps_set_weights (who : net) (ws : list (list Qc)) :
  keeps_keys (set_weights who ws).
Proof. intros w r w' [= <- <-]. by destruct who. Qed.

Lemma keeps_randn (n : nat) : keeps_keys (randn n).
Proof.
  intros w r w'. unfold randn. destruct (np.randn n (random w)) as [z g].
  by intros [= <- <-].
Qed.

Lemma keeps_env_action_space_sample : keeps_keys env_action_space_sample.
Proof.
  intros w r w'. unfold env_action_space_sample.
  destruct (action_space_sample _ _) as [a b]. by intros [= <- <-].
Qed.

Lemma keeps_get_sample (n : nat) : keeps_keys (get_sample n).
Proof.
  intros w r w'. unfold get_sample.
  destruct (Memory_get_sample _ _ _) as [[x mem] b]. by intros [= <- <-].
Qed.

Lemma keeps_apply_gradients (x : list (list Qc)) (q : list Qc)
    (ds da : list (list Qc)) :
  keeps_keys (apply_gradients x q ds da).
Proof.
  intros w r w'. unfold apply_gradients.
  destruct (Model_apply_gradients _ _ _ _ _ _) as [m b]. by intros [= <- <-].
Qed.

Lemma keeps_record_loss (f : list (option Qc) → list (option Qc)) :
  keeps_keys (update_self (λ s, with_q_losses (f (q_losses s)) s)).
Proof. by intros w r w' [= <- <-]. Qed.

(** [update_weights] keeps the key sets when the critic's rule does. *)
Lemma keeps_update_weights (spins : SpinConfigs) (visible : VisibleNodes)
    (q next_q reward lr : Qc) :
  keys_never_resized →
  keeps_keys (update_weights spins visible q next_q reward lr).
Proof.
  intros [_ Hlaw] w r w'. unfold update_weights.
  destruct (Hlaw (critic (self w)) spins visible q next_q reward lr (backend w))
    as [Hhh Hvh].
  destruct (QFunction_update_weights _ _ _ _ _ _ _ _) as [[new_hh new_vh] b].
  intros [= <- <-]. unfold key_sets. simpl in *. by rewrite Hhh, Hvh.
Qed.

(** One step of a proof that a method keeps the key sets. *)
Ltac keeps_step :=
  first
    [ apply keeps_bind; [|intros ?]
    | apply keeps_ret | apply keeps_lift | apply keeps_get_self
    | apply keeps_emit | apply keeps_calculate_q_value
    | apply keeps_calculate_q_value_on_batch | apply keeps_predict_on_batch
    | apply keeps_get_weights | apply keeps_set_weights | apply keeps_randn
    | apply keeps_env_action_space_sample | apply keeps_get_sample
    | apply keeps_apply_gradients | apply keeps_record_loss
    | match goal with
      | |- keeps_keys (let '(_, _) := ?p in _) => destruct p
      | |- keeps_keys (if ?c then _ else _) => destruct c
      end ].

Lemma keeps_get_action (states : ndarray) (noise : option Qc) (episode : Z) :
  keeps_keys (get_action states noise episode).
Proof. unfold get_action. repeat keeps_step. Qed.

Lemma keeps_get_target_actions (states : list (list Qc)) :
  keeps_keys (get_target_actions states).
Proof. apply keeps_predict_on_batch. Qed.

Lemma keeps_action_derivative_loop (states actions : list (list Qc)) (eps : Qc)
    (ncols : nat) (coords : list nat) (grads : list (list Qc)) :
  keeps_keys (action_derivative_loop states actions eps ncols coords grads).
Proof.
  revert grads. induction coords as [|i coords IH]; intros grads;
    cbn [action_derivative_loop]; repeat keeps_step. apply IH.
Qed.

Lemma keeps_get_action_derivative (states actions : list (list Qc)) (eps : Qc) :
  keeps_keys (get_action_derivative states actions eps).
Proof.
  unfold get_action_derivative. repeat keeps_step.
  apply keeps_action_derivative_loop.
Qed.

Lemma keeps_state_derivative_loop (states actions : list (list Qc)) (eps : Qc)
    (ncols : nat) (coords : list nat) (grads : list (list Qc)) :
  keeps_keys (state_derivative_loop states actions eps ncols coords grads).
Proof.
  revert grads. induction coords as [|i coords IH]; intros grads;
    cbn [state_derivative_loop]; repeat keeps_step. apply IH.
Qed.

Lemma keeps_get_state_derivative (states actions : list (list Qc)) (eps : Qc) :
  keeps_keys (get_state_derivative states actions eps).
Proof.
  unfold get_state_derivative. repeat keeps_step.
  apply keeps_state_derivative_loop.
Qed.

Lemma keeps_action_derivative_5point_loop (states actions : list (list Qc))
    (eps : Qc) (ncols : nat) (coords : list nat) (grads : list (list Qc)) :
  keeps_keys
    (action_derivative_5point_loop states actions eps ncols coords grads).
Proof.
  revert grads. induction coords as [|i coords IH]; intros grads;
    cbn [action_derivative_5point_loop]; repeat keeps_step. apply IH.
Qed.

Lemma keeps_get_action_derivative_5point (states actions : list (list Qc))
    (eps : Qc) :
  keeps_keys (get_action_derivative_5point states actions eps).
Proof.
  unfold get_action_derivative_5point. repeat keeps_step.
  apply keeps_action_derivative_5point_loop.
Qed.

Lemma keeps_train_actor (states actions : list (list Qc)) :
  keeps_keys (train_actor states actions).
Proof.
  unfold train_actor, train_on_batch, get_q_value.
  repeat first [apply keeps_get_action_derivative | keeps_step].
Qed.

Lemma keeps_sample_next_actions (n : nat) : keeps_keys (sample_next_actions n).
Proof.
  induction n as [|n IH]; cbn [sample_next_actions]; repeat keeps_step.
  apply IH.
Qed.

Lemma keeps_train_critic_loop (states next_states actions next_actions :
    list (list Qc)) (rewards : list Qc) (js : list nat) (q_loss_batch : list Qc) :
  keys_never_resized →
  keeps_keys (train_critic_loop states next_states actions next_actions rewards
                                js q_loss_batch).
Proof.
  intros Hlaw. revert q_loss_batch.
  induction js as [|j js IH]; intros q_loss_batch; cbn [train_critic_loop];
    repeat first [keeps_step | by apply keeps_update_weights].
  apply IH.
Qed.

Lemma keeps_train_critic (states next_states actions : list (list Qc))
    (rewards dones : list Qc) (random_phase : bool) :
  keys_never_resized →
  keeps_keys (train_critic states next_states actions rewards dones
                           random_phase).
Proof.
  intros Hlaw. unfold train_critic. apply keeps_bind; [|intros next_actions].
  - destruct random_phase;
      [apply keeps_sample_next_actions|apply keeps_get_target_actions].
  - apply keeps_bind; [by apply keeps_train_critic_loop|intros q_loss_batch].
    apply (keeps_record_loss (λ l, l ++ [np.mean q_loss_batch])).
Qed.

(** The synchronizer's loop writes at keys the target collection has: the
    lookup [critic_target.w[k]] on the right-hand side raised otherwise. *)
Lemma keeps_soft_update_loop (c : couplings) (ks : list key) :
  keeps_keys (soft_update_loop c ks).
Proof.
  induction ks as [|k ks IH]; [apply keeps_ret|].
  intros w r w'. cbn [soft_update_loop]. rewrite bind_run. cbn [get_self].
  rewrite bind_run. unfold lift at 1, dict_get at 1.
  destruct (get_w c (critic (self w)) !! k) as [l|] eqn:Hl;
    [|by intros [= <- <-]].
  rewrite bind_run. unfold lift at 1, dict_get at 1.
  destruct (get_w c (critic_target (self w)) !! k) as [t|] eqn:Ht;
    [|by intros [= <- <-]].
  rewrite bind_run. cbn [update_self]. intros Hrest.
  rewrite (IH _ _ _ Hrest). unfold key_sets.
  destruct c; simpl in *; rewrite dom_insert_lookup_L; eauto.
Qed.

Lemma keeps_soft_update_actor_and_critic :
  keeps_keys _soft_update_actor_and_critic.
Proof.
  unfold _soft_update_actor_and_critic.
  repeat first [keeps_step | apply keeps_soft_update_loop].
Qed.

Lemma keeps_train : keys_never_resized → keeps_keys train.
Proof.
  intros Hlaw. unfold train.
  apply keeps_bind; [apply keeps_get_self|intros s].
  apply keeps_bind; [apply keeps_get_sample|intros [[[[states actions] rewards]
                                                      next_states] dones]].
  apply keeps_bind; [by apply keeps_train_critic|intros _].
  apply keeps_bind; [apply keeps_train_actor|intros _].
  apply keeps_soft_update_actor_and_critic.
Qed.

Lemma keeps_keys_run {A : Type} (m : M A) (w : World) :
  keeps_keys m → key_sets (self (m w).2) = key_sets (self w).
Proof. intros Hm. destruct (m w) as [r w'] eqn:Hrun. by apply (Hm _ _ _ Hrun). Qed.

(** Under the spec's law for the critic, no call of a method resizes a
    collection. *)
Lemma invoke_keeps_keys (m : method) (w : World) :
  keys_never_resized → key_sets (self (invoke m w)) = key_sets (self w).
Proof.
  intros Hlaw. destruct m; cbn [invoke]; apply keeps_keys_run.
  - apply keeps_get_action.
  - apply keeps_get_target_actions.
  - apply keeps_train_actor.
  - apply keeps_get_state_derivative.
  - apply keeps_get_action_derivative.
  - apply keeps_get_action_derivative_5point.
  - by apply keeps_train_critic.
  - apply keeps_soft_update_actor_and_critic.
  - by apply keeps_train.
Qed.

Lemma invoke_all_keeps_keys (ms : list method) (w : World) :
  keys_never_resized → key_sets (self (invoke_all ms w)) = key_sets (self w).
Proof.
  intros Hlaw. revert w. induction ms as [|m ms IH]; intros w; [done|].
  unfold invoke_all. simpl. fold (invoke_all ms (invoke m w)).
  rewrite IH. by apply invoke_keeps_keys.
Qed.

Lemma same_keys_key_sets (s s' : QuantumActorCritic) :
  key_sets s' = key_sets s → same_keys s → same_keys s'.
Proof.
  unfold key_sets, same_keys. intros [= -> -> -> ->]. done.
Qed.

(** The two copy loops of [__init__] on critics whose keys the
    constructor fixes. *)
Lemma init_copies_couplings (e : Env) (gamma : Qc) (batch_size : nat)
    (noise_scale tau critic_lr actor_lr : Qc) (annealing_steps anneals : nat)
    (g : np.RandomState) (b0 : Backend) (w : World) :
  constructor_fixes_keys e gamma annealing_steps anneals →
  __init__ e gamma batch_size noise_scale tau critic_lr actor_lr
           annealing_steps anneals g b0 = Ok w →
  same_keys (self w) ∧
  w_hh (critic_target (self w)) = w_hh (critic (self w)) ∧
  w_vh (critic_target (self w)) = w_vh (critic (self w)).
Proof.
  intros Hfix Hinit.
  destruct (init_inv _ _ _ _ _ _ _ _ _ _ _ _ Hinit)
    as (b1 & t_hh & t_vh & _ & _ & _ & _ & _ & _ & Hhh & Hvh & -> & -> & ->
        & Hc1 & Hc2 & _).
  destruct (Hfix b0 (QFunction_init e gamma annealing_steps anneals b0).2)
    as [Hd1 Hd2].
  rewrite <- Hhh in Hd1. rewrite <- Hvh in Hd2.
  rewrite (copy_loop_same_keys _ _ Hd1) in Hc1.
  rewrite (copy_loop_same_keys _ _ Hd2) in Hc2.
  injection Hc1 as Hc1. injection Hc2 as Hc2.
  unfold same_keys. by rewrite <- Hc1, <- Hc2.
Qed.

(** C5. (1) If the keys of a freshly built [QFunction] are fixed by its
    constructor's arguments, the trainer [__init__] returns has the same
    keys in its local and target critic, and the target's two collections
    are copies of the local ones.  (2) On a trainer with the same keys in
    both critics, a call of the synchronizer, however it ends, does not
    raise KeyError, leaves the local critic as it was and the target's key
    sets as they were (so the key sets are still the same), and changes the
    target's entries only at keys that both critics had.  (3) With a critic
    as the spec describes it ([keys_never_resized]: the constructor fixes
    the keys and [update_weights] keeps them), no sequence of calls of the
    trainer's methods, each returning or raising, changes any of the four
    key sets; so on the trainer [__init__] returned the local and the
    target critic have the same keys after every such sequence. *)
Theorem critic_key_sets_stay_identical :
  (∀ (e : Env) (gamma : Qc) (batch_size : nat)
     (noise_scale tau critic_lr actor_lr : Qc) (annealing_steps anneals : nat)
     (g : np.RandomState) (b0 : Backend) (w : World),
     constructor_fixes_keys e gamma annealing_steps anneals →
     __init__ e gamma batch_size noise_scale tau critic_lr actor_lr
              annealing_steps anneals g b0 = Ok w →
     same_keys (self w) ∧
     w_hh (critic_target (self w)) = w_hh (critic (self w)) ∧
     w_vh (critic_target (self w)) = w_vh (critic (self w))) ∧
  (∀ (w w' : World) (r : result unit),
     same_keys (self w) →
     _soft_update_actor_and_critic w = (r, w') →
     r ≠ Raise KeyError ∧
     same_keys (self w') ∧
     critic (self w') = critic (self w) ∧
     dom (w_hh (critic_target (self w'))) = dom (w_hh (critic_target (self w))) ∧
     dom (w_vh (critic_target (self w'))) = dom (w_vh (critic_target (self w))) ∧
     ∀ c k,
       get_w c (critic_target (self w')) !! k
       ≠ get_w c (critic_target (self w)) !! k →
       k ∈ dom (get_w c (critic (self w))) ∧
       k ∈ dom (get_w c (critic_target (self w)))) ∧
  (keys_never_resized →
   (∀ (ms : list method) (w : World),
      key_sets (self (invoke_all ms w)) = key_sets (self w)) ∧
   (∀ (e : Env) (gamma : Qc) (batch_size : nat)
      (noise_scale tau critic_lr actor_lr : Qc) (annealing_steps anneals : nat)
      (g : np.RandomState) (b0 : Backend) (w : World) (ms : list method),
      __init__ e gamma batch_size noise_scale tau critic_lr actor_lr
               annealing_steps anneals g b0 = Ok w →
      same_keys (self (invoke_all ms w)))).
Proof.
  split; [apply init_copies_couplings|]. split; cycle 1.
  - intros Hlaw. split.
    + intros ms w. by apply invoke_all_keeps_keys.
    + intros e gamma batch_size noise_scale tau critic_lr actor_lr
        annealing_steps anneals g b0 w ms Hinit.
      eapply same_keys_key_sets; [by apply invoke_all_keeps_keys|].
      by apply (init_copies_couplings _ _ _ _ _ _ _ _ _ _ _ _
                  (proj1 Hlaw _ _ _ _) Hinit).
  - intros w w' r [Hhh Hvh] Hrun.
    destruct (soft_update_run w) as (m_hh & m_vh & Hm1 & Hm2 & Hrun');
      [by rewrite Hhh|by rewrite Hvh|].
    simpl in Hrun'. rewrite Hrun in Hrun'.
    assert (Hdh : dom m_hh = dom (w_hh (critic_target (self w)))).
    { apply set_eq. intros k. rewrite !elem_of_dom, Hm1, blended_at_all by done.
      destruct (w_hh (critic_target (self w)) !! k) as [t|] eqn:Ht.
      - destruct (same_dom_lookup _ _ _ _ (eq_sym Hhh) Ht) as [l ->].
        split; eauto.
      - destruct (w_hh (critic (self w)) !! k); split; by intros [? ?]. }
    assert (Hdv : dom m_vh = dom (w_vh (critic_target (self w)))).
    { apply set_eq. intros k. rewrite !elem_of_dom, Hm2, blended_at_all by done.
      destruct (w_vh (critic_target (self w)) !! k) as [t|] eqn:Ht.
      - destruct (same_dom_lookup _ _ _ _ (eq_sym Hvh) Ht) as [l ->].
        split; eauto.
      - destruct (w_vh (critic (self w)) !! k); split; by intros [? ?]. }
    assert (Hchanged : ∀ c k,
      get_w c {| w_hh := m_hh; w_vh := m_vh;
                 small_gamma := small_gamma (critic_target (self w)) |} !! k
      ≠ get_w c (critic_target (self w)) !! k →
      k ∈ dom (get_w c (critic (self w))) ∧
      k ∈ dom (get_w c (critic_target (self w)))).
    { intros c k Hne.
      assert (Hin : k ∈ dom (get_w c (critic_target (self w)))).
      { destruct c; simpl in *; apply elem_of_dom.
        - rewrite Hm1, blended_at_all in Hne by done.
          destruct (w_hh (critic_target (self w)) !! k); [eauto|].
          by destruct (w_hh (critic (self w)) !! k).
        - rewrite Hm2, blended_at_all in Hne by done.
          destruct (w_vh (critic_target (self w)) !! k); [eauto|].
          by destruct (w_vh (critic (self w)) !! k). }
      split; [|done]. destruct c; simpl in *; by rewrite ?Hhh, ?Hvh. }
    destruct (blend _ _ _) as [z|err] eqn:Hblend.
    + injection Hrun' as -> ->. simpl. unfold same_keys. simpl.
      split_and!; [done|by rewrite Hdh|by rewrite Hdv|done..].
    + injection Hrun' as -> ->. simpl. unfold same_keys. simpl.
      split_and!; [|by rewrite Hdh|by rewrite Hdv|done..].
      intros [= ->]. clear -Hblend.
      revert Hblend. generalize (weights (actor (self w))) as l.
      generalize (weights (actor_target (self w))) as t.
      intros t l. revert t. induction l as [|x l IH]; intros [|y t]; simpl; try done.
      unfold np.blend1. case_decide; simpl; [|done].
      destruct (blend _ l t) eqn:Hb; simpl; [done|]. intros [= ->]. by eapply IH.
Qed.

(** *** The gradient bridge *)

Lemma iadd_column_perturbed (actions : list (list Qc)) (i : nat) (delta : Qc) :
  Forall (λ row : list Qc, i < length row)%nat actions →
  np.iadd_column actions i delta = Ok (perturbed actions i delta).
Proof.
  induction 1 as [|row rest Hrow _ IH]; simpl; [done|].
  destruct (lookup_lt_is_Some_2 row i Hrow) as [x Hx].
  unfold np.getitem. rewrite Hx. simpl. rewrite IH. simpl.
  unfold moved. by rewrite Hx.
Qed.

Lemma action_derivative_loop_spec (states actions : list (list Qc)) (eps : Qc)
    (ncols : nat) (coords : list nat) (grads : list (list Qc)) (w : World) :
  one_value_per_sample →
  length grads = length states →
  Forall (λ i, (i < ncols)%nat ∧
               Forall (λ row : list Qc, i < length row)%nat actions) coords →
  action_derivative_loop states actions eps ncols coords grads w =
  (Ok (fill eps grads coords
            (probe (critic (self w)) states actions eps coords (backend w)).1),
   advance (probe (critic (self w)) states actions eps coords (backend w)).2
           (probe_calls states actions eps coords
              (probe (critic (self w)) states actions eps coords (backend w)).1)
           w).
Proof.
  intros Hone. revert grads w.
  induction coords as [|i coords IH]; intros grads w Hlen Hcoords.
  - simpl. run. unfold advance. rewrite app_nil_r. by destruct w.
  - apply Forall_cons in Hcoords as [[Hi Hrows] Hcoords].
    cbn [action_derivative_loop probe]. run.
    rewrite !iadd_column_perturbed by done. simpl.
    unfold calculate_q_value_on_batch. simpl.
    pose proof (Hone (critic (self w)) states (perturbed actions i eps) (backend w))
      as Hl1.
    destruct (QFunction_calculate_q_value_on_batch (critic (self w)) states
                (perturbed actions i eps) (backend w)) as [q_plus b1].
    simpl in *.
    pose proof (Hone (critic (self w)) states (perturbed actions i (- eps)) b1)
      as Hl2.
    destruct (QFunction_calculate_q_value_on_batch (critic (self w)) states
                (perturbed actions i (- eps)) b1) as [q_minus b2].
    simpl in *.
    unfold np.sub. rewrite decide_True by congruence. simpl.
    unfold np.set_column. rewrite decide_True by done.
    rewrite decide_True
      by (by rewrite length_fmap, length_zip_with, Hl1, Hl2, Hlen, Nat.min_id).
    simpl.
    set (w2 := log _ (set_backend b2 (log _ (set_backend b1 w)))).
    set (grads' := zip_with _ grads _).
    specialize (IH grads' w2).
    change (critic (self w2)) with (critic (self w)) in IH.
    change (backend w2) with b2 in IH.
    rewrite IH.
    + destruct (probe (critic (self w)) states actions eps coords b2)
        as [answers b3].
      simpl. f_equal. subst w2. unfold advance, log, set_backend. simpl.
      by rewrite <- !app_assoc.
    + subst grads'. rewrite length_zip_with, length_fmap, length_zip_with.
      rewrite Hl1, Hl2, Hlen. lia.
    + done.
Qed.

Lemma probe_answers (c : QFunction) (states actions : list (list Qc)) (eps : Qc)
    (coords : list nat) (b : Backend) :
  one_value_per_sample →
  length (probe c states actions eps coords b).1 = length coords ∧
  Forall (λ p : list Qc * list Qc,
            length p.1 = length states ∧ length p.2 = length states)
         (probe c states actions eps coords b).1.
Proof.
  intros Hone. revert b. induction coords as [|i coords IH]; intros b; simpl.
  - by split.
  - pose proof (Hone c states (perturbed actions i eps) b) as Hl1.
    destruct (QFunction_calculate_q_value_on_batch c states
                (perturbed actions i eps) b) as [q_plus b1].
    pose proof (Hone c states (perturbed actions i (- eps)) b1) as Hl2.
    destruct (QFunction_calculate_q_value_on_batch c states
                (perturbed actions i (- eps)) b1) as [q_minus b2].
    destruct (IH b2) as [Hlen Hall].
    destruct (probe c states actions eps coords b2) as [answers b3].
    simpl in *. split; [by rewrite Hlen|]. by constructor.
Qed.

(** Every answer of [probe] is one batched evaluation at the actions moved
    by [+ eps] along its coordinate, followed by one at the actions moved by
    [- eps]. *)
Lemma probe_lookup (c : QFunction) (states actions : list (list Qc)) (eps : Qc)
    (coords : list nat) (b : Backend) (pos i : nat) (p : list Qc * list Qc) :
  coords !! pos = Some i →
  (probe c states actions eps coords b).1 !! pos = Some p →
  ∃ b_plus b_minus,
    QFunction_calculate_q_value_on_batch c states (perturbed actions i eps) b_plus
    = (p.1, b_minus) ∧
    (QFunction_calculate_q_value_on_batch c states
       (perturbed actions i (- eps)) b_minus).1 = p.2.
Proof.
  revert b pos. induction coords as [|i0 coords IH]; intros b pos; [done|].
  simpl.
  destruct (QFunction_calculate_q_value_on_batch c states
              (perturbed actions i0 eps) b) as [q_plus b1] eqn:E1.
  destruct (QFunction_calculate_q_value_on_batch c states
              (perturbed actions i0 (- eps)) b1) as [q_minus b2] eqn:E2.
  specialize (IH b2).
  destruct (probe c states actions eps coords b2) as [answers b3].
  destruct pos as [|pos]; simpl.
  - intros [= <-] [= <-]. exists b, b1. by rewrite E1, E2.
  - apply IH.
Qed.

Lemma probe_calls_length (states actions : list (list Qc)) (eps : Qc)
    (coords : list nat) (answers : list (list Qc * list Qc)) :
  length answers = length coords →
  length (probe_calls states actions eps coords answers)
  = (2 * length coords)%nat.
Proof.
  revert answers. induction coords as [|i coords IH]; intros [|[qp qm] answers] Hlen;
    simpl in *; try done.
  rewrite IH by lia. lia.
Qed.

Lemma put_column_lookup (i : nat) (v : list Qc) (grads : list (list Qc))
    (j : nat) (row : list Qc) (x : Qc) :
  grads !! j = Some row → v !! j = Some x →
  put_column i v grads !! j = Some (<[i := x]> row).
Proof.
  intros Hrow Hx. unfold put_column. by rewrite lookup_zip_with, Hrow, Hx.
Qed.

Lemma difference_quotient_lookup (eps : Qc) (p : list Qc * list Qc) (j : nat)
    (a b : Qc) :
  p.1 !! j = Some a → p.2 !! j = Some b →
  difference_quotient eps p !! j = Some ((a - b) / (2 * eps))%Qc.
Proof.
  intros Ha Hb. unfold difference_quotient.
  by rewrite list_lookup_fmap, lookup_zip_with, Ha, Hb.
Qed.

(** Row [j] of [grads] after [fill]: at a probed coordinate the difference
    quotient of that coordinate's answers, elsewhere what it held. *)
Lemma fill_lookup (eps : Qc) (coords : list nat)
    (answers : list (list Qc * list Qc)) (grads : list (list Qc))
    (j : nat) (row : list Qc) :
  length answers = length coords →
  Forall (λ p : list Qc * list Qc,
            (j < length p.1)%nat ∧ (j < length p.2)%nat) answers →
  NoDup coords →
  grads !! j = Some row →
  ∃ row',
    fill eps grads coords answers !! j = Some row' ∧
    length row' = length row ∧
    (∀ i, i ∉ coords → row' !! i = row !! i) ∧
    (∀ pos i p, coords !! pos = Some i → answers !! pos = Some p →
                (i < length row)%nat →
                ∃ a b, p.1 !! j = Some a ∧ p.2 !! j = Some b ∧
                       row' !! i = Some ((a - b) / (2 * eps))%Qc).
Proof.
  revert answers grads row.
  induction coords as [|i0 coords IH]; intros [|p0 answers] grads row Hlen Hall Hnd Hrow;
    simpl in Hlen; try done.
  - exists row. split_and!; [done..|]. intros pos i p Hpos. by rewrite lookup_nil in Hpos.
  - apply Forall_cons in Hall as [[Hj1 Hj2] Hall].
    apply NoDup_cons in Hnd as [Hi0 Hnd].
    destruct (lookup_lt_is_Some_2 _ _ Hj1) as [a0 Ha0].
    destruct (lookup_lt_is_Some_2 _ _ Hj2) as [b0 Hb0].
    pose proof (difference_quotient_lookup eps p0 j a0 b0 Ha0 Hb0) as Hq.
    pose proof (put_column_lookup i0 _ grads j row _ Hrow Hq) as Hrow1.
    destruct (IH answers _ _ ltac:(lia) Hall Hnd Hrow1)
      as (row' & Hfill & Hlen' & Hother & Hprobed).
    exists row'. simpl. split_and!.
    + done.
    + by rewrite Hlen', length_insert.
    + intros i Hi. rewrite Hother by (intros ?; apply Hi; by right).
      apply list_lookup_insert_ne. intros ->. apply Hi. by left.
    + intros [|pos] i p Hpos Hp Hi; simpl in *.
      * injection Hpos as <-. injection Hp as <-.
        exists a0, b0. split_and!; [done..|].
        rewrite Hother by done. by apply list_lookup_insert_eq.
      * apply (Hprobed pos i p Hpos Hp). by rewrite length_insert.
Qed.

Lemma fill_length (eps : Qc) (coords : list nat)
    (answers : list (list Qc * list Qc)) (grads : list (list Qc)) :
  Forall (λ p : list Qc * list Qc,
            length p.1 = length grads ∧ length p.2 = length grads) answers →
  length (fill eps grads coords answers) = length grads.
Proof.
  revert answers grads. induction coords as [|i coords IH];
    intros [|p answers] grads Hall; simpl; try done.
  apply Forall_cons in Hall as [[H1 H2] Hall].
  assert (Hl : length (put_column i (difference_quotient eps p) grads)
               = length grads).
  { unfold put_column, difference_quotient.
    rewrite length_zip_with, length_fmap, length_zip_with. lia. }
  rewrite IH; [done|]. by rewrite Hl.
Qed.

(** C1. For a minibatch of exactly [replay_batch_size] samples whose actions
    have at least [action_n] coordinates, a critic that answers a batched
    evaluation with one value per sample, and a step [epsilon] other than 0,
    [get_action_derivative] returns; its only calls are, per action
    coordinate [i] in increasing order, one batched evaluation at the
    actions moved by [+ epsilon] along [i] and then one at the actions
    moved by [- epsilon]; the result has [action_n] rows of
    [replay_batch_size] entries, and entry [(i, j)] is
    [(q_plus_i[j] - q_minus_i[j]) / (2 * epsilon)] for the two answers to
    the calls of coordinate [i].  The trainer itself is left as it was. *)
Theorem get_action_derivative_central_difference
    (states actions : list (list Qc)) (epsilon : Qc) (w : World) :
  one_value_per_sample →
  length states = replay_batch_size (self w) →
  length actions = replay_batch_size (self w) →
  Forall (λ row : list Qc, action_n (self w) ≤ length row)%nat actions →
  epsilon ≠ 0%Qc →
  ∃ (grads : list (list Qc)) (answers : list (list Qc * list Qc)) (b : Backend),
    probe (critic (self w)) states actions epsilon (seq 0 (action_n (self w)))
          (backend w) = (answers, b) ∧
    get_action_derivative states actions epsilon w
    = (Ok grads,
       advance b (probe_calls states actions epsilon
                              (seq 0 (action_n (self w))) answers) w) ∧
    length (probe_calls states actions epsilon
                        (seq 0 (action_n (self w))) answers)
    = (2 * action_n (self w))%nat ∧
    length grads = action_n (self w) ∧
    Forall (λ row : list Qc, length row = replay_batch_size (self w)) grads ∧
    ∀ i j, (i < action_n (self w))%nat → (j < replay_batch_size (self w))%nat →
      ∃ b_plus b_minus q_plus q_minus row,
        QFunction_calculate_q_value_on_batch (critic (self w)) states
          (perturbed actions i epsilon) b_plus = (q_plus, b_minus) ∧
        (QFunction_calculate_q_value_on_batch (critic (self w)) states
          (perturbed actions i (- epsilon)) b_minus).1 = q_minus ∧
        answers !! i = Some (q_plus, q_minus) ∧
        grads !! i = Some row ∧
        ∃ a_plus a_minus,
          q_plus !! j = Some a_plus ∧ q_minus !! j = Some a_minus ∧
          row !! j = Some ((a_plus - a_minus) / (2 * epsilon))%Qc.
Proof.
  intros Hone Hstates Hactions Hcols Heps.
  set (n := action_n (self w)) in *. set (bs := replay_batch_size (self w)) in *.
  destruct (probe (critic (self w)) states actions epsilon (seq 0 n) (backend w))
    as [answers b] eqn:Hprobe.
  destruct (probe_answers (critic (self w)) states actions epsilon (seq 0 n)
              (backend w) Hone) as [Hlen Hall].
  rewrite Hprobe, length_seq in Hlen. rewrite Hprobe in Hall. simpl in Hlen, Hall.
  set (filled := fill epsilon (np.zeros2 bs n) (seq 0 n) answers).
  assert (Hfilled : length filled = bs).
  { subst filled. rewrite fill_length; unfold np.zeros2; rewrite length_replicate;
      [done|]. by rewrite <- Hstates. }
  exists (np.transpose n filled), answers, b. split_and!.
  - done.
  - unfold get_action_derivative. run. fold n bs.
    rewrite action_derivative_loop_spec; [|done| |].
    + by rewrite Hprobe.
    + unfold np.zeros2. by rewrite length_replicate.
    + apply Forall_forall. intros i Hi%elem_of_seq. split; [lia|].
      eapply Forall_impl; [exact Hcols|]. simpl. fold n. lia.
  - rewrite probe_calls_length; by rewrite length_seq.
  - unfold np.transpose. by rewrite length_fmap, length_seq.
  - unfold np.transpose. apply Forall_fmap, Forall_forall. intros i _. simpl.
    by rewrite length_fmap.
  - intros i j Hi Hj.
    destruct (lookup_lt_is_Some_2 answers i) as [[q_plus q_minus] Hp]; [lia|].
    assert (Hpos : seq 0 n !! i = Some i) by by apply lookup_seq_lt.
    destruct (probe_lookup (critic (self w)) states actions epsilon (seq 0 n)
                (backend w) i i (q_plus, q_minus) Hpos)
      as (b_plus & b_minus & Hplus & Hminus); [by rewrite Hprobe|].
    assert (Hrow0 : np.zeros2 bs n !! j = Some (replicate n 0%Qc)).
    { unfold np.zeros2. by apply lookup_replicate_2. }
    assert (Hlen2 : length answers = length (seq 0 n)) by by rewrite length_seq.
    assert (Hallj : Forall (λ p : list Qc * list Qc,
                              (j < length p.1)%nat ∧ (j < length p.2)%nat) answers).
    { eapply Forall_impl; [exact Hall|]. simpl. intros p [-> ->].
      rewrite Hstates. by split. }
    destruct (fill_lookup epsilon (seq 0 n) answers (np.zeros2 bs n) j _
                Hlen2 Hallj (NoDup_seq 0 n) Hrow0)
      as (row' & Hfill & Hlen' & _ & Hprobed).
    destruct (Hprobed i i _ Hpos Hp) as (a_plus & a_minus & Ha & Hb & Hentry).
    { by rewrite length_replicate. }
    exists b_plus, b_minus, q_plus, q_minus,
      ((λ row : list Qc, default 0%Qc (row !! i)) <$> filled).
    split_and!; [done|done|done| |].
    + unfold np.transpose. rewrite list_lookup_fmap, Hpos. done.
    + exists a_plus, a_minus. split_and!; [done..|].
      rewrite list_lookup_fmap. unfold filled. rewrite Hfill. simpl.
      by rewrite Hentry.
Qed.

(** *** The critic loop *)

Local Arguments Qcpower : simpl never.

Lemma with_critic_id (s : QuantumActorCritic) : with_critic (critic s) s = s.
Proof. by destruct s. Qed.

Lemma lookup_fmap_middle {A B : Type} (f : A → B) (l1 l2 : list A) (x : A) :
  (f <$> (l1 ++ x :: l2)) !! length l1 = Some (f x).
Proof. by rewrite list_lookup_fmap, list_lookup_middle. Qed.

Lemma getitem_fmap_middle {A B : Type} (f : A → B) (l1 l2 : list A) (x : A) :
  np.getitem (f <$> (l1 ++ x :: l2)) (length l1) = Ok (f x).
Proof. unfold np.getitem. by rewrite lookup_fmap_middle. Qed.

(** The loop over the samples [xs] that follow the samples [done], on the
    losses [pre] of those: it is [critic_pass] on [xs]. *)
Lemma train_critic_loop_spec (xs done : list (sample * list Qc))
    (pre : list Qc) (w : World) :
  length pre = length done →
  train_critic_loop
    ((λ p, s_state p.1) <$> (done ++ xs))
    ((λ p, s_next_state p.1) <$> (done ++ xs))
    ((λ p, s_action p.1) <$> (done ++ xs))
    (snd <$> (done ++ xs))
    ((λ p, s_reward p.1) <$> (done ++ xs))
    (seq (length done) (length xs))
    (pre ++ replicate (length xs) 0%Qc) w
  = (Ok (pre ++ (td_loss (small_gamma (critic (self w)))
                   <$> (critic_pass (critic_learning_rate (self w)) xs
                          (critic (self w)) (critic_target (self w))
                          (backend w)).1.1)),
     advance
       (critic_pass (critic_learning_rate (self w)) xs (critic (self w))
                    (critic_target (self w)) (backend w)).2
       (concat (calls_of_run (critic_learning_rate (self w))
                  <$> (critic_pass (critic_learning_rate (self w)) xs
                         (critic (self w)) (critic_target (self w))
                         (backend w)).1.1))
       (set_self
          (with_critic
             (critic_pass (critic_learning_rate (self w)) xs (critic (self w))
                          (critic_target (self w)) (backend w)).1.2) w)).
Proof.
  revert done pre w. induction xs as [|[x next_action] xs IH]; intros done pre w Hpre.
  - simpl. run. unfold advance, set_self. simpl.
    rewrite with_critic_id, !app_nil_r. by destruct w.
  - cbn [train_critic_loop length seq critic_pass]. run.
    rewrite !(getitem_fmap_middle _ done xs (x, next_action)). simpl.
    unfold calculate_q_value, update_weights. simpl.
    destruct (QFunction_calculate_q_value Local (critic (self w)) (s_state x)
                (s_action x) (backend w)) as [[[q spins] visible] b1].
    simpl.
    destruct (QFunction_calculate_q_value Target (critic_target (self w))
                (s_next_state x) next_action b1)
      as [[[next_q next_spins] next_visible] b2].
    simpl.
    rewrite ?(getitem_fmap_middle _ done xs (x, next_action)). simpl.
    destruct (QFunction_update_weights (critic (self w)) spins next_visible q
                next_q (s_reward x) (critic_learning_rate (self w)) b2)
      as [[new_hh new_vh] b3].
    simpl.
    rewrite ?(getitem_fmap_middle _ done xs (x, next_action)). simpl.
    unfold np.setitem. rewrite decide_True
      by (rewrite length_app, Hpre; simpl; lia).
    simpl.
    rewrite insert_app_r_alt by lia.
    replace (length done - length pre)%nat with 0%nat by lia. simpl.
    set (c1 := {| w_hh := new_hh; w_vh := new_vh;
                  small_gamma := small_gamma (critic (self w)) |}).
    set (loss := ((q - (s_reward x + small_gamma (critic (self w)) * next_q)) ^ 2)%Qc).
    set (w1 := log _ (set_backend b3 (set_self (with_critic c1) _))).
    specialize (IH (done ++ [(x, next_action)]) (pre ++ [loss]) w1
                   ltac:(rewrite !length_app; simpl; lia)).
    rewrite <- !(assoc_L (++)) in IH. simpl in IH.
    rewrite length_app in IH. simpl in IH. rewrite Nat.add_1_r in IH.
    rewrite IH.
    destruct (critic_pass (critic_learning_rate (self w)) xs c1
                (critic_target (self w)) b3) as [[runs c2] b4] eqn:Hpass.
    simpl. f_equal.
    subst w1. unfold advance, log, set_backend, set_self. simpl.
    by rewrite <- !(assoc_L (++)).
Qed.

Lemma sample_next_actions_spec (n : nat) (w : World) :
  sample_next_actions n w
  = (Ok (sampled_actions (env (self w)) n (backend w)).1,
     advance (sampled_actions (env (self w)) n (backend w)).2
             (replicate n call_action_space_sample) w).
Proof.
  revert w. induction n as [|n IH]; intros w.
  - simpl. run. unfold advance. rewrite app_nil_r. by destruct w.
  - cbn [sample_next_actions sampled_actions]. run.
    unfold env_action_space_sample. simpl.
    destruct (action_space_sample (env (self w)) (backend w)) as [a b1].
    simpl. rewrite IH. simpl.
    destruct (sampled_actions (env (self w)) n b1) as [rest b2].
    simpl. f_equal. unfold advance, log, set_backend. simpl.
    by rewrite <- (assoc_L (++)).
Qed.

Lemma sampled_actions_length (e : Env) (n : nat) (b : Backend) :
  length (sampled_actions e n b).1 = n.
Proof.
  revert b. induction n as [|n IH]; intros b; simpl; [done|].
  destruct (action_space_sample e b) as [a b1]. specialize (IH b1).
  destruct (sampled_actions e n b1) as [rest b2]. simpl in *. by rewrite IH.
Qed.

Lemma critic_pass_samples (lr : Qc) (xs : list (sample * list Qc))
    (c ct : QFunction) (b : Backend) :
  run_sample <$> (critic_pass lr xs c ct b).1.1 = xs.*1 ∧
  run_next_action <$> (critic_pass lr xs c ct b).1.1 = xs.*2.
Proof.
  revert c b. induction xs as [|[x na] xs IH]; intros c b; simpl; [done|].
  destruct (QFunction_calculate_q_value Local c (s_state x) (s_action x) b)
    as [[[q spins] visible] b1].
  destruct (QFunction_calculate_q_value Target ct (s_next_state x) na b1)
    as [[[next_q next_spins] next_visible] b2].
  destruct (QFunction_update_weights c spins next_visible q next_q (s_reward x)
              lr b2) as [[new_hh new_vh] b3].
  match goal with |- context [critic_pass lr xs ?c1 ct b3] =>
    destruct (IH c1 b3) as [IH1 IH2];
    destruct (critic_pass lr xs c1 ct b3) as [[runs c2] b4] end.
  simpl in *. split; by f_equal.
Qed.

(** Every pass of [critic_pass] is an evaluation of its sample by a local
    critic with the discount of the first one, followed by an evaluation of
    the next state and next action by the target critic. *)
Lemma critic_pass_lookup (lr : Qc) (xs : list (sample * list Qc))
    (c ct : QFunction) (b : Backend) (j : nat) (r : sample_run) :
  (critic_pass lr xs c ct b).1.1 !! j = Some r →
  ∃ c_j b_j b_j',
    small_gamma c_j = small_gamma c ∧
    QFunction_calculate_q_value Local c_j (s_state (run_sample r))
      (s_action (run_sample r)) b_j
    = (run_q r, run_spins r, run_visible r, b_j') ∧
    (QFunction_calculate_q_value Target ct (s_next_state (run_sample r))
       (run_next_action r) b_j').1
    = (run_next_q r, run_next_spins r, run_next_visible r).
Proof.
  revert c b j. induction xs as [|[x na] xs IH]; intros c b j; simpl; [done|].
  destruct (QFunction_calculate_q_value Local c (s_state x) (s_action x) b)
    as [[[q spins] visible] b1] eqn:E1.
  destruct (QFunction_calculate_q_value Target ct (s_next_state x) na b1)
    as [[[next_q next_spins] next_visible] b2] eqn:E2.
  destruct (QFunction_update_weights c spins next_visible q next_q (s_reward x)
              lr b2) as [[new_hh new_vh] b3].
  match goal with |- context [critic_pass lr xs ?c1 ct b3] =>
    specialize (IH c1 b3);
    destruct (critic_pass lr xs c1 ct b3) as [[runs c2] b4] end.
  destruct j as [|j]; simpl.
  - intros [= <-]. simpl. exists c, b, b1. by rewrite E1, E2.
  - intros Hr. destruct (IH j Hr) as (c_j & b_j & b_j' & Hg & H1 & H2).
    by exists c_j, b_j, b_j'.
Qed.

Lemma filter_update_calls (lr : Qc) (runs : list sample_run) :
  length (filter (λ e, is_update_weights e = true)
                 (concat (calls_of_run lr <$> runs))) = length runs.
Proof.
  induction runs as [|r runs IH]; simpl; [done|]. f_equal. exact IH.
Qed.

Lemma filter_sample_calls (n : nat) :
  filter (λ e, is_update_weights e = true)
         (replicate n call_action_space_sample) = [].
Proof. induction n as [|n IH]; simpl; [done|exact IH]. Qed.

Lemma fmap_fst_zip {A B C : Type} (f : A → C) (l : list A) (k : list B) :
  (length l ≤ length k)%nat → (λ p : A * B, f p.1) <$> zip l k = f <$> l.
Proof.
  intros Hlen. rewrite <- (fst_zip l k) at 2 by done.
  by rewrite <- list_fmap_compose.
Qed.

(** [train_critic] on the arrays of a minibatch, once the next actions are
    there: the world it ends in. *)
Lemma train_critic_with_next_actions (batch : list sample) (dones : list Qc)
    (next_actions : list (list Qc)) (w0 : World) :
  length next_actions = length batch →
  (q_loss_batch ← train_critic_loop (s_state <$> batch) (s_next_state <$> batch)
                   (s_action <$> batch) next_actions (s_reward <$> batch)
                   (seq 0 (length (s_state <$> batch)))
                   (replicate (length (s_state <$> batch)) 0%Qc);
   update_self (λ s, with_q_losses (q_losses s ++ [np.mean q_loss_batch]) s)) w0
  = (Ok tt,
     advance
       (critic_pass (critic_learning_rate (self w0)) (zip batch next_actions)
                    (critic (self w0)) (critic_target (self w0)) (backend w0)).2
       (concat (calls_of_run (critic_learning_rate (self w0))
                  <$> (critic_pass (critic_learning_rate (self w0))
                         (zip batch next_actions) (critic (self w0))
                         (critic_target (self w0)) (backend w0)).1.1))
       (set_self
          (λ s, with_q_losses
                  (q_losses s
                   ++ [np.mean
                         (td_loss (small_gamma (critic (self w0)))
                            <$> (critic_pass (critic_learning_rate (self w0))
                                   (zip batch next_actions) (critic (self w0))
                                   (critic_target (self w0))
                                   (backend w0)).1.1)])
                  (with_critic
                     (critic_pass (critic_learning_rate (self w0))
                        (zip batch next_actions) (critic (self w0))
                        (critic_target (self w0)) (backend w0)).1.2 s))
          w0)).
Proof.
  intros Hlen.
  pose proof (train_critic_loop_spec (zip batch next_actions) [] [] w0 eq_refl)
    as Hloop.
  simpl in Hloop.
  rewrite !fmap_fst_zip, snd_zip in Hloop by lia.
  rewrite length_zip, Hlen, Nat.min_id in Hloop.
  run. rewrite length_fmap, Hloop. simpl.
  f_equal.
Qed.

(** [train_critic] as the code has it.  For a minibatch given by the arrays
    of its samples, [train_critic]
    returns (in the learning phase provided the target actor answers with
    one action per next state) and is the ordered fold [critic_pass] over the
    samples in index order: after the next actions were obtained (one
    batched prediction of the target actor, or one [action_space.sample()]
    per next state in the random phase), it makes for each sample [j], in
    turn, one evaluation of the local critic on [(state_j, action_j)], one
    evaluation of the target critic on [(next_state_j, next_action_j)], and
    one [update_weights] with the spin configurations of the first, the
    visible nodes of the second, [q_j], [next_q_j], [reward_j] and
    [critic_learning_rate]; it appends to [q_losses] the one mean of the
    [(q_j - (reward_j + gamma * next_q_j)) ** 2]. *)
Theorem train_critic_per_sample (batch : list sample) (dones : list Qc)
    (random_phase : bool) (w : World) :
  (random_phase = false →
   length (Model_forward (actor_target (self w)) (s_next_state <$> batch))
   = length batch) →
  ∃ (next_actions : list (list Qc)) (b0 : Backend) (first_calls : list event)
    (runs : list sample_run) (c' : QFunction) (b' : Backend),
    (if random_phase
     then sampled_actions (env (self w)) (length batch) (backend w)
          = (next_actions, b0) ∧
          first_calls = replicate (length batch) call_action_space_sample
     else next_actions
          = Model_forward (actor_target (self w)) (s_next_state <$> batch) ∧
          b0 = backend w ∧
          first_calls = [call_predict_on_batch Target (s_next_state <$> batch)]) ∧
    critic_pass (critic_learning_rate (self w)) (zip batch next_actions)
                (critic (self w)) (critic_target (self w)) b0
    = (runs, c', b') ∧
    train_critic (s_state <$> batch) (s_next_state <$> batch)
                 (s_action <$> batch) (s_reward <$> batch) dones random_phase w
    = (Ok tt,
       advance b'
         (first_calls ++ concat (calls_of_run (critic_learning_rate (self w))
                                   <$> runs))
         (set_self
            (λ s, with_q_losses
                    (q_losses s
                     ++ [np.mean (td_loss (small_gamma (critic (self w)))
                                    <$> runs)])
                    (with_critic c' s)) w)) ∧
    run_sample <$> runs = batch ∧
    run_next_action <$> runs = next_actions ∧
    length (filter (λ e, is_update_weights e = true)
              (first_calls ++ concat (calls_of_run (critic_learning_rate (self w))
                                        <$> runs)))
    = length batch ∧
    ∀ j r, runs !! j = Some r →
      ∃ c_j b_j b_j',
        small_gamma c_j = small_gamma (critic (self w)) ∧
        QFunction_calculate_q_value Local c_j (s_state (run_sample r))
          (s_action (run_sample r)) b_j
        = (run_q r, run_spins r, run_visible r, b_j') ∧
        (QFunction_calculate_q_value Target (critic_target (self w))
           (s_next_state (run_sample r)) (run_next_action r) b_j').1
        = (run_next_q r, run_next_spins r, run_next_visible r).
Proof.
  intros Hactor.
  set (lr := critic_learning_rate (self w)).
  assert (Hphase : ∃ next_actions b0 first_calls,
    length next_actions = length batch ∧
    filter (λ e, is_update_weights e = true) first_calls = [] ∧
    (if random_phase
     then sampled_actions (env (self w)) (length batch) (backend w)
          = (next_actions, b0) ∧
          first_calls = replicate (length batch) call_action_space_sample
     else next_actions
          = Model_forward (actor_target (self w)) (s_next_state <$> batch) ∧
          b0 = backend w ∧
          first_calls = [call_predict_on_batch Target (s_next_state <$> batch)]) ∧
    (if random_phase
     then sample_next_actions (length (s_next_state <$> batch))
     else get_target_actions (s_next_state <$> batch)) w
    = (Ok next_actions, advance b0 first_calls w)).
  { destruct random_phase.
    - pose proof (sampled_actions_length (env (self w)) (length batch) (backend w))
        as Hl.
      pose proof (sample_next_actions_spec (length batch) w) as Hs.
      destruct (sampled_actions (env (self w)) (length batch) (backend w))
        as [next_actions b0].
      exists next_actions, b0, (replicate (length batch) call_action_space_sample).
      split_and!; [done|apply filter_sample_calls|done|done|].
      by rewrite length_fmap.
    - exists (Model_forward (actor_target (self w)) (s_next_state <$> batch)),
        (backend w), [call_predict_on_batch Target (s_next_state <$> batch)].
      split_and!; [by apply Hactor|done..]. }
  destruct Hphase as (next_actions & b0 & first_calls & Hlen & Hnone & Hdesc & Hrun).
  set (w0 := advance b0 first_calls w) in *.
  pose proof (train_critic_with_next_actions batch dones next_actions w0 Hlen)
    as Hrest.
  change (critic_learning_rate (self w0)) with lr in Hrest.
  change (critic (self w0)) with (critic (self w)) in Hrest.
  change (critic_target (self w0)) with (critic_target (self w)) in Hrest.
  change (backend w0) with b0 in Hrest.
  destruct (critic_pass_samples lr (zip batch next_actions) (critic (self w))
              (critic_target (self w)) b0) as [Hs1 Hs2].
  pose proof (critic_pass_lookup lr (zip batch next_actions) (critic (self w))
                (critic_target (self w)) b0) as Hlook.
  destruct (critic_pass lr (zip batch next_actions) (critic (self w))
              (critic_target (self w)) b0) as [[runs c'] b'] eqn:Hpass.
  simpl in Hrest, Hs1, Hs2, Hlook.
  exists next_actions, b0, first_calls, runs, c', b'.
  split_and!; [done|done| | | | |done].
  - unfold train_critic. rewrite bind_run, Hrun, Hrest.
    f_equal. subst w0. unfold advance, set_self. simpl.
    by rewrite (assoc_L (++)).
  - rewrite Hs1. apply fst_zip. lia.
  - rewrite Hs2. apply snd_zip. lia.
  - rewrite filter_app, Hnone. simpl. rewrite filter_update_calls.
    rewrite <- (length_fmap run_sample), Hs1, fst_zip by lia. done.
Qed.

(** *** The calls of each stage of [train] *)

Lemma emits_ret {A : Type} (P : event → bool) (a : A) : emits P (mret a).
Proof. intros w r w' [= <- <-]. exists []. by rewrite app_nil_r. Qed.

Lemma emits_lift {A : Type} (P : event → bool) (x : result A) : emits P (lift x).
Proof. intros w r w' [= <- <-]. exists []. by rewrite app_nil_r. Qed.

Lemma emits_get_self (P : event → bool) : emits P get_self.
Proof. intros w r w' [= <- <-]. exists []. by rewrite app_nil_r. Qed.

Lemma emits_update_self (P : event → bool) f : emits P (update_self f).
Proof. intros w r w' [= <- <-]. exists []. simpl. by rewrite app_nil_r. Qed.

Lemma emits_bind {A B : Type} (P : event → bool) (m : M A) (f : A → M B) :
  emits P m → (∀ a, emits P (f a)) → emits P (m ≫= f).
Proof.
  intros Hm Hf w r w'. rewrite bind_run.
  destruct (m w) as [[a|e] w1] eqn:Hrun.
  - intros Hrest. destruct (Hm _ _ _ Hrun) as (l1 & Ht1 & Hl1).
    destruct (Hf a _ _ _ Hrest) as (l2 & Ht2 & Hl2).
    exists (l1 ++ l2). rewrite Ht2, Ht1, (assoc_L (++)). split; [done|].
    by apply Forall_app.
  - intros [= <- <-]. by apply (Hm _ _ _ Hrun).
Qed.

Lemma emits_calculate_q_value (who : net) (state action : list Qc) :
  emits is_critic_training_call (calculate_q_value who state action).
Proof.
  intros w r w'. unfold calculate_q_value.
  destruct (QFunction_calculate_q_value _ _ _ _ _) as [[[q spins] visible] b].
  intros [= <- <-]. eexists [_]. simpl. split; [done|]. by constructor.
Qed.

Lemma emits_update_weights spins visible q next_q reward lr :
  emits is_critic_training_call (update_weights spins visible q next_q reward lr).
Proof.
  intros w r w'. unfold update_weights.
  destruct (QFunction_update_weights _ _ _ _ _ _ _ _) as [[new_hh new_vh] b].
  intros [= <- <-]. eexists [_]. simpl. split; [done|]. by constructor.
Qed.

Lemma emits_sample_next_actions (n : nat) :
  emits is_critic_training_call (sample_next_actions n).
Proof.
  intros w r w'. rewrite sample_next_actions_spec. intros [= <- <-].
  eexists. split; [done|]. by apply Forall_replicate.
Qed.

Lemma emits_get_target_actions (states : list (list Qc)) :
  emits is_critic_training_call (get_target_actions states).
Proof.
  intros w r w' [= <- <-]. eexists [_]. simpl. split; [done|]. by constructor.
Qed.

Lemma emits_train_critic_loop states next_states actions next_actions rewards
    (js : list nat) (q_loss_batch : list Qc) :
  emits is_critic_training_call
    (train_critic_loop states next_states actions next_actions rewards js
                       q_loss_batch).
Proof.
  revert q_loss_batch. induction js as [|jj js IH]; intros q_loss_batch.
  - apply emits_ret.
  - cbn [train_critic_loop].
    repeat first
      [ apply emits_bind; [|intros ?]
      | apply emits_lift | apply emits_get_self | apply emits_calculate_q_value
      | apply emits_update_weights | apply IH
      | match goal with |- emits _ (let '(_, _) := ?p in _) => destruct p end ].
Qed.

Lemma emits_train_critic states next_states actions rewards dones random_phase :
  emits is_critic_training_call
    (train_critic states next_states actions rewards dones random_phase).
Proof.
  unfold train_critic. apply emits_bind; [|intros next_actions].
  - destruct random_phase;
      [apply emits_sample_next_actions|apply emits_get_target_actions].
  - apply emits_bind; [apply emits_train_critic_loop|intros ?].
    apply emits_update_self.
Qed.






(** The two critic loops of the synchronizer make no call and touch nothing
    but the target critic. *)
Lemma soft_update_loop_frame (c : couplings) (ks : list key) (w w' : World)
    (r : result unit) :
  soft_update_loop c ks w = (r, w') →
  trace w' = trace w ∧
  actor (self w') = actor (self w) ∧
  actor_target (self w') = actor_target (self w) ∧
  tau_soft_update (self w') = tau_soft_update (self w).
Proof.
  revert w. induction ks as [|k ks IH]; intros w.
  - by intros [= <- <-].
  - cbn [soft_update_loop]. run.
    destruct (dict_get (get_w c (critic (self w))) k) as [l|]; simpl;
      [|by intros [= <- <-]].
    destruct (dict_get (get_w c (critic_target (self w))) k) as [t|]; simpl;
      [|by intros [= <- <-]].
    intros Hrest. by destruct (IH _ Hrest) as (-> & -> & -> & ->).
Qed.



(** C9. [train_critic] does not read [dones]: two calls that differ in
    [dones] only end in the same world (same weights of the critic, same
    calls with the same arguments, same [q_losses]) with the same outcome,
    in the learning and in the random phase; and [train] is what it would
    be with the [dones] of its minibatch erased.  In particular, for samples
    all flagged terminal the loss appended is still the mean of the
    [(q_j - (reward_j + gamma * next_q_j)) ** 2] with [next_q_j] the target
    critic's answer. *)
Theorem train_critic_ignores_dones :
  (∀ (states next_states actions : list (list Qc)) (rewards dones dones' : list Qc)
     (random_phase : bool) (w : World),
     train_critic states next_states actions rewards dones random_phase w
     = train_critic states next_states actions rewards dones' random_phase w) ∧
  (∀ w : World,
     train w
     = match get_sample (replay_batch_size (self w)) w with
       | (Ok (states, actions, rewards, next_states, _), w0) =>
           (_ ← train_critic states next_states actions rewards [] false;
            _ ← train_actor states actions;
            _soft_update_actor_and_critic) w0
       | (Raise e, w0) => (Raise e, w0)
       end) ∧
  (∀ (batch : list sample) (w : World),
     length (Model_forward (actor_target (self w)) (s_next_state <$> batch))
     = length batch →
     ∃ w',
       train_critic (s_state <$> batch) (s_next_state <$> batch)
                    (s_action <$> batch) (s_reward <$> batch)
                    (replicate (length batch) 1%Qc) false w = (Ok tt, w') ∧
       q_losses (self w')
       = q_losses (self w)
         ++ [np.mean
               (td_loss (small_gamma (critic (self w)))
                  <$> (critic_pass (critic_learning_rate (self w))
                         (zip batch (Model_forward (actor_target (self w))
                                       (s_next_state <$> batch)))
                         (critic (self w)) (critic_target (self w))
                         (backend w)).1.1)]).
Proof.
  split_and!.
  - intros. unfold train_critic. done.
  - intros w. unfold train. rewrite bind_run. simpl. rewrite bind_run.
    by destruct (get_sample _ w)
      as [[[[[[states actions] rewards] next_states] dones]|e] w0].
  - intros batch w Hlen.
    set (next_actions := Model_forward (actor_target (self w))
                           (s_next_state <$> batch)) in *.
    set (w0 := log (call_predict_on_batch Target (s_next_state <$> batch)) w).
    pose proof (train_critic_with_next_actions batch
                  (replicate (length batch) 1%Qc) next_actions w0 Hlen) as Hrest.
    eexists. split.
    + unfold train_critic. rewrite bind_run. simpl. fold next_actions w0.
      exact Hrest.
    + done.
Qed.

(** *** Construction, beyond the key sets *)

Lemma foldl_maximum_ge_elem (x y : Qc) (rest : list Qc) :
  y ∈ rest → (y ≤ foldl np.maximum x rest)%Qc.
Proof.
  revert x. induction rest as [|z rest IH]; intros x Hy;
    [by apply elem_of_nil in Hy|].
  apply elem_of_cons in Hy as [->|Hy]; simpl.
  - eapply Qcle_trans; [apply (maximum_ge_r x z)|apply foldl_maximum_ge].
  - by apply IH.
Qed.

Lemma foldl_maximum_elem (x : Qc) (rest : list Qc) :
  foldl np.maximum x rest ∈ x :: rest.
Proof.
  revert x. induction rest as [|z rest IH]; intros x; simpl; [by left|].
  specialize (IH (np.maximum x z)).
  apply elem_of_cons in IH as [->|IH].
  - unfold np.maximum. case_decide; [right; left|left].
  - by right; right.
Qed.

Lemma py_max_spec (xs : list Qc) (m : Qc) :
  np.py_max xs = Ok m → m ∈ xs ∧ ∀ y, y ∈ xs → (y ≤ m)%Qc.
Proof.
  destruct xs as [|x rest]; simpl; [done|]. intros [= <-].
  split; [apply foldl_maximum_elem|].
  intros y [->|Hy]%elem_of_cons;
    [apply foldl_maximum_ge|by apply foldl_maximum_ge_elem].
Qed.

Lemma py_max_outcome (xs : list Qc) :
  match np.py_max xs with
  | Ok _ => xs ≠ []
  | Raise e => xs = [] ∧ e = ValueError
  end.
Proof. by destruct xs. Qed.

Lemma getitem_0_outcome {A : Type} (l : list A) :
  match np.getitem l 0 with
  | Ok _ => l ≠ []
  | Raise e => l = [] ∧ e = IndexError
  end.
Proof. by destruct l. Qed.

Lemma compute_action_limit_outcome (e : Env) :
  match compute_action_limit e with
  | Ok _ => action_space_high e ≠ [] ∧ action_space_low e ≠ []
  | Raise err =>
      (action_space_high e = [] ∨ action_space_low e = []) ∧ err = ValueError
  end.
Proof.
  unfold compute_action_limit.
  pose proof (py_max_outcome (Qcabs <$> action_space_high e)) as Hhi.
  pose proof (py_max_outcome (Qcabs <$> action_space_low e)) as Hlo.
  destruct (np.py_max (Qcabs <$> action_space_high e)) as [hi|err1]; simpl.
  - destruct (np.py_max (Qcabs <$> action_space_low e)) as [lo|err2]; simpl.
    + split; intros Heq; [apply Hhi|apply Hlo]; by rewrite Heq.
    + destruct Hlo as [Hlo ->]. split; [right|done].
      by apply fmap_nil_inv in Hlo.
  - destruct Hhi as [Hhi ->]. split; [left|done]. by apply fmap_nil_inv in Hhi.
Qed.

Lemma compute_action_limit_spec (e : Env) (limit : Qc) :
  compute_action_limit e = Ok limit →
  (∀ b, b ∈ action_space_high e ∨ b ∈ action_space_low e →
        (Qcabs b ≤ limit)%Qc) ∧
  ∃ b, (b ∈ action_space_high e ∨ b ∈ action_space_low e) ∧ limit = Qcabs b.
Proof.
  unfold compute_action_limit.
  destruct (np.py_max (Qcabs <$> action_space_high e)) as [hi|] eqn:Hhi; [|done].
  destruct (np.py_max (Qcabs <$> action_space_low e)) as [lo|] eqn:Hlo; [|done].
  simpl. intros [= <-].
  apply py_max_spec in Hhi as [Hhi_in Hhi]. apply py_max_spec in Hlo as [Hlo_in Hlo].
  split.
  - intros b [Hb|Hb].
    + eapply Qcle_trans; [|apply maximum_ge_l].
      apply Hhi. apply list_elem_of_fmap. by exists b.
    + eapply Qcle_trans; [|apply maximum_ge_r].
      apply Hlo. apply list_elem_of_fmap. by exists b.
  - unfold np.maximum. case_decide.
    + apply list_elem_of_fmap in Hlo_in as (b & -> & Hb). exists b. by split; [right|].
    + apply list_elem_of_fmap in Hhi_in as (b & -> & Hb). exists b. by split; [left|].
Qed.

Lemma copy_loop_own_keys (local target : gmap key Qc) :
  ∃ m, copy_loop local (keys local) target = Ok m ∧
       ∀ k, m !! k = match local !! k with
                     | Some x => Some x
                     | None => target !! k
                     end.
Proof.
  destruct (copy_loop_spec local (keys local) target) as (m & Hm & Hlook).
  { by intros k ?%elem_of_keys. }
  exists m. split; [done|]. intros k. rewrite Hlook.
  destruct (decide (k ∈ keys local)) as [Hin|Hnin].
  - apply elem_of_keys in Hin as [x Hx]. by rewrite Hx.
  - rewrite elem_of_keys in Hnin.
    by destruct (local !! k) as [x|] eqn:Hx; [destruct Hnin; eauto|].
Qed.

(** X5. [__init__] returns exactly when the action space has a shape, upper
    and lower bounds with at least one entry each, and the observation space
    a shape.  Otherwise it raises: IndexError from [action_space.shape[0]]
    on an empty shape; else ValueError from [max] on empty bounds; else
    IndexError from [state_dim[0]], after the four networks were built.  It
    never raises KeyError: the synchronization loops read the local critic
    at its own keys only. *)
Theorem init_outcome (e : Env) (gamma : Qc) (batch_size : nat)
    (noise_scale tau critic_lr actor_lr : Qc) (annealing_steps anneals : nat)
    (g : np.RandomState) (b0 : Backend) :
  match __init__ e gamma batch_size noise_scale tau critic_lr actor_lr
                 annealing_steps anneals g b0 with
  | Ok w =>
      action_space_shape e ≠ [] ∧ action_space_high e ≠ [] ∧
      action_space_low e ≠ [] ∧ observation_space_shape e ≠ []
  | Raise IndexError =>
      action_space_shape e = [] ∨
      (action_space_high e ≠ [] ∧ action_space_low e ≠ [] ∧
       observation_space_shape e = [])
  | Raise ValueError =>
      action_space_shape e ≠ [] ∧
      (action_space_high e = [] ∨ action_space_low e = [])
  | Raise _ => False
  end.
Proof.
  unfold __init__, _generate_critic_net.
  pose proof (getitem_0_outcome (action_space_shape e)) as Hshape.
  destruct (np.getitem (action_space_shape e) 0) as [n|err]; simpl;
    [|destruct Hshape as [Hshape ->]; by left].
  pose proof (compute_action_limit_outcome e) as Hlimit.
  destruct (compute_action_limit e) as [limit|err]; simpl;
    [|by destruct Hlimit as [Hlimit ->]].
  destruct Hlimit as [Hhigh Hlow].
  destruct (QFunction_init e gamma annealing_steps anneals b0)
    as [[hh1 vh1] b1].
  destruct (QFunction_init e gamma annealing_steps anneals b1)
    as [[hh2 vh2] b2].
  destruct (Model_init _ n actor_lr b2) as [a b3].
  destruct (Model_init _ n actor_lr b3) as [a' b4].
  simpl.
  destruct (copy_loop_own_keys hh1 hh2) as (c_hh & -> & _).
  destruct (copy_loop_own_keys vh1 vh2) as (c_vh & -> & _).
  simpl.
  pose proof (getitem_0_outcome (observation_space_shape e)) as Hobs.
  destruct (np.getitem (observation_space_shape e) 0) as [d0|err]; simpl.
  - by destruct (Memory_init d0 n _ b4) as [mem b5].
  - destruct Hobs as [Hobs ->]. by right.
Qed.

(** X6. The [action_limit] that [__init__] computes is the radius of the
    smallest interval [[-r, r]] that holds every declared bound: it is not
    negative, it is the absolute value of one of the declared bounds, and
    every action that respects the declared bounds of its coordinate lies
    in [[-action_limit, action_limit]], so the clip of [get_action] never
    moves an action the environment accepts. *)
Theorem init_action_limit_covers_declared_bounds (e : Env) (gamma : Qc)
    (batch_size : nat) (noise_scale tau critic_lr actor_lr : Qc)
    (annealing_steps anneals : nat) (g : np.RandomState) (b0 : Backend)
    (w : World) :
  __init__ e gamma batch_size noise_scale tau critic_lr actor_lr
           annealing_steps anneals g b0 = Ok w →
  (0 ≤ action_limit (self w))%Qc ∧
  (∃ b, (b ∈ action_space_high e ∨ b ∈ action_space_low e) ∧
        action_limit (self w) = Qcabs b) ∧
  ∀ i lo hi x,
    action_space_low e !! i = Some lo → action_space_high e !! i = Some hi →
    (lo ≤ x)%Qc → (x ≤ hi)%Qc →
    (- action_limit (self w) ≤ x)%Qc ∧ (x ≤ action_limit (self w))%Qc ∧
    np.clip1 x (- action_limit (self w))%Qc (action_limit (self w)) = x.
Proof.
  intros Hinit.
  destruct (init_inv _ _ _ _ _ _ _ _ _ _ _ _ Hinit)
    as (_ & _ & _ & _ & Hlimit & _).
  pose proof (compute_action_limit_nonneg _ _ Hlimit) as Hpos.
  destruct (compute_action_limit_spec _ _ Hlimit) as [Hall Hex].
  split_and!; [done|done|].
  intros i lo hi x Hlo Hhi Hlox Hxhi.
  assert (H1 : (- action_limit (self w) ≤ x)%Qc).
  { eapply Qcle_trans; [|exact Hlox].
    eapply Qcle_trans; [apply Qcopp_le_compat, (Hall lo)|].
    - right. by eapply list_elem_of_lookup_2.
    - rewrite <- (Qcopp_involutive lo) at 2. apply Qcopp_le_compat.
      rewrite <- (Qcabs_opp lo). apply Qcle_Qcabs. }
  assert (H2 : (x ≤ action_limit (self w))%Qc).
  { eapply Qcle_trans; [exact Hxhi|].
    eapply Qcle_trans; [apply Qcle_Qcabs|apply (Hall hi)].
    left. by eapply list_elem_of_lookup_2. }
  split_and!; [done..|].
  unfold np.clip1, np.maximum, np.minimum.
  destruct (decide (x < - action_limit (self w))%Qc) as [Hlt|_].
  { by apply Qclt_not_le in Hlt. }
  destruct (decide (x < action_limit (self w))%Qc) as [_|Hge]; [done|].
  apply Qcnot_lt_le in Hge. by apply Qcle_antisym.
Qed.

(** X7. With no assumption on the critic's constructor: in the trainer
    [__init__] returns, the target critic has every key of the local critic
    and holds the local critic's value there (at a key the local critic
    lacks it keeps its own random coupling), the target actor has the local
    actor's weights, both critics discount with [gamma_rl], no loss is
    recorded, and the only calls that reached the actors are the
    [get_weights] of the local one and the [set_weights] of the target. *)
Theorem init_synchronises_targets (e : Env) (gamma : Qc)
    (batch_size : nat) (noise_scale tau critic_lr actor_lr : Qc)
    (annealing_steps anneals : nat) (g : np.RandomState) (b0 : Backend)
    (w : World) :
  __init__ e gamma batch_size noise_scale tau critic_lr actor_lr
           annealing_steps anneals g b0 = Ok w →
  synchronised (self w) ∧
  target_has_local_keys (self w) ∧
  (∀ c k, get_w c (critic (self w)) !! k = None →
          get_w c (critic_target (self w)) !! k
          = get_w c (_generate_critic_net e gamma annealing_steps anneals
                       (_generate_critic_net e gamma annealing_steps anneals
                          b0).2).1 !! k) ∧
  small_gamma (critic (self w)) = gamma ∧
  small_gamma (critic_target (self w)) = gamma ∧
  q_losses (self w) = [] ∧
  trace w = [call_get_weights Local;
             call_set_weights Target (weights (actor (self w)))].
Proof.
  unfold __init__, _generate_critic_net.
  destruct (np.getitem (action_space_shape e) 0) as [n|]; [|done].
  destruct (compute_action_limit e) as [limit|]; [|done].
  simpl.
  destruct (QFunction_init e gamma annealing_steps anneals b0)
    as [[hh1 vh1] b1].
  destruct (QFunction_init e gamma annealing_steps anneals b1)
    as [[hh2 vh2] b2] eqn:E2.
  destruct (Model_init _ n actor_lr b2) as [a b3].
  destruct (Model_init _ n actor_lr b3) as [a' b4].
  simpl.
  destruct (copy_loop_own_keys hh1 hh2) as (c_hh & -> & Hhh).
  destruct (copy_loop_own_keys vh1 vh2) as (c_vh & -> & Hvh).
  simpl.
  destruct (np.getitem (observation_space_shape e) 0) as [d0|]; [|done].
  simpl. destruct (Memory_init d0 n _ b4) as [mem b5].
  intros [= <-]. simpl.
  split_and!; try done.
  - split; [|done]. intros [] k x Hx; simpl in *.
    + by rewrite Hhh, Hx.
    + by rewrite Hvh, Hx.
  - split; simpl; intros k [x Hx]%elem_of_dom; apply elem_of_dom.
    + rewrite Hhh, Hx. eauto.
    + rewrite Hvh, Hx. eauto.
  - intros [] k Hk; simpl in *; rewrite E2; simpl.
    + by rewrite Hhh, Hk.
    + by rewrite Hvh, Hk.
Qed.

(** *** The synchronizer: when it raises KeyError *)

(** [blend] returns exactly on two snapshots of one shape, and raises
    nothing but ValueError. *)
Lemma blend_outcome (tau : Qc) (local target : list (list Qc)) :
  match blend tau local target with
  | Ok z => same_shape local target ∧
            z = zip_with (zip_with (polyak tau)) local target
  | Raise e => ¬ same_shape local target ∧ e = ValueError
  end.
Proof.
  revert target. induction local as [|x local IH]; intros [|y target]; simpl.
  - split; [constructor|done].
  - split; [|done]. by intros ?%Forall2_nil_cons_inv.
  - split; [|done]. by intros ?%Forall2_cons_nil_inv.
  - unfold np.blend1. destruct (decide (length x = length y)) as [Hxy|Hxy]; simpl.
    + specialize (IH target). destruct (blend tau local target) as [z|e]; simpl.
      * destruct IH as [Hs ->]. split; [by constructor|done].
      * destruct IH as [Hs ->]. split; [|done].
        by intros [_ ?]%Forall2_cons_1.
    + split; [|done]. by intros [? _]%Forall2_cons_1.
Qed.

Lemma soft_update_loop_critic (c : couplings) (ks : list key) (w w' : World)
    (r : result unit) :
  soft_update_loop c ks w = (r, w') →
  critic (self w') = critic (self w) ∧
  (∀ c', c' ≠ c →
         get_w c' (critic_target (self w')) = get_w c' (critic_target (self w))).
Proof.
  revert w. induction ks as [|k ks IH]; intros w.
  - by intros [= <- <-].
  - cbn [soft_update_loop]. run.
    destruct (dict_get (get_w c (critic (self w))) k) as [l|]; simpl;
      [|by intros [= <- <-]].
    destruct (dict_get (get_w c (critic_target (self w))) k) as [t|]; simpl;
      [|by intros [= <- <-]].
    intros Hrest. destruct (IH _ Hrest) as [-> Hother]. split; [done|].
    intros c' Hc'. rewrite (Hother c' Hc'). simpl. by destruct c, c'.
Qed.

(** The loops raise nothing but KeyError. *)
Lemma soft_update_loop_raises (c : couplings) (ks : list key) (w w' : World)
    (e : exn) :
  soft_update_loop c ks w = (Raise e, w') → e = KeyError.
Proof.
  revert w. induction ks as [|k ks IH]; intros w; [done|].
  cbn [soft_update_loop]. run. unfold dict_get.
  destruct (get_w c (critic (self w)) !! k); simpl; [|by intros [= <-]].
  destruct (get_w c (critic_target (self w)) !! k); simpl; [|by intros [= <-]].
  apply IH.
Qed.

(** The loop stops with KeyError at the first key the target lacks. *)
Lemma soft_update_loop_missing (c : couplings) (ks : list key) (w : World) :
  (∀ k, k ∈ ks → is_Some (get_w c (critic (self w)) !! k)) →
  (∃ k, k ∈ ks ∧ get_w c (critic_target (self w)) !! k = None) →
  ∃ w', soft_update_loop c ks w = (Raise KeyError, w').
Proof.
  revert w. induction ks as [|k ks IH]; intros w Hlocal (k0 & Hin & Hnone).
  - by apply elem_of_nil in Hin.
  - destruct (Hlocal k) as [l Hl]; [by left|].
    cbn [soft_update_loop]. run. unfold dict_get. rewrite Hl. simpl.
    destruct (get_w c (critic_target (self w)) !! k) as [t|] eqn:Ht; simpl;
      [|by eexists].
    apply IH.
    + intros k' Hk'. simpl. apply Hlocal. by right.
    + exists k0. simpl. rewrite get_set_w.
      apply elem_of_cons in Hin as [->|Hin]; [congruence|].
      split; [done|]. rewrite lookup_insert_ne; [done|]. by intros ->; congruence.
Qed.

Lemma missing_key (local target : gmap key Qc) :
  ¬ dom local ⊆ dom target →
  ∃ k, k ∈ keys local ∧ target !! k = None.
Proof.
  intros Hsub.
  destruct (decide (Forall (λ k, is_Some (target !! k)) (keys local)))
    as [Hall|Hnot].
  - destruct Hsub. intros k Hk%elem_of_dom%elem_of_keys.
    apply elem_of_dom. by eapply Forall_forall in Hall.
  - apply not_Forall_Exists in Hnot; [|apply _].
    apply Exists_exists in Hnot as (k & Hk & Hnone). exists k. split; [done|].
    simpl in Hnone. by apply eq_None_not_Some.
Qed.

(** The run of the synchronizer, loop by loop. *)
Lemma soft_update_unfold (w : World) :
  _soft_update_actor_and_critic w
  = match soft_update_loop hh (keys (w_hh (critic (self w)))) w with
    | (Raise e, w1) => (Raise e, w1)
    | (Ok _, w1) =>
        match soft_update_loop vh (keys (w_vh (critic (self w1)))) w1 with
        | (Raise e, w2) => (Raise e, w2)
        | (Ok _, w2) =>
            let w3 := log (call_get_weights Target)
                          (log (call_get_weights Local) w2) in
            match blend (tau_soft_update (self w2)) (weights (actor (self w2)))
                        (weights (actor_target (self w2))) with
            | Ok z => (Ok tt, log (call_set_weights Target z)
                                  (set_self (with_actor_target {| weights := z |})
                                            w3))
            | Raise e => (Raise e, w3)
            end
        end
    end.
Proof.
  unfold _soft_update_actor_and_critic. run.
  destruct (soft_update_loop hh _ w) as [[[]|e] w1]; [|done].
  destruct (soft_update_loop vh _ w1) as [[[]|e] w2]; [|done].
  unfold get_weights, set_weights. simpl.
  by destruct (blend _ _ _).
Qed.

(** X10. The synchronizer raises KeyError exactly when the target critic
    lacks a key of the local critic, in [w_hh] or in [w_vh].  When it does,
    it has made no call, and has left the local critic and both actors as
    they were. *)
Theorem soft_update_raises_KeyError_iff (w : World) :
  ((_soft_update_actor_and_critic w).1 = Raise KeyError
   ↔ ¬ target_has_local_keys (self w)) ∧
  ((_soft_update_actor_and_critic w).1 = Raise KeyError →
   trace (_soft_update_actor_and_critic w).2 = trace w ∧
   critic (self (_soft_update_actor_and_critic w).2) = critic (self w) ∧
   actor (self (_soft_update_actor_and_critic w).2) = actor (self w) ∧
   actor_target (self (_soft_update_actor_and_critic w).2)
   = actor_target (self w)).
Proof.
  assert (Hno : target_has_local_keys (self w) →
                (_soft_update_actor_and_critic w).1 ≠ Raise KeyError).
  { intros [Hhh Hvh].
    destruct (soft_update_run w Hhh Hvh) as (m_hh & m_vh & _ & _ & Hrun).
    simpl in Hrun. rewrite Hrun.
    pose proof (blend_outcome (tau_soft_update (self w))
                  (weights (actor (self w))) (weights (actor_target (self w))))
      as Hb.
    destruct (blend _ _ _) as [z|e]; simpl; [done|]. by destruct Hb as [_ ->]. }
  rewrite soft_update_unfold.
  destruct (soft_update_loop hh (keys (w_hh (critic (self w)))) w)
    as [[[]|e1] w1] eqn:Hloop1.
  - destruct (soft_update_loop_frame _ _ _ _ _ Hloop1) as (Ht1 & Ha1 & Hat1 & _).
    destruct (soft_update_loop_critic _ _ _ _ _ Hloop1) as (Hc1 & Hother1).
    destruct (soft_update_loop vh (keys (w_vh (critic (self w1)))) w1)
      as [[[]|e2] w2] eqn:Hloop2.
    + simpl.
      assert (Hok : (match blend (tau_soft_update (self w2))
                             (weights (actor (self w2)))
                             (weights (actor_target (self w2))) with
                     | Ok z => (Ok tt, log (call_set_weights Target z)
                                  (set_self (with_actor_target {| weights := z |})
                                     (log (call_get_weights Target)
                                        (log (call_get_weights Local) w2))))
                     | Raise e => (Raise e, log (call_get_weights Target)
                                              (log (call_get_weights Local) w2))
                     end).1 ≠ Raise KeyError).
      { pose proof (blend_outcome (tau_soft_update (self w2))
                      (weights (actor (self w2)))
                      (weights (actor_target (self w2)))) as Hb.
        destruct (blend _ _ _) as [z|e]; simpl; [done|]. by destruct Hb as [_ ->]. }
      split; [|done]. split; [done|]. intros Hmiss. exfalso.
      destruct (decide (dom (w_hh (critic (self w)))
                        ⊆ dom (w_hh (critic_target (self w))))) as [Hhh|Hhh].
      * destruct (decide (dom (w_vh (critic (self w)))
                          ⊆ dom (w_vh (critic_target (self w))))) as [Hvh|Hvh];
          [by destruct Hmiss|].
        apply missing_key in Hvh as (k & Hk & Hnone).
        destruct (soft_update_loop_missing vh (keys (w_vh (critic (self w1)))) w1)
          as (w' & Hraise).
        { intros k' Hk'. by apply elem_of_keys. }
        { exists k. rewrite Hc1. split; [done|].
          by rewrite (Hother1 vh). }
        congruence.
      * apply missing_key in Hhh as (k & Hk & Hnone).
        destruct (soft_update_loop_missing hh (keys (w_hh (critic (self w)))) w)
          as (w' & Hraise).
        { intros k' Hk'. by apply elem_of_keys. }
        { by exists k. }
        congruence.
    + destruct (soft_update_loop_frame _ _ _ _ _ Hloop2) as (Ht2 & Ha2 & Hat2 & _).
      destruct (soft_update_loop_critic _ _ _ _ _ Hloop2) as (Hc2 & _).
      simpl. split.
      * split.
        -- intros [= ->] Hkeys. apply (Hno Hkeys).
           by rewrite soft_update_unfold, Hloop1, Hloop2.
        -- intros Hmiss. by rewrite (soft_update_loop_raises _ _ _ _ _ Hloop2).
      * intros _. by rewrite Ht2, Ht1, Hc2, Hc1, Ha2, Ha1, Hat2, Hat1.
  - simpl.
    destruct (soft_update_loop_frame _ _ _ _ _ Hloop1) as (Ht1 & Ha1 & Hat1 & _).
    destruct (soft_update_loop_critic _ _ _ _ _ Hloop1) as (Hc1 & _).
    split; [|done]. split.
    + intros [= ->] Hkeys. apply (Hno Hkeys).
      by rewrite soft_update_unfold, Hloop1.
    + intros _. by rewrite (soft_update_loop_raises _ _ _ _ _ Hloop1).
Qed.

(** *** [get_action]: its failures, and the noise it adds *)

Lemma Qc_of_Z_zero (z : Z) : Qc_of_Z z = 0%Qc ↔ z = 0%Z.
Proof.
  split; [|intros ->; by apply Qc_is_canon].
  intros Hz. apply (f_equal this) in Hz. simpl in Hz. by injection Hz.
Qed.

Lemma iadd_outcome (row v : list Qc) :
  match np.iadd row v with
  | Ok row' => (length v = length row ∨ length v = 1%nat) ∧
               length row' = length row
  | Raise e => length v ≠ length row ∧ length v ≠ 1%nat ∧ e = ValueError
  end.
Proof.
  unfold np.iadd. destruct (decide (length v = length row)) as [Hlen|Hlen].
  - split; [by left|]. rewrite length_zip_with. lia.
  - destruct v as [|x [|y v]]; simpl in *; try done.
    split; [by right|]. by rewrite length_fmap.
Qed.

Lemma iadd_rows_outcome (a : list (list Qc)) (v : list Qc) :
  match np.iadd_rows a v with
  | Ok a' => Forall (λ row : list Qc,
                       length v = length row ∨ length v = 1%nat) a ∧
             length a' = length a
  | Raise e => Exists (λ row : list Qc,
                         length v ≠ length row ∧ length v ≠ 1%nat) a ∧
               e = ValueError
  end.
Proof.
  induction a as [|row a IH]; simpl; [by split|].
  pose proof (iadd_outcome row v) as Hrow.
  destruct (np.iadd row v) as [row'|e]; simpl.
  - destruct Hrow as [Hrow _].
    destruct (np.iadd_rows a v) as [a'|e]; simpl.
    + destruct IH as [Hall Hlen]. split; [by constructor|]. simpl. by rewrite Hlen.
    + destruct IH as [Hex ->]. split; [by right|done].
  - destruct Hrow as (H1 & H2 & ->). split; [by left|done].
Qed.

Lemma iadd_rows_same_width (a : list (list Qc)) (v : list Qc) :
  Forall (λ row : list Qc, length row = length v) a →
  np.iadd_rows a v = Ok ((λ row : list Qc, zip_with Qcplus row v) <$> a).
Proof.
  induction 1 as [|row a Hrow _ IH]; simpl; [done|].
  unfold np.iadd. rewrite decide_True by done. simpl. by rewrite IH.
Qed.

(** X12. How [get_action] ends, for a noise (the argument, or
    [action_noise_scale] when it is None) and an episode.  With noise 0 it
    returns the prediction.  Otherwise it raises ZeroDivisionError exactly
    when the episode is 0, and else ValueError exactly when some row of the
    prediction cannot take the [action_n] noise values (its width is not
    [action_n], and [action_n] is not 1); in every other case it returns as
    many rows as the actor predicted. *)
Theorem get_action_outcome (states : ndarray) (noise : option Qc)
    (episode : Z) (w : World) :
  match (get_action states noise episode w).1 with
  | Ok action =>
      (default (action_noise_scale (self w)) noise = 0%Qc ∧
       action = Model_forward (actor (self w)) (promoted states)) ∨
      (default (action_noise_scale (self w)) noise ≠ 0%Qc ∧ episode ≠ 0%Z ∧
       Forall (λ row : list Qc, action_n (self w) = length row ∨
                                action_n (self w) = 1%nat)
              (Model_forward (actor (self w)) (promoted states)) ∧
       length action
       = length (Model_forward (actor (self w)) (promoted states)))
  | Raise ZeroDivisionError =>
      default (action_noise_scale (self w)) noise ≠ 0%Qc ∧ episode = 0%Z
  | Raise ValueError =>
      default (action_noise_scale (self w)) noise ≠ 0%Qc ∧ episode ≠ 0%Z ∧
      Exists (λ row : list Qc, action_n (self w) ≠ length row ∧
                               action_n (self w) ≠ 1%nat)
             (Model_forward (actor (self w)) (promoted states))
  | Raise _ => False
  end.
Proof.
  unfold get_action. run. fold (promoted states).
  destruct (decide (default (action_noise_scale (self w)) noise ≠ 0%Qc))
    as [Hnoise|Hnoise]; simpl.
  - unfold np.truediv.
    destruct (decide (Qc_of_Z episode = 0%Qc)) as [Hep|Hep]; simpl.
    { split; [done|]. by apply Qc_of_Z_zero. }
    assert (Hep' : episode ≠ 0%Z) by (by intros ?%Qc_of_Z_zero).
    unfold randn. simpl.
    match goal with |- context [np.iadd_rows ?a ?v] =>
      pose proof (iadd_rows_outcome a v) as Hrows;
      destruct (np.iadd_rows a v) as [noisy|e] end; simpl.
    + rewrite !length_fmap, length_seq in Hrows. destruct Hrows as [Hall Hlen].
      right. split_and!; [done..|]. unfold np.clip. by rewrite length_fmap.
    + rewrite !length_fmap, length_seq in Hrows. by destruct Hrows as [Hex ->].
  - left. split; [|done]. apply dec_stable. by intros ?.
Qed.

(** X13. A noisy [get_action] on a prediction of width [action_n] draws one
    vector of [action_n] normals and adds it, scaled by [noise / episode],
    to every row alike, then clips: entry [(j, i)] of the result is
    [clip(prediction[j, i] + noise / episode * z_i)] with the same [z_i]
    for all rows [j].  Its calls are the prediction and the one [randn];
    the generator is left [action_n] normals further. *)
Theorem get_action_shares_one_noise_vector (states : ndarray)
    (noise : option Qc) (episode : Z) (w : World) :
  default (action_noise_scale (self w)) noise ≠ 0%Qc →
  episode ≠ 0%Z →
  Forall (λ row : list Qc, length row = action_n (self w))
         (Model_forward (actor (self w)) (promoted states)) →
  ∃ action,
    get_action states noise episode w
    = (Ok action,
       log (call_randn (action_n (self w)))
           (set_random (np.skip_normals (action_n (self w)) (random w))
              (log (call_predict_on_batch Local (promoted states)) w))) ∧
    length action = length (Model_forward (actor (self w)) (promoted states)) ∧
    ∀ j i row p,
      Model_forward (actor (self w)) (promoted states) !! j = Some row →
      row !! i = Some p →
      ∃ noisy_row,
        action !! j = Some noisy_row ∧
        noisy_row !! i
        = Some (np.clip1
                  (p + default (action_noise_scale (self w)) noise
                       / Qc_of_Z episode * np.normals (random w) i)
                  (- action_limit (self w)) (action_limit (self w)))%Qc.
Proof.
  intros Hnoise Hep Hwidth. unfold get_action. run. fold (promoted states).
  rewrite decide_True by done. unfold np.truediv.
  rewrite decide_False by (by intros ?%Qc_of_Z_zero). simpl.
  unfold randn. simpl.
  rewrite iadd_rows_same_width
    by (eapply Forall_impl; [exact Hwidth|]; simpl; intros row ->;
        by rewrite !length_fmap, length_seq).
  simpl. eexists. split; [done|]. split.
  { unfold np.clip. by rewrite !length_fmap. }
  intros j i row p Hrow Hp.
  assert (Hi : (i < action_n (self w))%nat).
  { apply lookup_lt_Some in Hp.
    by rewrite (Forall_lookup_1 _ _ _ _ Hwidth Hrow) in Hp. }
  eexists. split.
  - unfold np.clip. by rewrite !list_lookup_fmap, Hrow.
  - rewrite list_lookup_fmap, lookup_zip_with, Hp. simpl.
    by rewrite !list_lookup_fmap, lookup_seq_lt.
Qed.

(** *** The other difference schemes *)

(** Row [j] of [grads] after [fill_columns]: at a written coordinate the
    entry [j] of that coordinate's column, elsewhere what it held. *)
Lemma fill_columns_lookup (coords : list nat) (cols : list (list Qc))
    (grads : list (list Qc)) (j : nat) (row : list Qc) :
  length cols = length coords →
  Forall (λ v : list Qc, j < length v)%nat cols →
  NoDup coords →
  grads !! j = Some row →
  ∃ row',
    fill_columns grads coords cols !! j = Some row' ∧
    length row' = length row ∧
    (∀ i, i ∉ coords → row' !! i = row !! i) ∧
    (∀ pos i v, coords !! pos = Some i → cols !! pos = Some v →
                (i < length row)%nat →
                ∃ x, v !! j = Some x ∧ row' !! i = Some x).
Proof.
  revert cols grads row.
  induction coords as [|i0 coords IH]; intros [|v0 cols] grads row Hlen Hall Hnd Hrow;
    simpl in Hlen; try done.
  - exists row. split_and!; [done..|]. intros pos i v Hpos. by rewrite lookup_nil in Hpos.
  - apply Forall_cons in Hall as [Hj Hall].
    apply NoDup_cons in Hnd as [Hi0 Hnd].
    destruct (lookup_lt_is_Some_2 _ _ Hj) as [x0 Hx0].
    pose proof (put_column_lookup i0 _ grads j row _ Hrow Hx0) as Hrow1.
    destruct (IH cols _ _ ltac:(lia) Hall Hnd Hrow1)
      as (row' & Hfill & Hlen' & Hother & Hwritten).
    exists row'. simpl. split_and!.
    + done.
    + by rewrite Hlen', length_insert.
    + intros i Hi. rewrite Hother by (intros ?; apply Hi; by right).
      apply list_lookup_insert_ne. intros ->. apply Hi. by left.
    + intros [|pos] i v Hpos Hv Hi; simpl in *.
      * injection Hpos as <-. injection Hv as <-.
        exists x0. split; [done|].
        rewrite Hother by done. by apply list_lookup_insert_eq.
      * apply (Hwritten pos i v Hpos Hv). by rewrite length_insert.
Qed.

Lemma fill_columns_length (coords : list nat) (cols : list (list Qc))
    (grads : list (list Qc)) :
  Forall (λ v : list Qc, length v = length grads) cols →
  length (fill_columns grads coords cols) = length grads.
Proof.
  revert cols grads. induction coords as [|i coords IH];
    intros [|v cols] grads Hall; simpl; try done.
  apply Forall_cons in Hall as [Hv Hall].
  assert (Hl : length (put_column i v grads) = length grads).
  { unfold put_column. rewrite length_zip_with. lia. }
  rewrite IH; [done|]. by rewrite Hl.
Qed.

Lemma perturbed_length (a : list (list Qc)) (i : nat) (delta : Qc) :
  length (perturbed a i delta) = length a.
Proof. unfold perturbed. by rewrite length_fmap. Qed.

Lemma perturbed_width (a : list (list Qc)) (i k : nat) (delta : Qc) :
  Forall (λ row : list Qc, k < length row)%nat a →
  Forall (λ row : list Qc, k < length row)%nat (perturbed a i delta).
Proof.
  intros Ha. unfold perturbed. apply Forall_fmap. eapply Forall_impl; [exact Ha|].
  simpl. intros row Hrow. unfold moved. by rewrite length_insert.
Qed.

(** Two moves along one coordinate, one after the other on the same array,
    are one move by the sum. *)
Lemma perturbed_twice (a : list (list Qc)) (i : nat) (d1 d2 : Qc) :
  Forall (λ row : list Qc, i < length row)%nat a →
  perturbed (perturbed a i d1) i d2 = perturbed a i (d1 + d2).
Proof.
  intros Ha. unfold perturbed. rewrite <- list_fmap_compose.
  apply Forall_fmap_ext. eapply Forall_impl; [exact Ha|]. simpl.
  intros row Hrow. unfold moved.
  destruct (lookup_lt_is_Some_2 row i Hrow) as [x Hx].
  rewrite list_lookup_insert_eq by done. rewrite Hx. simpl.
  rewrite list_insert_insert_eq. f_equal. ring.
Qed.

Lemma state_derivative_loop_spec (states actions : list (list Qc)) (eps : Qc)
    (ncols : nat) (coords : list nat) (grads : list (list Qc)) (w : World) :
  one_value_per_sample →
  length grads = length states →
  Forall (λ i, (i < ncols)%nat ∧
               Forall (λ row : list Qc, i < length row)%nat states) coords →
  state_derivative_loop states actions eps ncols coords grads w =
  (Ok (fill_columns grads coords
         (difference_quotient eps
            <$> (probe_states (critic (self w)) states actions eps coords
                              (backend w)).1)),
   advance (probe_states (critic (self w)) states actions eps coords
                         (backend w)).2
           (probe_states_calls states actions eps coords
              (probe_states (critic (self w)) states actions eps coords
                            (backend w)).1)
           w).
Proof.
  intros Hone. revert grads w.
  induction coords as [|i coords IH]; intros grads w Hlen Hcoords.
  - simpl. run. unfold advance. rewrite app_nil_r. by destruct w.
  - apply Forall_cons in Hcoords as [[Hi Hrows] Hcoords].
    cbn [state_derivative_loop probe_states]. run.
    rewrite !iadd_column_perturbed by done. simpl.
    unfold calculate_q_value_on_batch. simpl.
    pose proof (Hone (critic (self w)) (perturbed states i eps) actions (backend w))
      as Hl1.
    destruct (QFunction_calculate_q_value_on_batch (critic (self w))
                (perturbed states i eps) actions (backend w)) as [q_plus b1].
    simpl in *.
    pose proof (Hone (critic (self w)) (perturbed states i (- eps)) actions b1)
      as Hl2.
    destruct (QFunction_calculate_q_value_on_batch (critic (self w))
                (perturbed states i (- eps)) actions b1) as [q_minus b2].
    simpl in *. rewrite perturbed_length in Hl1, Hl2.
    unfold np.sub. rewrite decide_True by congruence. simpl.
    unfold np.set_column. rewrite decide_True by done.
    rewrite decide_True
      by (by rewrite length_fmap, length_zip_with, Hl1, Hl2, Hlen, Nat.min_id).
    simpl.
    set (w2 := log _ (set_backend b2 (log _ (set_backend b1 w)))).
    set (grads' := zip_with _ grads _).
    specialize (IH grads' w2).
    change (critic (self w2)) with (critic (self w)) in IH.
    change (backend w2) with b2 in IH.
    rewrite IH.
    + destruct (probe_states (critic (self w)) states actions eps coords b2)
        as [answers b3].
      simpl. f_equal. subst w2. unfold advance, log, set_backend. simpl.
      by rewrite <- !app_assoc.
    + subst grads'. rewrite length_zip_with, length_fmap, length_zip_with.
      rewrite Hl1, Hl2, Hlen. lia.
    + done.
Qed.

Lemma probe_states_answers (c : QFunction) (states actions : list (list Qc))
    (eps : Qc) (coords : list nat) (b : Backend) :
  one_value_per_sample →
  length (probe_states c states actions eps coords b).1 = length coords ∧
  Forall (λ p : list Qc * list Qc,
            length p.1 = length states ∧ length p.2 = length states)
         (probe_states c states actions eps coords b).1 ∧
  length (probe_states_calls states actions eps coords
            (probe_states c states actions eps coords b).1)
  = (2 * length coords)%nat.
Proof.
  intros Hone. revert b. induction coords as [|i coords IH]; intros b; simpl.
  - by split_and!.
  - pose proof (Hone c (perturbed states i eps) actions b) as Hl1.
    destruct (QFunction_calculate_q_value_on_batch c (perturbed states i eps)
                actions b) as [q_plus b1].
    pose proof (Hone c (perturbed states i (- eps)) actions b1) as Hl2.
    destruct (QFunction_calculate_q_value_on_batch c
                (perturbed states i (- eps)) actions b1) as [q_minus b2].
    destruct (IH b2) as (Hlen & Hall & Hcalls).
    destruct (probe_states c states actions eps coords b2) as [answers b3].
    simpl in *. rewrite perturbed_length in Hl1, Hl2.
    split_and!; [by rewrite Hlen|by constructor|rewrite Hcalls; lia].
Qed.

Lemma probe_states_lookup (c : QFunction) (states actions : list (list Qc))
    (eps : Qc) (coords : list nat) (b : Backend) (pos i : nat)
    (p : list Qc * list Qc) :
  coords !! pos = Some i →
  (probe_states c states actions eps coords b).1 !! pos = Some p →
  ∃ b_plus b_minus,
    QFunction_calculate_q_value_on_batch c (perturbed states i eps) actions b_plus
    = (p.1, b_minus) ∧
    (QFunction_calculate_q_value_on_batch c (perturbed states i (- eps))
       actions b_minus).1 = p.2.
Proof.
  revert b pos. induction coords as [|i0 coords IH]; intros b pos; [done|].
  simpl.
  destruct (QFunction_calculate_q_value_on_batch c (perturbed states i0 eps)
              actions b) as [q_plus b1] eqn:E1.
  destruct (QFunction_calculate_q_value_on_batch c
              (perturbed states i0 (- eps)) actions b1) as [q_minus b2] eqn:E2.
  specialize (IH b2).
  destruct (probe_states c states actions eps coords b2) as [answers b3].
  destruct pos as [|pos]; simpl.
  - intros [= <-] [= <-]. exists b, b1. by rewrite E1, E2.
  - apply IH.
Qed.

(** X14. [get_state_derivative] is the central difference along the state
    coordinates.  On a trainer whose [state_dim] starts with [d0], for a
    minibatch of [replay_batch_size] states of at least [d0] coordinates, a
    critic that answers with one value per sample, and a step other than 0,
    it returns; its only calls are, per state coordinate [i] in increasing
    order, one batched evaluation with the states moved by [+ epsilon]
    along [i] and one with the states moved by [- epsilon], the actions
    being passed on as they are; the result has [d0] rows of
    [replay_batch_size] entries, entry [(i, j)] being
    [(q_plus_i[j] - q_minus_i[j]) / (2 * epsilon)]. *)
Theorem get_state_derivative_central_difference
    (states actions : list (list Qc)) (epsilon : Qc) (d0 : nat) (w : World) :
  one_value_per_sample →
  state_dim (self w) !! 0%nat = Some d0 →
  length states = replay_batch_size (self w) →
  Forall (λ row : list Qc, d0 ≤ length row)%nat states →
  epsilon ≠ 0%Qc →
  ∃ (grads : list (list Qc)) (answers : list (list Qc * list Qc)) (b : Backend),
    probe_states (critic (self w)) states actions epsilon (seq 0 d0) (backend w)
    = (answers, b) ∧
    get_state_derivative states actions epsilon w
    = (Ok grads,
       advance b (probe_states_calls states actions epsilon (seq 0 d0) answers)
               w) ∧
    length (probe_states_calls states actions epsilon (seq 0 d0) answers)
    = (2 * d0)%nat ∧
    length grads = d0 ∧
    Forall (λ row : list Qc, length row = replay_batch_size (self w)) grads ∧
    ∀ i j, (i < d0)%nat → (j < replay_batch_size (self w))%nat →
      ∃ b_plus b_minus q_plus q_minus row,
        QFunction_calculate_q_value_on_batch (critic (self w))
          (perturbed states i epsilon) actions b_plus = (q_plus, b_minus) ∧
        (QFunction_calculate_q_value_on_batch (critic (self w))
          (perturbed states i (- epsilon)) actions b_minus).1 = q_minus ∧
        answers !! i = Some (q_plus, q_minus) ∧
        grads !! i = Some row ∧
        ∃ a_plus a_minus,
          q_plus !! j = Some a_plus ∧ q_minus !! j = Some a_minus ∧
          row !! j = Some ((a_plus - a_minus) / (2 * epsilon))%Qc.
Proof.
  intros Hone Hd0 Hstates Hcols Heps.
  set (bs := replay_batch_size (self w)) in *.
  destruct (probe_states (critic (self w)) states actions epsilon (seq 0 d0)
              (backend w)) as [answers b] eqn:Hprobe.
  destruct (probe_states_answers (critic (self w)) states actions epsilon
              (seq 0 d0) (backend w) Hone) as (Hlen & Hall & Hcalls).
  rewrite Hprobe, length_seq in Hlen. rewrite Hprobe in Hall, Hcalls.
  rewrite length_seq in Hcalls. simpl in Hlen, Hall, Hcalls.
  set (cols := difference_quotient epsilon <$> answers).
  assert (Hcols_len : Forall (λ v : list Qc, length v = bs) cols).
  { unfold cols. apply Forall_fmap. eapply Forall_impl; [exact Hall|]. simpl.
    intros p [H1 H2]. unfold difference_quotient.
    rewrite length_fmap, length_zip_with, H1, H2, Hstates. lia. }
  set (filled := fill_columns (np.zeros2 bs d0) (seq 0 d0) cols).
  assert (Hfilled : length filled = bs).
  { subst filled. rewrite fill_columns_length; unfold np.zeros2;
      rewrite length_replicate; done. }
  exists (np.transpose d0 filled), answers, b. split_and!.
  - done.
  - unfold get_state_derivative. run. unfold np.getitem. rewrite Hd0. simpl.
    fold bs.
    rewrite state_derivative_loop_spec; [|done| |].
    + by rewrite Hprobe.
    + unfold np.zeros2. by rewrite length_replicate.
    + apply Forall_forall. intros i Hi%elem_of_seq. split; [lia|].
      eapply Forall_impl; [exact Hcols|]. simpl. lia.
  - done.
  - unfold np.transpose. by rewrite length_fmap, length_seq.
  - unfold np.transpose. apply Forall_fmap, Forall_forall. intros i _. simpl.
    by rewrite length_fmap.
  - intros i j Hi Hj.
    destruct (lookup_lt_is_Some_2 answers i) as [[q_plus q_minus] Hp]; [lia|].
    assert (Hpos : seq 0 d0 !! i = Some i) by by apply lookup_seq_lt.
    destruct (probe_states_lookup (critic (self w)) states actions epsilon
                (seq 0 d0) (backend w) i i (q_plus, q_minus) Hpos)
      as (b_plus & b_minus & Hplus & Hminus); [by rewrite Hprobe|].
    assert (Hrow0 : np.zeros2 bs d0 !! j = Some (replicate d0 0%Qc)).
    { unfold np.zeros2. by apply lookup_replicate_2. }
    assert (Hlen2 : length cols = length (seq 0 d0))
      by (unfold cols; by rewrite length_fmap, length_seq).
    assert (Hallj : Forall (λ v : list Qc, j < length v)%nat cols).
    { eapply Forall_impl; [exact Hcols_len|]. simpl. intros v ->. done. }
    destruct (fill_columns_lookup (seq 0 d0) cols (np.zeros2 bs d0) j _
                Hlen2 Hallj (NoDup_seq 0 d0) Hrow0)
      as (row' & Hfill & Hlen' & _ & Hwritten).
    destruct (Hwritten i i (difference_quotient epsilon (q_plus, q_minus)) Hpos)
      as (x & Hx & Hentry).
    { unfold cols. by rewrite list_lookup_fmap, Hp. }
    { by rewrite length_replicate. }
    apply Forall_lookup_1 with (i := i) (x := (q_plus, q_minus)) in Hall as [H1 H2];
      [|done].
    simpl in H1, H2.
    destruct (lookup_lt_is_Some_2 q_plus j) as [a_plus Ha]; [lia|].
    destruct (lookup_lt_is_Some_2 q_minus j) as [a_minus Hb]; [lia|].
    rewrite (difference_quotient_lookup epsilon (q_plus, q_minus) j a_plus a_minus)
      in Hx by done.
    injection Hx as <-.
    exists b_plus, b_minus, q_plus, q_minus,
      ((λ row : list Qc, default 0%Qc (row !! i)) <$> filled).
    split_and!; [done|done|done| |].
    + unfold np.transpose. by rewrite list_lookup_fmap, Hpos.
    + exists a_plus, a_minus. split_and!; [done..|].
      rewrite list_lookup_fmap. unfold filled. rewrite Hfill. simpl.
      by rewrite Hentry.
Qed.

Lemma five_point_combination_spec (eps : Qc) (q1 q2 q3 q4 : list Qc) :
  length q2 = length q1 → length q3 = length q1 → length q4 = length q1 →
  five_point_combination eps q1 q2 q3 q4
  = Ok (five_point_quotient eps {| at_plus := q1; at_plus2 := q2;
                                   at_minus := q3; at_minus2 := q4 |}).
Proof.
  intros H2 H3 H4. unfold five_point_combination, five_point_quotient.
  unfold np.add at 2.
  rewrite decide_True by (by rewrite !length_fmap).
  simpl. unfold np.sub.
  rewrite decide_True by (rewrite length_zip_with, !length_fmap; lia).
  simpl. unfold np.add.
  rewrite decide_True
    by (rewrite !length_zip_with, !length_fmap; lia).
  done.
Qed.

Lemma five_point_quotient_lookup (eps : Qc) (p : stencil) (j : nat)
    (a1 a2 a3 a4 : Qc) :
  at_plus p !! j = Some a1 → at_plus2 p !! j = Some a2 →
  at_minus p !! j = Some a3 → at_minus2 p !! j = Some a4 →
  five_point_quotient eps p !! j
  = Some ((- a2 + Qc_of_Z 8 * a1 - Qc_of_Z 8 * a3 + a4)
          / (Qc_of_Z 12 * eps))%Qc.
Proof.
  intros H1 H2 H3 H4. unfold five_point_quotient.
  by rewrite list_lookup_fmap, !lookup_zip_with, !list_lookup_fmap,
    H1, H2, H3, H4.
Qed.

Lemma five_point_quotient_length (eps : Qc) (p : stencil) (n : nat) :
  length (at_plus p) = n → length (at_plus2 p) = n →
  length (at_minus p) = n → length (at_minus2 p) = n →
  length (five_point_quotient eps p) = n.
Proof.
  intros H1 H2 H3 H4. unfold five_point_quotient.
  rewrite length_fmap, !length_zip_with, !length_fmap. lia.
Qed.

Lemma action_derivative_5point_loop_spec (states actions : list (list Qc))
    (eps : Qc) (ncols : nat) (coords : list nat) (grads : list (list Qc))
    (w : World) :
  one_value_per_sample →
  length grads = length states →
  Forall (λ i, (i < ncols)%nat ∧
               Forall (λ row : list Qc, i < length row)%nat actions) coords →
  action_derivative_5point_loop states actions eps ncols coords grads w =
  (Ok (fill_columns grads coords
         (five_point_quotient eps
            <$> (probe5 (critic (self w)) states actions eps coords
                        (backend w)).1)),
   advance (probe5 (critic (self w)) states actions eps coords (backend w)).2
           (probe5_calls states actions eps coords
              (probe5 (critic (self w)) states actions eps coords
                      (backend w)).1)
           w).
Proof.
  intros Hone. revert grads w.
  induction coords as [|i coords IH]; intros grads w Hlen Hcoords.
  - simpl. run. unfold advance. rewrite app_nil_r. by destruct w.
  - apply Forall_cons in Hcoords as [[Hi Hrows] Hcoords].
    cbn [action_derivative_5point_loop probe5]. run.
    rewrite ?iadd_column_perturbed by (done || by apply perturbed_width).
    simpl. unfold calculate_q_value_on_batch. simpl.
    pose proof (Hone (critic (self w)) states (perturbed actions i eps) (backend w))
      as Hl1.
    destruct (QFunction_calculate_q_value_on_batch (critic (self w)) states
                (perturbed actions i eps) (backend w)) as [q1 b1].
    simpl in *.
    rewrite ?iadd_column_perturbed by (done || by apply perturbed_width).
    simpl.
    pose proof (Hone (critic (self w)) states
                  (perturbed (perturbed actions i eps) i eps) b1) as Hl2.
    destruct (QFunction_calculate_q_value_on_batch (critic (self w)) states
                (perturbed (perturbed actions i eps) i eps) b1) as [q2 b2].
    simpl in *.
    pose proof (Hone (critic (self w)) states (perturbed actions i (- eps)) b2)
      as Hl3.
    destruct (QFunction_calculate_q_value_on_batch (critic (self w)) states
                (perturbed actions i (- eps)) b2) as [q3 b3].
    simpl in *.
    rewrite ?iadd_column_perturbed by (done || by apply perturbed_width).
    simpl.
    pose proof (Hone (critic (self w)) states
                  (perturbed (perturbed actions i (- eps)) i (- eps)) b3) as Hl4.
    destruct (QFunction_calculate_q_value_on_batch (critic (self w)) states
                (perturbed (perturbed actions i (- eps)) i (- eps)) b3)
      as [q4 b4].
    simpl in *.
    rewrite five_point_combination_spec by congruence. simpl.
    set (p := {| at_plus := q1; at_plus2 := q2; at_minus := q3;
                 at_minus2 := q4 |}).
    assert (Hcol : length (five_point_quotient eps p) = length states)
      by by apply five_point_quotient_length.
    unfold np.set_column. rewrite decide_True by done.
    rewrite decide_True by (by rewrite Hcol, Hlen).
    simpl.
    set (w2 := log _ (set_backend b4 _)).
    set (grads' := zip_with _ grads _).
    specialize (IH grads' w2).
    change (critic (self w2)) with (critic (self w)) in IH.
    change (backend w2) with b4 in IH.
    rewrite IH.
    + destruct (probe5 (critic (self w)) states actions eps coords b4)
        as [answers b5].
      simpl. f_equal. subst w2. unfold advance, log, set_backend. simpl.
      by rewrite <- !app_assoc.
    + subst grads'. rewrite length_zip_with, Hcol, Hlen. lia.
    + done.
Qed.

Lemma probe5_answers (c : QFunction) (states actions : list (list Qc))
    (eps : Qc) (coords : list nat) (b : Backend) :
  one_value_per_sample →
  length (probe5 c states actions eps coords b).1 = length coords ∧
  Forall (λ p : stencil,
            length (at_plus p) = length states ∧
            length (at_plus2 p) = length states ∧
            length (at_minus p) = length states ∧
            length (at_minus2 p) = length states)
         (probe5 c states actions eps coords b).1 ∧
  length (probe5_calls states actions eps coords
            (probe5 c states actions eps coords b).1)
  = (4 * length coords)%nat.
Proof.
  intros Hone. revert b. induction coords as [|i coords IH]; intros b; simpl.
  - by split_and!.
  - pose proof (Hone c states (perturbed actions i eps) b) as Hl1.
    destruct (QFunction_calculate_q_value_on_batch c states
                (perturbed actions i eps) b) as [q1 b1].
    pose proof (Hone c states (perturbed (perturbed actions i eps) i eps) b1)
      as Hl2.
    destruct (QFunction_calculate_q_value_on_batch c states
                (perturbed (perturbed actions i eps) i eps) b1) as [q2 b2].
    pose proof (Hone c states (perturbed actions i (- eps)) b2) as Hl3.
    destruct (QFunction_calculate_q_value_on_batch c states
                (perturbed actions i (- eps)) b2) as [q3 b3].
    pose proof (Hone c states
                  (perturbed (perturbed actions i (- eps)) i (- eps)) b3) as Hl4.
    destruct (QFunction_calculate_q_value_on_batch c states
                (perturbed (perturbed actions i (- eps)) i (- eps)) b3)
      as [q4 b4].
    destruct (IH b4) as (Hlen & Hall & Hcalls).
    destruct (probe5 c states actions eps coords b4) as [answers b5].
    simpl in *.
    split_and!; [by rewrite Hlen|by constructor|rewrite Hcalls; lia].
Qed.

Lemma probe5_lookup (c : QFunction) (states actions : list (list Qc))
    (eps : Qc) (coords : list nat) (b : Backend) (pos i : nat) (p : stencil) :
  coords !! pos = Some i →
  (probe5 c states actions eps coords b).1 !! pos = Some p →
  ∃ b1 b2 b3 b4,
    QFunction_calculate_q_value_on_batch c states (perturbed actions i eps) b1
    = (at_plus p, b2) ∧
    QFunction_calculate_q_value_on_batch c states
      (perturbed (perturbed actions i eps) i eps) b2 = (at_plus2 p, b3) ∧
    QFunction_calculate_q_value_on_batch c states
      (perturbed actions i (- eps)) b3 = (at_minus p, b4) ∧
    (QFunction_calculate_q_value_on_batch c states
       (perturbed (perturbed actions i (- eps)) i (- eps)) b4).1 = at_minus2 p.
Proof.
  revert b pos. induction coords as [|i0 coords IH]; intros b pos; [done|].
  simpl.
  destruct (QFunction_calculate_q_value_on_batch c states
              (perturbed actions i0 eps) b) as [q1 b1] eqn:E1.
  destruct (QFunction_calculate_q_value_on_batch c states
              (perturbed (perturbed actions i0 eps) i0 eps) b1)
    as [q2 b2] eqn:E2.
  destruct (QFunction_calculate_q_value_on_batch c states
              (perturbed actions i0 (- eps)) b2) as [q3 b3] eqn:E3.
  destruct (QFunction_calculate_q_value_on_batch c states
              (perturbed (perturbed actions i0 (- eps)) i0 (- eps)) b3)
    as [q4 b4] eqn:E4.
  specialize (IH b4).
  destruct (probe5 c states actions eps coords b4) as [answers b5].
  destruct pos as [|pos]; simpl.
  - intros [= <-] [= <-]. exists b, b1, b2, b3. simpl. by rewrite E1, E2, E3, E4.
  - apply IH.
Qed.

(** X15. [get_action_derivative_5point] is the five-point stencil along the
    action coordinates.  For a minibatch of [replay_batch_size] states, with
    actions of at least [action_n] coordinates, a critic that answers with
    one value per sample and a step other than 0, it returns; per action
    coordinate [i], in increasing order, it makes four batched evaluations,
    at the actions moved along [i] by [+ epsilon], [+ 2 epsilon],
    [- epsilon] and [- 2 epsilon], in this order (the second and the fourth
    move the array of the call before once more); the result has [action_n]
    rows of [replay_batch_size] entries, entry [(i, j)] being
    [(-q(+2e)[j] + 8 q(+e)[j] - 8 q(-e)[j] + q(-2e)[j]) / (12 * epsilon)]. *)
Theorem get_action_derivative_5point_stencil
    (states actions : list (list Qc)) (epsilon : Qc) (w : World) :
  one_value_per_sample →
  length states = replay_batch_size (self w) →
  Forall (λ row : list Qc, action_n (self w) ≤ length row)%nat actions →
  epsilon ≠ 0%Qc →
  ∃ (grads : list (list Qc)) (answers : list stencil) (b : Backend),
    probe5 (critic (self w)) states actions epsilon (seq 0 (action_n (self w)))
           (backend w) = (answers, b) ∧
    get_action_derivative_5point states actions epsilon w
    = (Ok grads,
       advance b (probe5_calls states actions epsilon
                               (seq 0 (action_n (self w))) answers) w) ∧
    length (probe5_calls states actions epsilon
                         (seq 0 (action_n (self w))) answers)
    = (4 * action_n (self w))%nat ∧
    length grads = action_n (self w) ∧
    Forall (λ row : list Qc, length row = replay_batch_size (self w)) grads ∧
    ∀ i j, (i < action_n (self w))%nat → (j < replay_batch_size (self w))%nat →
      ∃ p row a1 a2 a3 a4,
        answers !! i = Some p ∧
        grads !! i = Some row ∧
        at_plus p !! j = Some a1 ∧ at_plus2 p !! j = Some a2 ∧
        at_minus p !! j = Some a3 ∧ at_minus2 p !! j = Some a4 ∧
        row !! j = Some ((- a2 + Qc_of_Z 8 * a1 - Qc_of_Z 8 * a3 + a4)
                         / (Qc_of_Z 12 * epsilon))%Qc ∧
        ∃ b1 b2 b3 b4,
          QFunction_calculate_q_value_on_batch (critic (self w)) states
            (perturbed actions i epsilon) b1 = (at_plus p, b2) ∧
          QFunction_calculate_q_value_on_batch (critic (self w)) states
            (perturbed actions i (2 * epsilon)) b2 = (at_plus2 p, b3) ∧
          QFunction_calculate_q_value_on_batch (critic (self w)) states
            (perturbed actions i (- epsilon)) b3 = (at_minus p, b4) ∧
          (QFunction_calculate_q_value_on_batch (critic (self w)) states
             (perturbed actions i (- (2 * epsilon))) b4).1 = at_minus2 p.
Proof.
  intros Hone Hstates Hcols Heps.
  set (n := action_n (self w)) in *. set (bs := replay_batch_size (self w)) in *.
  destruct (probe5 (critic (self w)) states actions epsilon (seq 0 n) (backend w))
    as [answers b] eqn:Hprobe.
  destruct (probe5_answers (critic (self w)) states actions epsilon (seq 0 n)
              (backend w) Hone) as (Hlen & Hall & Hcalls).
  rewrite Hprobe, length_seq in Hlen. rewrite Hprobe in Hall, Hcalls.
  rewrite length_seq in Hcalls. simpl in Hlen, Hall, Hcalls.
  set (cols := five_point_quotient epsilon <$> answers).
  assert (Hcols_len : Forall (λ v : list Qc, length v = bs) cols).
  { unfold cols. apply Forall_fmap. eapply Forall_impl; [exact Hall|]. simpl.
    intros p (H1 & H2 & H3 & H4).
    apply five_point_quotient_length; congruence. }
  set (filled := fill_columns (np.zeros2 bs n) (seq 0 n) cols).
  assert (Hfilled : length filled = bs).
  { subst filled. rewrite fill_columns_length; unfold np.zeros2;
      rewrite length_replicate; done. }
  exists (np.transpose n filled), answers, b. split_and!.
  - done.
  - unfold get_action_derivative_5point. run. fold n bs.
    rewrite action_derivative_5point_loop_spec; [|done| |].
    + by rewrite Hprobe.
    + unfold np.zeros2. by rewrite length_replicate.
    + apply Forall_forall. intros i Hi%elem_of_seq. split; [lia|].
      eapply Forall_impl; [exact Hcols|]. simpl. fold n. lia.
  - done.
  - unfold np.transpose. by rewrite length_fmap, length_seq.
  - unfold np.transpose. apply Forall_fmap, Forall_forall. intros i _. simpl.
    by rewrite length_fmap.
  - intros i j Hi Hj.
    destruct (lookup_lt_is_Some_2 answers i) as [p Hp]; [lia|].
    assert (Hpos : seq 0 n !! i = Some i) by by apply lookup_seq_lt.
    destruct (probe5_lookup (critic (self w)) states actions epsilon (seq 0 n)
                (backend w) i i p Hpos)
      as (b1 & b2 & b3 & b4 & E1 & E2 & E3 & E4); [by rewrite Hprobe|].
    assert (Hwide : Forall (λ row : list Qc, i < length row)%nat actions).
    { eapply Forall_impl; [exact Hcols|]. simpl. fold n. lia. }
    rewrite perturbed_twice in E2, E4 by done.
    replace (epsilon + epsilon)%Qc with (2 * epsilon)%Qc in E2 by ring.
    replace (- epsilon + - epsilon)%Qc with (- (2 * epsilon))%Qc in E4 by ring.
    assert (Hrow0 : np.zeros2 bs n !! j = Some (replicate n 0%Qc)).
    { unfold np.zeros2. by apply lookup_replicate_2. }
    assert (Hlen2 : length cols = length (seq 0 n))
      by (unfold cols; by rewrite length_fmap, length_seq).
    assert (Hallj : Forall (λ v : list Qc, j < length v)%nat cols).
    { eapply Forall_impl; [exact Hcols_len|]. simpl. intros v ->. done. }
    destruct (fill_columns_lookup (seq 0 n) cols (np.zeros2 bs n) j _
                Hlen2 Hallj (NoDup_seq 0 n) Hrow0)
      as (row' & Hfill & Hlen' & _ & Hwritten).
    destruct (Hwritten i i (five_point_quotient epsilon p) Hpos)
      as (x & Hx & Hentry).
    { unfold cols. by rewrite list_lookup_fmap, Hp. }
    { by rewrite length_replicate. }
    apply Forall_lookup_1 with (i := i) (x := p) in Hall as (H1 & H2 & H3 & H4);
      [|done].
    destruct (lookup_lt_is_Some_2 (at_plus p) j) as [a1 Ha1]; [lia|].
    destruct (lookup_lt_is_Some_2 (at_plus2 p) j) as [a2 Ha2]; [lia|].
    destruct (lookup_lt_is_Some_2 (at_minus p) j) as [a3 Ha3]; [lia|].
    destruct (lookup_lt_is_Some_2 (at_minus2 p) j) as [a4 Ha4]; [lia|].
    rewrite (five_point_quotient_lookup epsilon p j a1 a2 a3 a4) in Hx by done.
    injection Hx as <-.
    exists p, ((λ row : list Qc, default 0%Qc (row !! i)) <$> filled),
      a1, a2, a3, a4.
    split_and!; [done| |done..| |].
    + unfold np.transpose. by rewrite list_lookup_fmap, Hpos.
    + rewrite list_lookup_fmap. unfold filled. rewrite Hfill. simpl.
      by rewrite Hentry.
    + by exists b1, b2, b3, b4.
Qed.

(** *** What the loss of the actor costs *)

(** X16. The Python function behind the actor's loss, [get_q_value], on a
    minibatch of [replay_batch_size] states with predicted actions of at
    least [action_n] coordinates: it returns the critic's values at the
    predicted actions, a state gradient of [state_dim[0]] rows that is zero
    everywhere, and as action gradient what [get_action_derivative] returns
    with its default step 0.4.  It makes [1 + 2 * action_n] batched
    evaluations of the local critic, the first at the minibatch as it is,
    and leaves the trainer as it was. *)
Theorem get_q_value_evaluations (y_true y_pred : list (list Qc)) (d0 : nat)
    (w : World) :
  one_value_per_sample →
  state_dim (self w) !! 0%nat = Some d0 →
  length y_true = replay_batch_size (self w) →
  Forall (λ row : list Qc, action_n (self w) ≤ length row)%nat y_pred →
  ∃ (q : list Qc) (b1 : Backend) (dq : list (list Qc)) (w' : World)
    (calls : list event),
    QFunction_calculate_q_value_on_batch (critic (self w)) y_true y_pred
                                         (backend w) = (q, b1) ∧
    get_action_derivative y_true y_pred default_epsilon
      (log (call_calculate_q_value_on_batch y_true y_pred q) (set_backend b1 w))
    = (Ok dq, w') ∧
    get_q_value y_true y_pred w
    = (Ok (q, np.zeros2 d0 (replay_batch_size (self w)), dq), w') ∧
    trace w'
    = trace w ++ call_calculate_q_value_on_batch y_true y_pred q :: calls ∧
    length calls = (2 * action_n (self w))%nat ∧
    Forall (λ e, is_actor_training_call e = true) calls ∧
    self w' = self w ∧
    random w' = random w.
Proof.
  intros Hone Hd0 Hstates Hcols.
  destruct (QFunction_calculate_q_value_on_batch (critic (self w)) y_true y_pred
              (backend w)) as [q b1] eqn:Hq.
  set (w1 := log (call_calculate_q_value_on_batch y_true y_pred q)
                 (set_backend b1 w)).
  set (n := action_n (self w)) in *. set (bs := replay_batch_size (self w)) in *.
  assert (Hloop := action_derivative_loop_spec y_true y_pred default_epsilon n
                     (seq 0 n) (np.zeros2 bs n) w1 Hone).
  destruct (probe_answers (critic (self w)) y_true y_pred default_epsilon
              (seq 0 n) b1 Hone) as [Hlen _].
  change (critic (self w1)) with (critic (self w)) in Hloop.
  change (backend w1) with b1 in Hloop.
  destruct (probe (critic (self w)) y_true y_pred default_epsilon (seq 0 n) b1)
    as [answers b] eqn:Hprobe.
  simpl in Hloop, Hlen. rewrite length_seq in Hlen.
  assert (Hder : get_action_derivative y_true y_pred default_epsilon w1
                 = (Ok (np.transpose n
                          (fill default_epsilon (np.zeros2 bs n) (seq 0 n) answers)),
                    advance b (probe_calls y_true y_pred default_epsilon
                                 (seq 0 n) answers) w1)).
  { unfold get_action_derivative. run. fold n bs.
    rewrite Hloop; [done| |].
    - unfold np.zeros2. by rewrite length_replicate.
    - apply Forall_forall. intros i Hi%elem_of_seq. split; [lia|].
      eapply Forall_impl; [exact Hcols|]. simpl. fold n. lia. }
  eexists q, b1, _, _, (probe_calls y_true y_pred default_epsilon (seq 0 n) answers).
  split_and!.
  - done.
  - exact Hder.
  - unfold get_q_value. rewrite bind_run.
    unfold calculate_q_value_on_batch. rewrite Hq. fold w1.
    rewrite bind_run, Hder. run. unfold np.getitem. by rewrite Hd0.
  - simpl. by rewrite <- (assoc_L (++)).
  - rewrite probe_calls_length; by rewrite length_seq.
  - clear. generalize (seq 0 n) as coords. intros coords. revert answers.
    induction coords as [|i coords IH]; intros [|[qp qm] answers]; simpl;
      repeat constructor. apply IH.
  - done.
  - done.
Qed.

(** *** [train_critic]: what it writes, and how it fails *)

Lemma getitem_raises {A : Type} (l : list A) (i : nat) (e : exn) :
  np.getitem l i = Raise e → e = IndexError.
Proof. unfold np.getitem. destruct (l !! i); [done|]. by intros [= <-]. Qed.

Lemma getitem_in_range {A : Type} (l : list A) (i : nat) :
  (i < length l)%nat → ∃ x, np.getitem l i = Ok x.
Proof.
  intros Hi. destruct (lookup_lt_is_Some_2 l i Hi) as [x Hx]. exists x.
  unfold np.getitem. by rewrite Hx.
Qed.

Lemma getitem_out_of_range {A : Type} (l : list A) (i : nat) :
  (length l ≤ i)%nat → np.getitem l i = Raise IndexError.
Proof.
  intros Hi. unfold np.getitem. by rewrite (lookup_ge_None_2 l i Hi).
Qed.

Lemma setitem_raises {A : Type} (l : list A) (i : nat) (x : A) (e : exn) :
  np.setitem l i x = Raise e → e = IndexError.
Proof. unfold np.setitem. case_decide; [done|]. by intros [= <-]. Qed.

Lemma same_but_critic_refl (w : World) : same_but_critic w w.
Proof. split_and!; [by destruct (self w)|done..]. Qed.

Lemma same_but_critic_trans (w1 w2 w3 : World) :
  same_but_critic w1 w2 → same_but_critic w2 w3 → same_but_critic w1 w3.
Proof.
  intros (H1 & Hg1 & Hr1) (H2 & Hg2 & Hr2). split_and!; [|congruence..].
  rewrite <- H2 in H1. etrans; [|exact H1]. by destruct (self w3).
Qed.

(** A step that replaces the local critic by one of the same discount, and
    the backend and the trace by anything. *)
Lemma same_but_critic_step (w : World) (c : QFunction) (b : Backend)
    (t : list event) :
  small_gamma c = small_gamma (critic (self w)) →
  same_but_critic w {| self := with_critic c (self w); random := random w;
                       backend := b; trace := t |}.
Proof. intros Hg. split_and!; [simpl; by destruct (self w)|done..]. Qed.

(** What [same_but_critic] says attribute by attribute. *)
Lemma same_but_critic_attributes (w w' : World) :
  same_but_critic w w' →
  env (self w') = env (self w) ∧
  action_n (self w') = action_n (self w) ∧
  state_dim (self w') = state_dim (self w) ∧
  action_limit (self w') = action_limit (self w) ∧
  gamma_rl (self w') = gamma_rl (self w) ∧
  tau_soft_update (self w') = tau_soft_update (self w) ∧
  replay_buffer_size (self w') = replay_buffer_size (self w) ∧
  replay_batch_size (self w') = replay_batch_size (self w) ∧
  action_noise_scale (self w') = action_noise_scale (self w) ∧
  n_annealing_steps (self w') = n_annealing_steps (self w) ∧
  n_anneals_for_average (self w') = n_anneals_for_average (self w) ∧
  critic_learning_rate (self w') = critic_learning_rate (self w) ∧
  actor_initial_learning_rate (self w') = actor_initial_learning_rate (self w) ∧
  critic_target (self w') = critic_target (self w) ∧
  actor (self w') = actor (self w) ∧
  actor_target (self w') = actor_target (self w) ∧
  replay_memory (self w') = replay_memory (self w).
Proof. intros (H1 & _ & _). rewrite <- H1. by split_and!. Qed.

(** The loop writes the local critic's couplings, the backend and the trace,
    and nothing else; what it raises is an IndexError. *)
(** Settles [same_but_critic] between a world and one built from it by
    steps that write the local critic, the losses, the backend or the
    trace. *)
Ltac frame_step :=
  first
    [ apply same_but_critic_refl
    | match goal with
      | |- same_but_critic ?w _ =>
          split_and!; [simpl; by destruct (self w)|done|done]
      end ].

Lemma train_critic_loop_frame (states next_states actions next_actions : list (list Qc))
    (rewards : list Qc) (js : list nat) (q_loss_batch : list Qc)
    (w w' : World) (r : result (list Qc)) :
  train_critic_loop states next_states actions next_actions rewards js
                    q_loss_batch w = (r, w') →
  same_but_critic w w' ∧
  q_losses (self w') = q_losses (self w) ∧
  ∀ e, r = Raise e → e = IndexError.
Proof.
  revert q_loss_batch w. induction js as [|jj js IH]; intros q_loss_batch w.
  - intros [= <- <-]. split_and!; [apply same_but_critic_refl|done|done].
  - cbn [train_critic_loop]. run.
    destruct (np.getitem states jj) as [state|e1] eqn:E1; simpl;
      [|intros [= <- <-]; split_and!;
        [apply same_but_critic_refl|done|
         intros e [= <-]; by eapply getitem_raises]].
    destruct (np.getitem actions jj) as [action|e2] eqn:E2; simpl;
      [|intros [= <- <-]; split_and!;
        [apply same_but_critic_refl|done|
         intros e [= <-]; by eapply getitem_raises]].
    unfold calculate_q_value. simpl.
    destruct (QFunction_calculate_q_value Local (critic (self w)) state action
                (backend w)) as [[[q spins] visible] b1].
    simpl.
    destruct (np.getitem next_states jj) as [next_state|e3] eqn:E3; simpl;
      [|intros [= <- <-]; split_and!;
        [frame_step|done|intros e [= <-]; by eapply getitem_raises]].
    destruct (np.getitem next_actions jj) as [next_action|e4] eqn:E4; simpl;
      [|intros [= <- <-]; split_and!;
        [frame_step|done|intros e [= <-]; by eapply getitem_raises]].
    destruct (QFunction_calculate_q_value Target (critic_target (self w))
                next_state next_action b1)
      as [[[next_q next_spins] next_visible] b2].
    simpl.
    destruct (np.getitem rewards jj) as [reward|e5] eqn:E5; simpl;
      [|intros [= <- <-]; split_and!;
        [frame_step|done|intros e [= <-]; by eapply getitem_raises]].
    unfold update_weights. simpl.
    destruct (QFunction_update_weights (critic (self w)) spins next_visible q
                next_q reward (critic_learning_rate (self w)) b2)
      as [[new_hh new_vh] b3].
    simpl.
    destruct (np.setitem q_loss_batch jj _) as [q_loss_batch'|e6] eqn:E6; simpl;
      [|intros [= <- <-]; split_and!;
        [frame_step|done|intros e [= <-]; by eapply setitem_raises]].
    intros Hrest. destruct (IH _ _ Hrest) as (Hsame & Hlosses & Herr).
    split_and!; [|by rewrite Hlosses|done].
    eapply same_but_critic_trans; [|exact Hsame]. frame_step.
Qed.

(** X17. Whatever its arguments are and however it ends, [train_critic]
    writes nothing of the trainer but the local critic's couplings and
    [q_losses]: every other attribute ([env], [action_n], [state_dim],
    [action_limit], [gamma_rl], [tau_soft_update], [replay_buffer_size],
    [replay_batch_size], [action_noise_scale], [n_annealing_steps],
    [n_anneals_for_average], both learning rates, the target critic, both
    actors, the replay memory), the critic's discount and numpy's generator
    are left as they were.  It raises nothing but IndexError (arrays of different
    lengths), and then records no loss; when it returns it has recorded
    exactly one. *)
Theorem train_critic_writes_only_the_local_critic
    (states next_states actions : list (list Qc)) (rewards dones : list Qc)
    (random_phase : bool) (w : World) :
  same_but_critic w
    (train_critic states next_states actions rewards dones random_phase w).2 ∧
  match (train_critic states next_states actions rewards dones random_phase w).1
  with
  | Ok _ =>
      ∃ loss,
        q_losses (self (train_critic states next_states actions rewards dones
                          random_phase w).2)
        = q_losses (self w) ++ [loss]
  | Raise e =>
      e = IndexError ∧
      q_losses (self (train_critic states next_states actions rewards dones
                        random_phase w).2)
      = q_losses (self w)
  end.
Proof.
  unfold train_critic. rewrite bind_run.
  assert (Hfirst : ∃ next_actions w0,
    (if random_phase then sample_next_actions (length next_states)
     else get_target_actions next_states) w = (Ok next_actions, w0) ∧
    same_but_critic w w0 ∧ q_losses (self w0) = q_losses (self w) ∧
    critic (self w0) = critic (self w)).
  { destruct random_phase.
    - rewrite sample_next_actions_spec. do 2 eexists.
      split; [done|]. split_and!; [frame_step|done..].
    - do 2 eexists. split; [done|]. split_and!; [frame_step|done..]. }
  destruct Hfirst as (next_actions & w0 & -> & Hsame0 & Hloss0 & _).
  rewrite bind_run.
  destruct (train_critic_loop states next_states actions next_actions rewards
              (seq 0 (length states)) (replicate (length states) 0%Qc) w0)
    as [[q_loss_batch|e] w1] eqn:Hloop.
  - destruct (train_critic_loop_frame _ _ _ _ _ _ _ _ _ _ Hloop)
      as (Hsame1 & Hloss1 & _).
    simpl. split.
    + eapply same_but_critic_trans; [exact Hsame0|].
      eapply same_but_critic_trans; [exact Hsame1|]. frame_step.
    + eexists. by rewrite Hloss1, Hloss0.
  - destruct (train_critic_loop_frame _ _ _ _ _ _ _ _ _ _ Hloop)
      as (Hsame1 & Hloss1 & Herr).
    simpl. split_and!.
    + by eapply same_but_critic_trans.
    + by apply Herr.
    + by rewrite Hloss1, Hloss0.
Qed.

Lemma getitem_app_fmap_middle {A B : Type} (f : A → B) (l1 l2 : list A)
    (x : A) (t : list B) :
  np.getitem ((f <$> (l1 ++ x :: l2)) ++ t) (length l1) = Ok (f x).
Proof.
  unfold np.getitem.
  rewrite lookup_app_l by (rewrite length_fmap, length_app; simpl; lia).
  by rewrite lookup_fmap_middle.
Qed.

Lemma getitem_app_middle {A : Type} (l1 l2 : list A) (x : A) :
  np.getitem (l1 ++ x :: l2) (length l1) = Ok x.
Proof. unfold np.getitem. by rewrite list_lookup_middle. Qed.

(** The loop over the samples [xs] that follow the samples [done], on arrays
    that go on after them: it is [critic_pass] on [xs], and then the loop
    over the indices left. *)
Lemma train_critic_loop_prefix (xs done : list (sample * list Qc))
    (pre : list Qc) (st_tail ns_tail ac_tail na_tail : list (list Qc))
    (rw_tail : list Qc) (js_rest : list nat) (q_tail : list Qc) (w : World) :
  length pre = length done →
  train_critic_loop
    (((λ p, s_state p.1) <$> (done ++ xs)) ++ st_tail)
    (((λ p, s_next_state p.1) <$> (done ++ xs)) ++ ns_tail)
    (((λ p, s_action p.1) <$> (done ++ xs)) ++ ac_tail)
    ((snd <$> (done ++ xs)) ++ na_tail)
    (((λ p, s_reward p.1) <$> (done ++ xs)) ++ rw_tail)
    (seq (length done) (length xs) ++ js_rest)
    (pre ++ replicate (length xs) 0%Qc ++ q_tail) w
  = train_critic_loop
      (((λ p, s_state p.1) <$> (done ++ xs)) ++ st_tail)
      (((λ p, s_next_state p.1) <$> (done ++ xs)) ++ ns_tail)
      (((λ p, s_action p.1) <$> (done ++ xs)) ++ ac_tail)
      ((snd <$> (done ++ xs)) ++ na_tail)
      (((λ p, s_reward p.1) <$> (done ++ xs)) ++ rw_tail)
      js_rest
      (pre ++ (td_loss (small_gamma (critic (self w)))
                 <$> (critic_pass (critic_learning_rate (self w)) xs
                        (critic (self w)) (critic_target (self w))
                        (backend w)).1.1) ++ q_tail)
      (advance
         (critic_pass (critic_learning_rate (self w)) xs (critic (self w))
                      (critic_target (self w)) (backend w)).2
         (concat (calls_of_run (critic_learning_rate (self w))
                    <$> (critic_pass (critic_learning_rate (self w)) xs
                           (critic (self w)) (critic_target (self w))
                           (backend w)).1.1))
         (set_self
            (with_critic
               (critic_pass (critic_learning_rate (self w)) xs (critic (self w))
                            (critic_target (self w)) (backend w)).1.2) w)).
Proof.
  revert done pre w. induction xs as [|[x next_action] xs IH]; intros done pre w Hpre.
  - simpl. unfold advance, set_self. simpl.
    rewrite with_critic_id, !app_nil_r. by destruct w.
  - cbn [length seq app replicate critic_pass train_critic_loop]. run.
    rewrite !(getitem_app_fmap_middle _ done xs (x, next_action)). simpl.
    unfold calculate_q_value, update_weights. simpl.
    destruct (QFunction_calculate_q_value Local (critic (self w)) (s_state x)
                (s_action x) (backend w)) as [[[q spins] visible] b1].
    simpl.
    destruct (QFunction_calculate_q_value Target (critic_target (self w))
                (s_next_state x) next_action b1)
      as [[[next_q next_spins] next_visible] b2].
    simpl.
    rewrite ?(getitem_app_fmap_middle _ done xs (x, next_action)). simpl.
    destruct (QFunction_update_weights (critic (self w)) spins next_visible q
                next_q (s_reward x) (critic_learning_rate (self w)) b2)
      as [[new_hh new_vh] b3].
    simpl.
    rewrite ?(getitem_app_fmap_middle _ done xs (x, next_action)). simpl.
    unfold np.setitem. rewrite decide_True
      by (rewrite length_app, Hpre; simpl; lia).
    simpl.
    rewrite insert_app_r_alt by lia.
    replace (length done - length pre)%nat with 0%nat by lia. simpl.
    set (c1 := {| w_hh := new_hh; w_vh := new_vh;
                  small_gamma := small_gamma (critic (self w)) |}).
    set (loss := ((q - (s_reward x + small_gamma (critic (self w)) * next_q)) ^ 2)%Qc).
    set (w1 := log _ (set_backend b3 (set_self (with_critic c1) _))).
    specialize (IH (done ++ [(x, next_action)]) (pre ++ [loss]) w1
                   ltac:(rewrite !length_app; simpl; lia)).
    rewrite <- !(assoc_L (++)) in IH. simpl in IH.
    rewrite length_app in IH. simpl in IH. rewrite Nat.add_1_r in IH.
    rewrite IH.
    destruct (critic_pass (critic_learning_rate (self w)) xs c1
                (critic_target (self w)) b3) as [[runs c2] b4] eqn:Hpass.
    simpl. f_equal.
    subst w1. unfold advance, log, set_backend, set_self. simpl.
    by rewrite <- !(assoc_L (++)).
Qed.

(** X18. With fewer rewards than states, [train_critic] raises IndexError
    at the sample whose index is [len(rewards)], right after the two
    evaluations of that sample (the local critic on its state and action,
    the target critic on its next state and next action).  Until then it
    has run as on the samples before: one [critic_pass] over them, so
    [update_weights] was called once for each of them; the local critic it
    leaves is the one these updates produced, they are not undone.  No loss
    is recorded and nothing else of the trainer is written. *)
Theorem train_critic_short_rewards_raises (batch : list sample)
    (state_r action_r next_state_r : list Qc)
    (more_states more_actions more_next_states : list (list Qc))
    (dones : list Qc) (random_phase : bool) (w : World) :
  (random_phase = false →
   length batch
   < length (Model_forward (actor_target (self w))
               ((s_next_state <$> batch) ++ next_state_r :: more_next_states)))%nat →
  ∃ (next_actions : list (list Qc)) (b0 : Backend) (first_calls : list event)
    (next_action_r : list Qc) (runs : list sample_run) (c' : QFunction)
    (b' : Backend) (q : Qc) (spins : SpinConfigs) (visible : VisibleNodes)
    (b1 : Backend) (next_q : Qc) (next_spins : SpinConfigs)
    (next_visible : VisibleNodes) (b2 : Backend),
    (if random_phase
     then sampled_actions (env (self w))
            (length ((s_next_state <$> batch) ++ next_state_r :: more_next_states))
            (backend w) = (next_actions, b0) ∧
          first_calls
          = replicate
              (length ((s_next_state <$> batch) ++ next_state_r :: more_next_states))
              call_action_space_sample
     else next_actions
          = Model_forward (actor_target (self w))
              ((s_next_state <$> batch) ++ next_state_r :: more_next_states) ∧
          b0 = backend w ∧
          first_calls
          = [call_predict_on_batch Target
               ((s_next_state <$> batch) ++ next_state_r :: more_next_states)]) ∧
    next_actions !! length batch = Some next_action_r ∧
    critic_pass (critic_learning_rate (self w)) (zip batch next_actions)
                (critic (self w)) (critic_target (self w)) b0
    = (runs, c', b') ∧
    QFunction_calculate_q_value Local c' state_r action_r b'
    = (q, spins, visible, b1) ∧
    QFunction_calculate_q_value Target (critic_target (self w)) next_state_r
                                next_action_r b1
    = (next_q, next_spins, next_visible, b2) ∧
    train_critic ((s_state <$> batch) ++ state_r :: more_states)
                 ((s_next_state <$> batch) ++ next_state_r :: more_next_states)
                 ((s_action <$> batch) ++ action_r :: more_actions)
                 (s_reward <$> batch) dones random_phase w
    = (Raise IndexError,
       advance b2
         (first_calls
          ++ concat (calls_of_run (critic_learning_rate (self w)) <$> runs)
          ++ [call_calculate_q_value Local state_r action_r q spins visible;
              call_calculate_q_value Target next_state_r next_action_r
                                     next_q next_spins next_visible])
         (set_self (with_critic c') w)) ∧
    run_sample <$> runs = batch ∧
    length (filter (λ e, is_update_weights e = true)
              (first_calls
               ++ concat (calls_of_run (critic_learning_rate (self w)) <$> runs)
               ++ [call_calculate_q_value Local state_r action_r q spins visible;
                   call_calculate_q_value Target next_state_r next_action_r
                                          next_q next_spins next_visible]))
    = length (s_reward <$> batch) ∧
    critic (self (train_critic
                    ((s_state <$> batch) ++ state_r :: more_states)
                    ((s_next_state <$> batch) ++ next_state_r :: more_next_states)
                    ((s_action <$> batch) ++ action_r :: more_actions)
                    (s_reward <$> batch) dones random_phase w).2)
    = c' ∧
    q_losses (self (train_critic
                      ((s_state <$> batch) ++ state_r :: more_states)
                      ((s_next_state <$> batch) ++ next_state_r :: more_next_states)
                      ((s_action <$> batch) ++ action_r :: more_actions)
                      (s_reward <$> batch) dones random_phase w).2)
    = q_losses (self w).
Proof.
  intros Hactor.
  set (lr := critic_learning_rate (self w)).
  set (next_states := (s_next_state <$> batch) ++ next_state_r :: more_next_states)
    in *.
  assert (Hphase : ∃ next_actions b0 first_calls,
    (length batch < length next_actions)%nat ∧
    filter (λ e, is_update_weights e = true) first_calls = [] ∧
    (if random_phase
     then sampled_actions (env (self w)) (length next_states) (backend w)
          = (next_actions, b0) ∧
          first_calls = replicate (length next_states) call_action_space_sample
     else next_actions = Model_forward (actor_target (self w)) next_states ∧
          b0 = backend w ∧
          first_calls = [call_predict_on_batch Target next_states]) ∧
    (if random_phase
     then sample_next_actions (length next_states)
     else get_target_actions next_states) w
    = (Ok next_actions, advance b0 first_calls w)).
  { destruct random_phase.
    - pose proof (sampled_actions_length (env (self w)) (length next_states)
                    (backend w)) as Hl.
      pose proof (sample_next_actions_spec (length next_states) w) as Hs.
      destruct (sampled_actions (env (self w)) (length next_states) (backend w))
        as [next_actions b0].
      exists next_actions, b0, (replicate (length next_states) call_action_space_sample).
      split_and!; [|apply filter_sample_calls|done|done|done].
      simpl in Hl. rewrite Hl. unfold next_states.
      rewrite length_app, length_fmap. simpl. lia.
    - exists (Model_forward (actor_target (self w)) next_states),
        (backend w), [call_predict_on_batch Target next_states].
      split_and!; [by apply Hactor|done..]. }
  destruct Hphase as (next_actions & b0 & first_calls & Hlen & Hnone & Hdesc & Hrun).
  destruct (lookup_lt_is_Some_2 next_actions (length batch) Hlen)
    as [next_action_r Hna].
  set (nas := take (length batch) next_actions).
  set (na_tail := drop (S (length batch)) next_actions).
  assert (Hsplit : next_actions = nas ++ next_action_r :: na_tail)
    by (symmetry; by apply take_drop_middle).
  assert (Hnas : length nas = length batch)
    by (unfold nas; rewrite length_take; lia).
  set (w0 := advance b0 first_calls w).
  pose proof (train_critic_loop_prefix (zip batch nas) [] []
                (state_r :: more_states) (next_state_r :: more_next_states)
                (action_r :: more_actions) (next_action_r :: na_tail) []
                (seq (length batch) (S (length more_states)))
                (replicate (S (length more_states)) 0%Qc) w0 eq_refl) as Hloop.
  cbn [app length] in Hloop.
  rewrite !fmap_fst_zip, snd_zip in Hloop by lia.
  rewrite length_zip, Hnas, Nat.min_id, app_nil_r in Hloop.
  change (critic_learning_rate (self w0)) with lr in Hloop.
  change (critic (self w0)) with (critic (self w)) in Hloop.
  change (critic_target (self w0)) with (critic_target (self w)) in Hloop.
  change (backend w0) with b0 in Hloop.
  assert (Hzip : zip batch next_actions = zip batch nas)
    by (unfold nas; symmetry; apply zip_with_take_r).
  destruct (critic_pass_samples lr (zip batch nas) (critic (self w))
              (critic_target (self w)) b0) as [Hs1 _].
  destruct (critic_pass lr (zip batch nas) (critic (self w))
              (critic_target (self w)) b0) as [[runs c'] b'] eqn:Hpass.
  cbn [fst snd] in Hloop. simpl in Hs1.
  destruct (QFunction_calculate_q_value Local c' state_r action_r b')
    as [[[q spins] visible] b1] eqn:E1.
  destruct (QFunction_calculate_q_value Target (critic_target (self w))
              next_state_r next_action_r b1)
    as [[[next_q next_spins] next_visible] b2] eqn:E2.
  assert (Hruns : run_sample <$> runs = batch)
    by (rewrite Hs1; apply fst_zip; lia).
  exists next_actions, b0, first_calls, next_action_r, runs, c', b', q, spins,
    visible, b1, next_q, next_spins, next_visible, b2.
  assert (Hraise :
    train_critic ((s_state <$> batch) ++ state_r :: more_states) next_states
                 ((s_action <$> batch) ++ action_r :: more_actions)
                 (s_reward <$> batch) dones random_phase w
    = (Raise IndexError,
       advance b2
         (first_calls ++ concat (calls_of_run lr <$> runs)
          ++ [call_calculate_q_value Local state_r action_r q spins visible;
              call_calculate_q_value Target next_state_r next_action_r
                                     next_q next_spins next_visible])
         (set_self (with_critic c') w))); [|clear Hloop].
  { unfold train_critic. rewrite bind_run. rewrite Hrun.
    fold w0. rewrite bind_run. unfold next_states.
    rewrite length_app, length_fmap. cbn [length].
    rewrite seq_app, replicate_add. cbn [Nat.add].
    rewrite <- Hsplit in Hloop. rewrite Hloop.
    cbn [seq train_critic_loop]. run.
    rewrite <- (length_fmap s_state batch) at 1.
    rewrite getitem_app_middle. simpl.
    rewrite <- (length_fmap s_action batch) at 1.
    rewrite getitem_app_middle. simpl.
    unfold calculate_q_value. simpl. rewrite E1. simpl.
    rewrite <- (length_fmap s_next_state batch) at 1.
    rewrite getitem_app_middle. simpl.
    unfold np.getitem at 1. rewrite Hna. simpl. rewrite E2. simpl.
    rewrite getitem_out_of_range by (by rewrite length_fmap).
    simpl. f_equal. unfold w0, advance, log, set_backend, set_self. simpl.
    by rewrite <- !(assoc_L (++)). }
  split_and!; [done|done|by rewrite Hzip|done|done|exact Hraise|done|
               |by rewrite Hraise..].
  rewrite !filter_app, Hnone. simpl. rewrite app_nil_r.
  rewrite filter_update_calls, length_fmap.
  by rewrite <- Hruns, length_fmap.
Qed.

(** X19. On an empty minibatch (no states) [train_critic] returns, whatever
    the other arrays hold: it still asks for the next actions (one
    prediction of the target actor, or one [action_space.sample()] per next
    state in the random phase), evaluates and updates nothing, and records
    as loss the mean of an empty array, numpy's nan. *)
Theorem train_critic_empty_minibatch (next_states actions : list (list Qc))
    (rewards dones : list Qc) (random_phase : bool) (w : World) :
  ∃ w',
    train_critic [] next_states actions rewards dones random_phase w
    = (Ok tt, w') ∧
    q_losses (self w') = q_losses (self w) ++ [None] ∧
    critic (self w') = critic (self w) ∧
    trace w'
    = trace w ++ (if random_phase
                  then replicate (length next_states) call_action_space_sample
                  else [call_predict_on_batch Target next_states]).
Proof.
  unfold train_critic. rewrite bind_run. destruct random_phase.
  - rewrite sample_next_actions_spec. eexists. by split_and!.
  - eexists. by split_and!.
Qed.

(** *** [train] when the critic stage fails *)

(** X20. When the store hands out a minibatch on which [train_critic]
    raises, [train] raises the same exception, an IndexError, and stops
    there: the calls it made are the [get_sample] and calls of the critic's
    training only, so the actor was not trained and the targets were not
    synchronised; both actors and the target critic are as they were and no
    loss was recorded.  (The updates the local critic received before the
    failure are kept.) *)
Theorem train_stops_when_the_critic_stage_fails (w w1 w2 : World)
    (states actions next_states : list (list Qc)) (rewards dones : list Qc)
    (e : exn) :
  get_sample (replay_batch_size (self w)) w
  = (Ok (states, actions, rewards, next_states, dones), w1) →
  train_critic states next_states actions rewards dones false w1
  = (Raise e, w2) →
  train w = (Raise e, w2) ∧
  e = IndexError ∧
  (∃ calls,
     trace w2
     = trace w ++ call_get_sample (replay_batch_size (self w)) :: calls ∧
     Forall (λ ev, is_critic_training_call ev = true) calls) ∧
  actor (self w2) = actor (self w) ∧
  actor_target (self w2) = actor_target (self w) ∧
  critic_target (self w2) = critic_target (self w) ∧
  q_losses (self w2) = q_losses (self w).
Proof.
  intros Hsample Hcritic.
  assert (Hframe1 : trace w1
                    = trace w ++ [call_get_sample (replay_batch_size (self w))] ∧
                    actor (self w1) = actor (self w) ∧
                    actor_target (self w1) = actor_target (self w) ∧
                    critic_target (self w1) = critic_target (self w) ∧
                    q_losses (self w1) = q_losses (self w)).
  { unfold get_sample in Hsample.
    destruct (Memory_get_sample _ _ _) as [[r mem] b].
    by injection Hsample as _ <-. }
  destruct Hframe1 as (Ht1 & Ha1 & Hat1 & Hct1 & Hl1).
  destruct (emits_train_critic _ _ _ _ _ _ _ _ _ Hcritic) as (calls & Ht2 & Hc).
  assert (Hframe2 : e = IndexError ∧ same_but_critic w1 w2 ∧
                    q_losses (self w2) = q_losses (self w1)).
  { unfold train_critic in Hcritic. rewrite bind_run in Hcritic.
    simpl in Hcritic. rewrite bind_run in Hcritic.
    destruct (train_critic_loop _ _ _ _ _ _ _ _) as [[q_loss_batch|e'] w'] eqn:Hloop;
      [done|].
    injection Hcritic as -> ->.
    destruct (train_critic_loop_frame _ _ _ _ _ _ _ _ _ _ Hloop)
      as (Hsame & Hloss & Herr).
    split_and!; [by apply Herr| |done].
    eapply same_but_critic_trans; [|exact Hsame]. frame_step. }
  destruct Hframe2 as (-> & Hsame & Hl2).
  destruct (same_but_critic_attributes _ _ Hsame)
    as (_ & _ & _ & _ & _ & _ & _ & _ & _ & _ & _ & _ & _ & Hct2 & Ha2 & Hat2 & _).
  split_and!.
  - unfold train. rewrite bind_run. simpl. rewrite bind_run, Hsample.
    by rewrite bind_run, Hcritic.
  - done.
  - exists calls. split; [|done]. by rewrite Ht2, Ht1, <- (assoc_L (++)).
  - by rewrite Ha2.
  - by rewrite Hat2.
  - by rewrite Hct2.
  - by rewrite Hl2.
Qed.

End qac_facts.

(** ** Runs on the synthetic instance *)

#[local] Existing Instance Synthetic.opaque.
#[local] Existing Instance Synthetic.capabilities.

Lemma synthetic_one_value_per_sample : one_value_per_sample.
Proof. intros c states actions b. simpl. apply length_imap. Qed.

Lemma synthetic_constructor_fixes_keys :
  constructor_fixes_keys Synthetic.symmetric_env (Synthetic.frac 9 10) 100 30.
Proof. intros b b'. simpl. by rewrite !dom_insert_L. Qed.

Lemma synthetic_keys_never_resized : keys_never_resized.
Proof.
  split.
  - intros e gamma annealing_steps anneals b b'. simpl.
    by rewrite !dom_insert_L.
  - intros c spins visible q next_q reward learning_rate b. simpl.
    unfold Synthetic.shift. by rewrite !dom_fmap_L.
Qed.

Lemma sample_returns_recent_pushes_witness :
  (0 < 2)%nat ∧ (2 < length Synthetic.pushes)%nat ∧
  ∃ b, ReplayBuffer.push_all (ReplayBuffer.init [] [] 2) Synthetic.pushes = Ok b ∧
       ReplayBuffer.size b = 2%nat ∧ ReplayBuffer.ptr b = 1%nat ∧
       ∀ n g, ∃ s a r s2 d,
         (ReplayBuffer.sample b n g).1 = Ok (s, a, r, s2, d) ∧ length s = n ∧
         ∀ j, (j < n)%nat →
           ∃ x, x ∈ drop 1 Synthetic.pushes ∧
                s !! j = Some (ReplayBuffer.obs x) ∧
                a !! j = Some (ReplayBuffer.act x) ∧
                r !! j = Some [ReplayBuffer.rew x] ∧
                s2 !! j = Some (ReplayBuffer.next_obs x) ∧
                d !! j = Some (ReplayBuffer.float_of_bool (ReplayBuffer.done x)).
Proof.
  assert (H0 : (0 < 2)%nat) by lia.
  assert (H1 : (2 < length Synthetic.pushes)%nat) by (simpl; lia).
  split; [exact H0|]. split; [exact H1|].
  destruct (sample_returns_recent_pushes [] [] 2 Synthetic.pushes H0 H1)
    as (b & Hb & Hs & Hp & _ & Hsample).
  exists b. split; [exact Hb|]. split; [exact Hs|]. split; [exact Hp|].
  exact Hsample.
Defined.

Lemma sample_empty_raises_witness :
  ReplayBuffer.size (ReplayBuffer.init ([] : list Qc) ([] : list Qc) 2) = 0%nat ∧
  (1 ≤ 1)%nat ∧
  ReplayBuffer.sample (ReplayBuffer.init ([] : list Qc) ([] : list Qc) 2) 1
                      Synthetic.generator
  = (Raise ValueError, Synthetic.generator).
Proof.
  split; [reflexivity|]. split; [lia|].
  apply sample_empty_raises; [reflexivity|lia].
Defined.

Lemma synthetic_world_built :
  Synthetic.build Synthetic.symmetric_env (Synthetic.frac 1 10)
  = Ok Synthetic.world.
Proof. vm_compute. reflexivity. Qed.


Lemma get_action_derivative_central_difference_witness :
  length Synthetic.states = replay_batch_size (self Synthetic.world) ∧
  length Synthetic.actions = replay_batch_size (self Synthetic.world) ∧
  Forall (λ row : list Qc, action_n (self Synthetic.world) ≤ length row)%nat
         Synthetic.actions ∧
  default_epsilon ≠ 0%Qc ∧
  ∃ grads answers b,
    get_action_derivative Synthetic.states Synthetic.actions default_epsilon
                          Synthetic.world
    = (Ok grads,
       advance b (probe_calls Synthetic.states Synthetic.actions default_epsilon
                    (seq 0 (action_n (self Synthetic.world))) answers)
               Synthetic.world) ∧
    length grads = action_n (self Synthetic.world) ∧
    Forall (λ row : list Qc,
              length row = replay_batch_size (self Synthetic.world)) grads.
Proof.
  assert (H1 : length Synthetic.states = replay_batch_size (self Synthetic.world))
    by (vm_compute; reflexivity).
  assert (H2 : length Synthetic.actions = replay_batch_size (self Synthetic.world))
    by (vm_compute; reflexivity).
  assert (Hn : action_n (self Synthetic.world) = 2%nat)
    by (vm_compute; reflexivity).
  assert (H3 : Forall (λ row : list Qc,
                         action_n (self Synthetic.world) ≤ length row)%nat
                      Synthetic.actions)
    by (rewrite Hn; repeat constructor).
  assert (H4 : default_epsilon ≠ 0%Qc) by discriminate.
  split; [exact H1|]. split; [exact H2|]. split; [exact H3|]. split; [exact H4|].
  destruct (get_action_derivative_central_difference
              Synthetic.states Synthetic.actions default_epsilon Synthetic.world
              synthetic_one_value_per_sample H1 H2 H3 H4)
    as (grads & answers & b & _ & Hrun & _ & Hrows & Hcols & _).
  exists grads, answers, b. split; [exact Hrun|]. split; [exact Hrows|exact Hcols].
Defined.

(** On [Q(s, a) = -|a|^2] the bridge returns [-2 a], transposed: the
    gradient points opposite to the action. *)
Example synthetic_gradient_check :
  match (get_action_derivative Synthetic.states Synthetic.actions
                               default_epsilon Synthetic.world).1 with
  | Ok grads => (λ row : list Qc, this <$> row) <$> grads
  | Raise _ => []
  end = [[-1 # 1; 0 # 1]; [1 # 1; -1 # 2]]%Q.
Proof. vm_compute. reflexivity. Qed.


Lemma train_critic_per_sample_witness :
  (false = false →
   length (Model_forward (actor_target (self Synthetic.world))
                         (s_next_state <$> Synthetic.batch))
   = length Synthetic.batch) ∧
  ∃ runs c' b',
    train_critic (s_state <$> Synthetic.batch) (s_next_state <$> Synthetic.batch)
                 (s_action <$> Synthetic.batch) (s_reward <$> Synthetic.batch)
                 Synthetic.dones false Synthetic.world
    = (Ok tt,
       advance b'
         ([call_predict_on_batch Target (s_next_state <$> Synthetic.batch)]
            ++ concat (calls_of_run (critic_learning_rate (self Synthetic.world))
                         <$> runs))
         (set_self
            (λ s, with_q_losses
                    (q_losses s
                     ++ [np.mean
                           (td_loss (small_gamma (critic (self Synthetic.world)))
                              <$> runs)])
                    (with_critic c' s)) Synthetic.world)) ∧
    run_sample <$> runs = Synthetic.batch.
Proof.
  assert (Hactor : false = false →
            length (Model_forward (actor_target (self Synthetic.world))
                                  (s_next_state <$> Synthetic.batch))
            = length Synthetic.batch) by (intros _; vm_compute; reflexivity).
  split; [exact Hactor|].
  destruct (train_critic_per_sample Synthetic.batch Synthetic.dones false
              Synthetic.world Hactor)
    as (next_actions & b0 & first_calls & runs & c' & b' & (_ & _ & Hfirst)
        & _ & Hrun & Hsamples & _).
  exists runs, c', b'. split; [|exact Hsamples].
  rewrite <- Hfirst. exact Hrun.
Defined.

(** C3. The spec hands [update_weights] the representation the local critic
    returned for the sample, [(state_j, action_j)].  The code does not: on
    the synthetic minibatch, whose critic returns as visible nodes the state
    and action it was asked about, the visible nodes of the two
    [update_weights] calls of [train_critic] are the ones the target critic
    returned on [(next_state_j, next_action_j)], and differ from the ones
    the local critic returned on [(state_j, action_j)]. *)
Theorem train_critic_passes_target_visible_nodes :
  let t := trace (train_critic Synthetic.states Synthetic.next_states
                               Synthetic.actions Synthetic.rewards
                               Synthetic.dones false Synthetic.world).2 in
  visible_nodes_passed t = visible_nodes_returned Target t ∧
  visible_nodes_passed t ≠ visible_nodes_returned Local t ∧
  (λ v : list Qc, this <$> v) <$> visible_nodes_passed t
  = [[1 # 4; 1; -1 # 2; -1 # 2]; [0; 0; -1 # 2; -1 # 2]]%Q ∧
  (λ v : list Qc, this <$> v) <$> visible_nodes_returned Local t
  = [[1 # 2; 0; 1 # 2; -1 # 2]; [1 # 4; 1; 0; 1 # 4]]%Q.
Proof.
  split_and!.
  - vm_compute. reflexivity.
  - intros Heq. apply (f_equal (fmap (λ v : list Qc, this <$> v))) in Heq.
    vm_compute in Heq. discriminate.
  - vm_compute. reflexivity.
  - vm_compute. reflexivity.
Qed.

(** The two losses of the synthetic minibatch, 1/400 and 2401/6400, average
    to 2417/12800. *)
Example synthetic_td_loss :
  (λ l : option Qc, this <$> l)
    <$> q_losses (self (train_critic Synthetic.states Synthetic.next_states
                          Synthetic.actions Synthetic.rewards Synthetic.dones
                          false Synthetic.world).2)
  = [Some (2417 # 12800)%Q].
Proof. vm_compute. reflexivity. Qed.

Lemma get_action_within_action_limit_witness :
  default (action_noise_scale (self Synthetic.world)) None ≠ 0%Qc ∧
  compute_action_limit (env (self Synthetic.world))
  = Ok (action_limit (self Synthetic.world)) ∧
  ∃ action w',
    get_action (array1 [Synthetic.frac 1 2; Synthetic.frac 0 1]) None 2
               Synthetic.world = (Ok action, w') ∧
    within (- action_limit (self Synthetic.world))%Qc
           (action_limit (self Synthetic.world)) action ∧
    within_declared_bounds (env (self Synthetic.world)) action.
Proof.
  assert (H1 : default (action_noise_scale (self Synthetic.world)) None ≠ 0%Qc)
    by (vm_compute; discriminate).
  assert (H2 : compute_action_limit (env (self Synthetic.world))
               = Ok (action_limit (self Synthetic.world)))
    by (vm_compute; reflexivity).
  split; [exact H1|]. split; [exact H2|].
  destruct (get_action (array1 [Synthetic.frac 1 2; Synthetic.frac 0 1]) None 2
                       Synthetic.world) as [[action|err] w'] eqn:Hrun;
    [|vm_compute in Hrun; discriminate].
  exists action, w'. split; [reflexivity|].
  destruct (get_action_within_action_limit _ _ _ _ _ _ H1 H2 Hrun)
    as (Hwithin & _ & Hdeclared).
  split; [exact Hwithin|].
  apply (Hdeclared 2%nat (Synthetic.frac 1 1)); [lia|discriminate| |];
    vm_compute; reflexivity.
Defined.

(** C4, as stated, fails: on the environment whose one action coordinate is
    bounded by [0, 1], the trainer [__init__] builds clips to [-1, 1], and
    with noise 1 at episode 1 it returns the action -2/5, below the declared
    lower bound. *)
Lemma get_action_outside_declared_bounds :
  Synthetic.build Synthetic.one_sided_env (Synthetic.frac 1 10)
  = Ok Synthetic.one_sided_world ∧
  default (action_noise_scale (self Synthetic.one_sided_world))
          (Some (Synthetic.frac 1 1)) ≠ 0%Qc ∧
  ∃ action w',
    get_action (array1 [Synthetic.frac 1 2]) (Some (Synthetic.frac 1 1)) 1
               Synthetic.one_sided_world = (Ok action, w') ∧
    (λ row : list Qc, this <$> row) <$> action = [[-2 # 5]]%Q ∧
    ¬ within_declared_bounds (env (self Synthetic.one_sided_world)) action.
Proof.
  split; [vm_compute; reflexivity|]. split; [vm_compute; discriminate|].
  destruct (get_action (array1 [Synthetic.frac 1 2]) (Some (Synthetic.frac 1 1)) 1
                       Synthetic.one_sided_world) as [[action|err] w'] eqn:Hrun;
    [|vm_compute in Hrun; discriminate].
  exists action, w'. split; [reflexivity|].
  vm_compute in Hrun. injection Hrun as <- _.
  split; [vm_compute; reflexivity|].
  intros Hbounds.
  destruct (Hbounds _ 0%nat _ (Synthetic.frac 0 1) (Synthetic.frac 1 1)
              (list_elem_of_here _ _) eq_refl) as [Hlow _].
  - vm_compute. reflexivity.
  - vm_compute. reflexivity.
  - vm_compute in Hlow. by apply Hlow.
Qed.

Lemma synthetic_same_keys :
  same_keys (self Synthetic.trained_world) ∧
  same_shape (weights (actor (self Synthetic.trained_world)))
             (weights (actor_target (self Synthetic.trained_world))).
Proof.
  split; [split; vm_compute; reflexivity|vm_compute; repeat constructor].
Qed.

Lemma soft_update_is_polyak_witness :
  same_keys (self Synthetic.trained_world) ∧
  same_shape (weights (actor (self Synthetic.trained_world)))
             (weights (actor_target (self Synthetic.trained_world))) ∧
  ∃ w',
    _soft_update_actor_and_critic Synthetic.trained_world = (Ok tt, w') ∧
    weights (actor_target (self w'))
    = zip_with (zip_with (polyak (tau_soft_update (self Synthetic.trained_world))))
               (weights (actor (self Synthetic.trained_world)))
               (weights (actor_target (self Synthetic.trained_world))) ∧
    critic (self w') = critic (self Synthetic.trained_world) ∧
    actor (self w') = actor (self Synthetic.trained_world).
Proof.
  split; [exact (proj1 synthetic_same_keys)|].
  split; [exact (proj2 synthetic_same_keys)|].
  destruct (soft_update_is_polyak Synthetic.trained_world
              (proj1 synthetic_same_keys) (proj2 synthetic_same_keys))
    as (w' & Hrun & _ & Hactor & Hc & Ha & _).
  exists w'. split; [exact Hrun|]. split; [exact Hactor|].
  split; [exact Hc|exact Ha].
Defined.

(** One more synchronization moves the target's couplings a tenth of the
    way to the local ones. *)
Example synthetic_soft_update :
  (this <$> w_hh (critic (self Synthetic.trained_world)),
   this <$> w_hh (critic_target (self Synthetic.trained_world)),
   this <$> w_hh (critic_target
                    (self (_soft_update_actor_and_critic
                             Synthetic.trained_world).2)))
  = ({[ 0%nat := (53 # 80000)%Q ]}, {[ 0%nat := (53 # 800000)%Q ]},
     {[ 0%nat := (1007 # 8000000)%Q ]}).
Proof. vm_compute. reflexivity. Qed.

Lemma critic_key_sets_stay_identical_witness :
  constructor_fixes_keys Synthetic.symmetric_env (Synthetic.frac 9 10) 100 30 ∧
  Synthetic.build Synthetic.symmetric_env (Synthetic.frac 1 10)
  = Ok Synthetic.world ∧
  same_keys (self Synthetic.world) ∧
  w_hh (critic_target (self Synthetic.world))
  = w_hh (critic (self Synthetic.world)) ∧
  w_vh (critic_target (self Synthetic.world))
  = w_vh (critic (self Synthetic.world)) ∧
  (∀ w' r,
    _soft_update_actor_and_critic Synthetic.trained_world = (r, w') →
    r ≠ Raise KeyError ∧ same_keys (self w') ∧
    critic (self w') = critic (self Synthetic.trained_world)) ∧
  keys_never_resized ∧
  same_keys (self (invoke_all Synthetic.calls Synthetic.world)).
Proof.
  split; [exact synthetic_constructor_fixes_keys|].
  split; [exact synthetic_world_built|].
  destruct critic_key_sets_stay_identical as (Hinit & Hsync & Hlife).
  destruct (Hinit _ _ _ _ _ _ _ _ _ _ _ _ synthetic_constructor_fixes_keys
              synthetic_world_built) as (Hkeys & Hhh & Hvh).
  split; [exact Hkeys|]. split; [exact Hhh|]. split; [exact Hvh|].
  split.
  - intros w' r Hrun.
    destruct (Hsync _ _ _ (proj1 synthetic_same_keys) Hrun)
      as (Hr & Hkeys' & Hc & _).
    split; [exact Hr|]. split; [exact Hkeys'|exact Hc].
  - split; [exact synthetic_keys_never_resized|].
    destruct (Hlife synthetic_keys_never_resized) as [_ Hall].
    exact (Hall _ _ _ _ _ _ _ _ _ _ _ _ Synthetic.calls synthetic_world_built).
Defined.

Lemma train_critic_ignores_dones_witness :
  length (Model_forward (actor_target (self Synthetic.world))
                        (s_next_state <$> Synthetic.batch))
  = length Synthetic.batch ∧
  train_critic Synthetic.states Synthetic.next_states Synthetic.actions
               Synthetic.rewards Synthetic.dones false Synthetic.world
  = train_critic Synthetic.states Synthetic.next_states Synthetic.actions
                 Synthetic.rewards (replicate (length Synthetic.batch) 1%Qc)
                 false Synthetic.world ∧
  ∃ w',
    train_critic Synthetic.states Synthetic.next_states Synthetic.actions
                 Synthetic.rewards Synthetic.dones false Synthetic.world
    = (Ok tt, w') ∧
    q_losses (self w')
    = q_losses (self Synthetic.world)
      ++ [np.mean
            (td_loss (small_gamma (critic (self Synthetic.world)))
               <$> (critic_pass (critic_learning_rate (self Synthetic.world))
                      (zip Synthetic.batch
                           (Model_forward (actor_target (self Synthetic.world))
                                          (s_next_state <$> Synthetic.batch)))
                      (critic (self Synthetic.world))
                      (critic_target (self Synthetic.world))
                      (backend Synthetic.world)).1.1)].
Proof.
  assert (Hactor : length (Model_forward (actor_target (self Synthetic.world))
                                         (s_next_state <$> Synthetic.batch))
                   = length Synthetic.batch) by (vm_compute; reflexivity).
  destruct train_critic_ignores_dones as (Hsame & _ & Hterminal).
  split; [exact Hactor|]. split; [apply Hsame|].
  destruct (Hterminal Synthetic.batch Synthetic.world Hactor)
    as (w' & Hrun & Hloss).
  exists w'. split; [|exact Hloss].
  rewrite <- Hrun. apply Hsame.
Defined.

(** ** Further runs on the synthetic instance *)

Lemma sample_before_full_returns_pushes_witness :
  (0 < length Synthetic.pushes)%nat ∧ (length Synthetic.pushes ≤ 5)%nat ∧
  ∃ b, ReplayBuffer.push_all (ReplayBuffer.init [] [] 5) Synthetic.pushes = Ok b ∧
       ReplayBuffer.size b = length Synthetic.pushes ∧
       ∀ n g, ∃ s a r s2 d g',
         ReplayBuffer.sample b n g = (Ok (s, a, r, s2, d), g') ∧ length s = n ∧
         ∀ j, (j < n)%nat →
           ∃ x, Synthetic.pushes !! (np.ints g j `mod` length Synthetic.pushes)%nat
                = Some x ∧
                s !! j = Some (ReplayBuffer.obs x).
Proof.
  assert (H0 : (0 < length Synthetic.pushes)%nat) by (simpl; lia).
  assert (H1 : (length Synthetic.pushes ≤ 5)%nat) by (simpl; lia).
  split; [exact H0|]. split; [exact H1|].
  destruct (sample_before_full_returns_pushes [] [] 5 Synthetic.pushes H0 H1)
    as (b & Hb & Hs & Hsample).
  exists b. split; [exact Hb|]. split; [exact Hs|].
  intros n g.
  destruct (Hsample n g)
    as (s & a & r & s2 & d & g' & Hrun & _ & Hl & _ & _ & _ & _ & Hrows).
  exists s, a, r, s2, d, g'. split; [exact Hrun|]. split; [exact Hl|].
  intros j Hj. destruct (Hrows j Hj) as (x & Hx & Hobs & _).
  exists x. split; [exact Hx|exact Hobs].
Defined.

Lemma synthetic_world_init :
  __init__ Synthetic.symmetric_env (Synthetic.frac 9 10) 2 (Synthetic.frac 3 20)
           (Synthetic.frac 1 10) (Synthetic.frac 1 1000) (Synthetic.frac 3 1000)
           100 30 Synthetic.generator 0%nat
  = Ok Synthetic.world.
Proof. exact synthetic_world_built. Qed.

Lemma init_action_limit_covers_declared_bounds_witness :
  Synthetic.build Synthetic.symmetric_env (Synthetic.frac 1 10)
  = Ok Synthetic.world ∧
  (0 ≤ action_limit (self Synthetic.world))%Qc ∧
  ∀ i lo hi x,
    action_space_low Synthetic.symmetric_env !! i = Some lo →
    action_space_high Synthetic.symmetric_env !! i = Some hi →
    (lo ≤ x)%Qc → (x ≤ hi)%Qc →
    np.clip1 x (- action_limit (self Synthetic.world))%Qc
             (action_limit (self Synthetic.world)) = x.
Proof.
  split; [exact synthetic_world_built|].
  destruct (init_action_limit_covers_declared_bounds _ _ _ _ _ _ _ _ _ _ _ _
              synthetic_world_init) as (Hpos & _ & Hcover).
  split; [exact Hpos|].
  intros i lo hi x Hlo Hhi Hlox Hxhi.
  destruct (Hcover i lo hi x Hlo Hhi Hlox Hxhi) as (_ & _ & Hclip).
  exact Hclip.
Defined.

Lemma init_synchronises_targets_witness :
  Synthetic.build Synthetic.symmetric_env (Synthetic.frac 1 10)
  = Ok Synthetic.world ∧
  synchronised (self Synthetic.world) ∧
  target_has_local_keys (self Synthetic.world) ∧
  trace Synthetic.world
  = [call_get_weights Local;
     call_set_weights Target (weights (actor (self Synthetic.world)))].
Proof.
  split; [exact synthetic_world_built|].
  destruct (init_synchronises_targets _ _ _ _ _ _ _ _ _ _ _ _
              synthetic_world_init) as (Hsync & Hkeys & _ & _ & _ & _ & Htrace).
  split; [exact Hsync|]. split; [exact Hkeys|exact Htrace].
Defined.

Lemma get_action_shares_one_noise_vector_witness :
  default (action_noise_scale (self Synthetic.world)) None ≠ 0%Qc ∧
  2%Z ≠ 0%Z ∧
  Forall (λ row : list Qc, length row = action_n (self Synthetic.world))
         (Model_forward (actor (self Synthetic.world))
            (promoted (array2 Synthetic.states))) ∧
  ∃ action,
    (get_action (array2 Synthetic.states) None 2 Synthetic.world).1 = Ok action ∧
    length action
    = length (Model_forward (actor (self Synthetic.world))
                (promoted (array2 Synthetic.states))).
Proof.
  assert (H1 : default (action_noise_scale (self Synthetic.world)) None ≠ 0%Qc)
    by (vm_compute; discriminate).
  assert (H2 : 2%Z ≠ 0%Z) by discriminate.
  assert (H3 : Forall (λ row : list Qc,
                         length row = action_n (self Synthetic.world))
                      (Model_forward (actor (self Synthetic.world))
                         (promoted (array2 Synthetic.states))))
    by (vm_compute; repeat constructor).
  split; [exact H1|]. split; [exact H2|]. split; [exact H3|].
  destruct (get_action_shares_one_noise_vector (array2 Synthetic.states) None 2
              Synthetic.world H1 H2 H3) as (action & Hrun & Hlen & _).
  exists action. split; [|exact Hlen]. rewrite Hrun. reflexivity.
Defined.

(** Both rows of a noisy batch move by the same vector: the prediction
    -1/2 plus 3/20 / 2 * 1/10 in every coordinate. *)
Example synthetic_shared_noise :
  match (get_action (array2 Synthetic.states) None 2 Synthetic.world).1 with
  | Ok action => (λ row : list Qc, this <$> row) <$> action
  | Raise _ => []
  end = [[-197 # 400; -197 # 400]; [-197 # 400; -197 # 400]]%Q.
Proof. vm_compute. reflexivity. Qed.

Lemma get_state_derivative_central_difference_witness :
  state_dim (self Synthetic.world) !! 0%nat = Some 2%nat ∧
  length Synthetic.states = replay_batch_size (self Synthetic.world) ∧
  Forall (λ row : list Qc, 2 ≤ length row)%nat Synthetic.states ∧
  default_state_epsilon ≠ 0%Qc ∧
  ∃ grads answers b,
    get_state_derivative Synthetic.states Synthetic.actions
                         default_state_epsilon Synthetic.world
    = (Ok grads,
       advance b (probe_states_calls Synthetic.states Synthetic.actions
                    default_state_epsilon (seq 0 2) answers)
               Synthetic.world) ∧
    length grads = 2%nat ∧
    Forall (λ row : list Qc,
              length row = replay_batch_size (self Synthetic.world)) grads.
Proof.
  assert (H0 : state_dim (self Synthetic.world) !! 0%nat = Some 2%nat)
    by (vm_compute; reflexivity).
  assert (H1 : length Synthetic.states = replay_batch_size (self Synthetic.world))
    by (vm_compute; reflexivity).
  assert (H2 : Forall (λ row : list Qc, 2 ≤ length row)%nat Synthetic.states)
    by (repeat constructor).
  assert (H3 : default_state_epsilon ≠ 0%Qc) by discriminate.
  split; [exact H0|]. split; [exact H1|]. split; [exact H2|]. split; [exact H3|].
  destruct (get_state_derivative_central_difference
              Synthetic.states Synthetic.actions default_state_epsilon 2
              Synthetic.world synthetic_one_value_per_sample H0 H1 H2 H3)
    as (grads & answers & b & _ & Hrun & _ & Hrows & Hcols & _).
  exists grads, answers, b. split; [exact Hrun|]. split; [exact Hrows|exact Hcols].
Defined.

(** [Q(s, a) = -|a|^2] does not depend on the state: its state gradient is
    zero. *)
Example synthetic_state_gradient :
  match (get_state_derivative Synthetic.states Synthetic.actions
                              default_state_epsilon Synthetic.world).1 with
  | Ok grads => (λ row : list Qc, this <$> row) <$> grads
  | Raise _ => []
  end = [[0 # 1; 0 # 1]; [0 # 1; 0 # 1]]%Q.
Proof. vm_compute. reflexivity. Qed.

Lemma get_action_derivative_5point_stencil_witness :
  length Synthetic.states = replay_batch_size (self Synthetic.world) ∧
  Forall (λ row : list Qc, action_n (self Synthetic.world) ≤ length row)%nat
         Synthetic.actions ∧
  Synthetic.frac 3 20 ≠ 0%Qc ∧
  ∃ grads answers b,
    get_action_derivative_5point Synthetic.states Synthetic.actions
                                 (Synthetic.frac 3 20) Synthetic.world
    = (Ok grads,
       advance b (probe5_calls Synthetic.states Synthetic.actions
                    (Synthetic.frac 3 20)
                    (seq 0 (action_n (self Synthetic.world))) answers)
               Synthetic.world) ∧
    length (probe5_calls Synthetic.states Synthetic.actions
              (Synthetic.frac 3 20)
              (seq 0 (action_n (self Synthetic.world))) answers)
    = (4 * action_n (self Synthetic.world))%nat ∧
    length grads = action_n (self Synthetic.world).
Proof.
  assert (H1 : length Synthetic.states = replay_batch_size (self Synthetic.world))
    by (vm_compute; reflexivity).
  assert (Hn : action_n (self Synthetic.world) = 2%nat)
    by (vm_compute; reflexivity).
  assert (H2 : Forall (λ row : list Qc,
                         action_n (self Synthetic.world) ≤ length row)%nat
                      Synthetic.actions)
    by (rewrite Hn; repeat constructor).
  assert (H3 : Synthetic.frac 3 20 ≠ 0%Qc) by discriminate.
  split; [exact H1|]. split; [exact H2|]. split; [exact H3|].
  destruct (get_action_derivative_5point_stencil
              Synthetic.states Synthetic.actions (Synthetic.frac 3 20)
              Synthetic.world synthetic_one_value_per_sample H1 H2 H3)
    as (grads & answers & b & _ & Hrun & Hcalls & Hrows & _).
  exists grads, answers, b. split; [exact Hrun|]. split; [exact Hcalls|exact Hrows].
Defined.

(** On [Q(s, a) = -|a|^2] the five-point stencil returns [-2 a] as the
    central difference does: both are exact on a quadratic. *)
Example synthetic_5point_gradient_check :
  match (get_action_derivative_5point Synthetic.states Synthetic.actions
           (Synthetic.frac 3 20) Synthetic.world).1 with
  | Ok grads => (λ row : list Qc, this <$> row) <$> grads
  | Raise _ => []
  end = [[-1 # 1; 0 # 1]; [1 # 1; -1 # 2]]%Q.
Proof. vm_compute. reflexivity. Qed.

Lemma get_q_value_evaluations_witness :
  state_dim (self Synthetic.world) !! 0%nat = Some 2%nat ∧
  length Synthetic.states = replay_batch_size (self Synthetic.world) ∧
  Forall (λ row : list Qc, action_n (self Synthetic.world) ≤ length row)%nat
         Synthetic.actions ∧
  ∃ q dq w' calls,
    get_q_value Synthetic.states Synthetic.actions Synthetic.world
    = (Ok (q, np.zeros2 2 (replay_batch_size (self Synthetic.world)), dq), w') ∧
    trace w'
    = trace Synthetic.world
      ++ call_calculate_q_value_on_batch Synthetic.states Synthetic.actions q
         :: calls ∧
    length calls = (2 * action_n (self Synthetic.world))%nat.
Proof.
  assert (H0 : state_dim (self Synthetic.world) !! 0%nat = Some 2%nat)
    by (vm_compute; reflexivity).
  assert (H1 : length Synthetic.states = replay_batch_size (self Synthetic.world))
    by (vm_compute; reflexivity).
  assert (Hn : action_n (self Synthetic.world) = 2%nat)
    by (vm_compute; reflexivity).
  assert (H2 : Forall (λ row : list Qc,
                         action_n (self Synthetic.world) ≤ length row)%nat
                      Synthetic.actions)
    by (rewrite Hn; repeat constructor).
  split; [exact H0|]. split; [exact H1|]. split; [exact H2|].
  destruct (get_q_value_evaluations Synthetic.states Synthetic.actions 2
              Synthetic.world synthetic_one_value_per_sample H0 H1 H2)
    as (q & b1 & dq & w' & calls & _ & _ & Hrun & Htrace & Hlen & _).
  exists q, dq, w', calls. split; [exact Hrun|]. split; [exact Htrace|exact Hlen].
Defined.

Lemma train_critic_short_rewards_raises_witness :
  (false = false →
   length Synthetic.short_batch
   < length (Model_forward (actor_target (self Synthetic.world))
               Synthetic.next_states))%nat ∧
  ∃ (runs : list sample_run) (c' : QFunction) (w' : World),
    train_critic Synthetic.states Synthetic.next_states Synthetic.actions
                 Synthetic.short_rewards Synthetic.dones false Synthetic.world
    = (Raise IndexError, w') ∧
    critic (self w') = c' ∧
    run_sample <$> runs = Synthetic.short_batch.
Proof.
  assert (H1 : false = false →
               (length Synthetic.short_batch
                < length (Model_forward (actor_target (self Synthetic.world))
                            Synthetic.next_states))%nat)
    by (intros _; vm_compute; lia).
  split; [exact H1|].
  destruct (train_critic_short_rewards_raises Synthetic.short_batch
              [Synthetic.frac 1 4; Synthetic.frac 1 1]
              [Synthetic.frac 0 1; Synthetic.frac 1 4]
              [Synthetic.frac 0 1; Synthetic.frac 0 1] [] [] []
              Synthetic.dones false Synthetic.world H1)
    as (next_actions & b0 & first_calls & next_action_r & runs & c' & b' & q
        & spins & visible & b1 & next_q & next_spins & next_visible & b2
        & _ & _ & _ & _ & _ & Hrun & Hruns & _ & _ & _).
  exists runs, c', (advance b2
         (first_calls
          ++ concat (calls_of_run (critic_learning_rate (self Synthetic.world))
                       <$> runs)
          ++ [call_calculate_q_value Local
                [Synthetic.frac 1 4; Synthetic.frac 1 1]
                [Synthetic.frac 0 1; Synthetic.frac 1 4] q spins visible;
              call_calculate_q_value Target
                [Synthetic.frac 0 1; Synthetic.frac 0 1] next_action_r
                next_q next_spins next_visible])
         (set_self (with_critic c') Synthetic.world)).
  split; [exact Hrun|]. split; [reflexivity|exact Hruns].
Defined.

Lemma synthetic_short_sample :
  get_sample (replay_batch_size (self Synthetic.short_world))
             Synthetic.short_world
  = (Ok (Synthetic.states, Synthetic.actions, Synthetic.short_rewards,
         Synthetic.next_states, Synthetic.dones),
     Synthetic.short_sampled_world).
Proof. vm_compute. reflexivity. Qed.

Lemma synthetic_short_failure :
  train_critic Synthetic.states Synthetic.next_states Synthetic.actions
               Synthetic.short_rewards Synthetic.dones false
               Synthetic.short_sampled_world
  = (Raise IndexError, Synthetic.short_failed_world).
Proof. vm_compute. reflexivity. Qed.

Lemma train_stops_when_the_critic_stage_fails_witness :
  get_sample (replay_batch_size (self Synthetic.short_world))
             Synthetic.short_world
  = (Ok (Synthetic.states, Synthetic.actions, Synthetic.short_rewards,
         Synthetic.next_states, Synthetic.dones),
     Synthetic.short_sampled_world) ∧
  train_critic Synthetic.states Synthetic.next_states Synthetic.actions
               Synthetic.short_rewards Synthetic.dones false
               Synthetic.short_sampled_world
  = (Raise IndexError, Synthetic.short_failed_world) ∧
  train Synthetic.short_world = (Raise IndexError, Synthetic.short_failed_world) ∧
  actor (self Synthetic.short_failed_world)
  = actor (self Synthetic.short_world) ∧
  q_losses (self Synthetic.short_failed_world)
  = q_losses (self Synthetic.short_world).
Proof.
  split; [exact synthetic_short_sample|].
  split; [exact synthetic_short_failure|].
  destruct (train_stops_when_the_critic_stage_fails _ _ _ _ _ _ _ _ _
              synthetic_short_sample synthetic_short_failure)
    as (Hrun & _ & _ & Ha & _ & _ & Hl).
  split; [exact Hrun|]. split; [exact Ha|exact Hl].
Defined.
